(** * Memory structures: transcript log, fact ledger, daily notes

    A shallow embedding of the TypeScript sources
    [sessions/Transcript.ts], [sessions/SessionStore.ts],
    [memory/LongTermMemory.ts], [memory/DailyNotes.ts] and
    [utils/tokens.ts], the properties their specification states about
    them, and further properties of the code.

    Conventions.
    - A JavaScript string is a sequence of UTF-16 code units; a code unit is
      a natural number ([N]).
    - A JavaScript [number] holding a token count or an index is a [nat]
      (the source only adds and compares such counts).
    - Platform services the sources call but do not define ([JSON.parse],
      [JSON.stringify], [String.prototype.toLowerCase], the tokenizer, the
      clock, the UUID generator) are section variables or explicit
      arguments. *)

From Stdlib Require Import Ascii String.
From stdpp Require Import base option list numbers gmap sorting.

Set Default Proof Using "Type".

(** ** JavaScript strings *)

Module JS.

Abbreviation char := N (only parsing).
Abbreviation str := (list N) (only parsing).

(** A string literal of the source, as code units. *)
Definition lit (s : string) : str := map N_of_ascii (list_ascii_of_string s).

Definition LF : N := 10.

(** [WhiteSpace] and [LineTerminator] of ECMAScript: what [trim],
    [trimEnd] and the regular expression class [\s] recognise. *)
Definition isSpace (c : N) : bool :=
  (c =? 9)%N || (c =? 10)%N || (c =? 11)%N || (c =? 12)%N || (c =? 13)%N
  || (c =? 32)%N || (c =? 160)%N || (c =? 5760)%N
  || ((8192 <=? c)%N && (c <=? 8202)%N)
  || (c =? 8232)%N || (c =? 8233)%N || (c =? 8239)%N || (c =? 8287)%N
  || (c =? 12288)%N || (c =? 65279)%N.

(** [LineTerminator]: where [^] and [$] match under the [m] flag. *)
Definition isLineTerminator (c : N) : bool :=
  (c =? 10)%N || (c =? 13)%N || (c =? 8232)%N || (c =? 8233)%N.

Fixpoint trimStart (s : str) : str :=
  match s with
  | [] => []
  | c :: r => if isSpace c then trimStart r else s
  end.

Fixpoint trimEnd (s : str) : str :=
  match s with
  | [] => []
  | c :: r =>
      match trimEnd r with
      | [] => if isSpace c then [] else [c]
      | r' => c :: r'
      end
  end.

Definition trim (s : str) : str := trimEnd (trimStart s).

(** Truthiness of a string: [if (s)]. *)
Definition truthy (s : str) : bool :=
  match s with [] => false | _ :: _ => true end.

(** Every code unit is white space: [s.trim()] is empty. *)
Definition isBlank (s : str) : bool := forallb isSpace s.

(** [s.split('\n')] *)
Fixpoint split (s : str) : list str :=
  match s with
  | [] => [[]]
  | c :: r =>
      if (c =? LF)%N then [] :: split r
      else match split r with
           | l :: ls => (c :: l) :: ls
           | [] => [[c]]
           end
  end.

(** [lines.join('\n')] *)
Fixpoint join (ls : list str) : str :=
  match ls with
  | [] => []
  | [l] => l
  | l :: ls' => l ++ LF :: join ls'
  end.

Definition str_eqb (a b : str) : bool := bool_decide (a = b).

Fixpoint startsWith (p s : str) : bool :=
  match p, s with
  | [], _ => true
  | a :: p', b :: s' => (a =? b)%N && startsWith p' s'
  | _ :: _, [] => false
  end.

(** The first, respectively last, code unit exists and is not white
    space: [trimStart], respectively [trimEnd], leaves the string alone. *)
Definition firstSolid (s : str) : bool :=
  match s with c :: _ => negb (isSpace c) | [] => false end.

Definition lastSolid (s : str) : bool :=
  match last s with Some c => negb (isSpace c) | None => false end.

(** The non-empty suffixes of a list, longest first. *)
Fixpoint tails {A} (l : list A) : list (list A) :=
  match l with
  | [] => []
  | _ :: r => l :: tails r
  end.

(** The first index of an element that satisfies [P]. *)
Fixpoint findIndex {A} (P : A → bool) (l : list A) : option nat :=
  match l with
  | [] => None
  | x :: r => if P x then Some 0 else S <$> findIndex P r
  end.

(** Comparison of strings by code units, as [Array.prototype.sort] does
    it when given no comparator. *)
Fixpoint str_ltb (a b : str) : bool :=
  match a, b with
  | _, [] => false
  | [], _ :: _ => true
  | x :: a', y :: b' => (x <? y)%N || ((x =? y)%N && str_ltb a' b')
  end.

Fixpoint insertSorted (x : str) (l : list str) : list str :=
  match l with
  | [] => [x]
  | y :: r => if str_ltb y x then y :: insertSorted x r else x :: l
  end.

Definition sortStrings (l : list str) : list str := foldr insertSorted [] l.

End JS.
Import JS.


(** ** Token counts ([utils/tokens.ts]) *)

Module Tokens.

Section WithEncoder.

(** The tokens of the tiktoken encoder, and [enc.encode(text)]. *)
Variable Token : Type.
Variable encode : str → list Token.

Definition countTokens (text : str) : nat := length (encode text).

(** [texts.reduce((sum, text) => sum + countTokens(text), 0)] *)
Definition countTokensMultiple (texts : list str) : nat :=
  foldl (λ sum text, sum + countTokens text) 0 texts.

End WithEncoder.

(** [Math.ceil(n / 4)] for a length [n]. *)
Definition ceilQuarter (n : nat) : nat :=
  n / 4 + (if n mod 4 =? 0 then 0 else 1).

Definition estimateTokens (text : str) : nat := ceilQuarter (length text).

End Tokens.
(** ** Session transcript ([sessions/Transcript.ts]) *)

Module Transcript.

Inductive EntryType := message | tool_call | tool_result | compaction.
Inductive Role := user | assistant.

(** [metadata?: Record<string, unknown>]: the values the source stores. *)
Inductive MetaValue :=
  | MString (s : str)
  | MNumber (n : nat)
  | MStrings (l : list str).

Record TranscriptEntry := {
  id : str;
  parentId : option str;
  timestamp : str;
  type : EntryType;
  role : option Role;
  content : str;
  tokenCount : option nat;
  metadata : option (list (str * MetaValue));
}.

(** [Omit<TranscriptEntry, 'id' | 'timestamp' | 'tokenCount'>] *)
Record EntryInput := {
  in_type : EntryType;
  in_role : option Role;
  in_content : str;
  in_parentId : option str;
  in_metadata : option (list (str * MetaValue));
}.

(** The private fields of the class. *)
Record Transcript := {
  filePath : str;
  entries : list TranscriptEntry;
  totalTokens : nat;
  loaded : bool;
}.

(** What the class sees of the outside: the files, by path, and the lines
    written with [console.error]. *)
Record World := {
  disk : gmap (list N) (list N);
  console : list str;
}.

(** [new Transcript({ filePath })] *)
Definition new (path : str) : Transcript :=
  {| filePath := path; entries := []; totalTokens := 0; loaded := false |}.

(** [e.tokenCount || 0] *)
Definition tokensOf (e : TranscriptEntry) : nat := default 0 (tokenCount e).

(** [a || b] on [string | null]: the empty string is falsy as well. *)
Definition orElse (a b : option str) : option str :=
  match a with
  | Some (_ :: _) => a
  | _ => b
  end.

Definition isCompaction (e : TranscriptEntry) : bool :=
  match type e with compaction => true | _ => false end.

(** The running total agrees with the entries held. *)
Definition totalsAgree (t : Transcript) : Prop :=
  totalTokens t = sum_list_with tokensOf (entries t).

(** The file is absent, empty, or ends with a line feed: what [init] and
    [append] leave behind. *)
Definition endsLines (file : option str) : Prop :=
  match file with
  | None => True
  | Some c => c = [] ∨ last c = Some LF
  end.

(** A serialized record as [JSON.stringify] prints an object: on one line,
    from its opening brace to its closing brace. *)
Definition oneLineRecord (l : str) : Prop :=
  LF ∉ l ∧ firstSolid l = true ∧ lastSolid l = true.

(** The two records agree on all fields but [metadata]. *)
Definition sameRecord (a b : TranscriptEntry) : Prop :=
  id a = id b ∧ parentId a = parentId b ∧ timestamp a = timestamp b ∧
  type a = type b ∧ role a = role b ∧ content a = content b ∧
  tokenCount a = tokenCount b.

Section WithPlatform.

(** [countTokens] of [utils/tokens.ts] (the tiktoken encoder). *)
Variable countTokens : str → nat.
(** [JSON.parse(line) as TranscriptEntry], for lines that hold a
    serialized record or are no JSON text at all; [None] when it throws.
    A line that is JSON but no record ([null], a number) is outside this
    typed view: [UntypedTranscript] below has [load] with such lines, and
    the two agree on every file without them. *)
Variable JSON_parse : str → option TranscriptEntry.
(** [JSON.stringify(fullEntry)] *)
Variable JSON_stringify : TranscriptEntry → str.
(** The [unknown] tool input, and [JSON.stringify({ tool, input })]. *)
Variable Unknown : Type.
Variable JSON_stringify_call : str → Unknown → str.

(** The body of the [for (const line of lines)] loop of [load]. *)
Definition load_line (st : list TranscriptEntry * nat * list str) (line : str)
  : list TranscriptEntry * nat * list str :=
  let '(es, total, log) := st in
  if truthy (trim line) then
    match JSON_parse line with
    | Some entry => (es ++ [entry], total + tokensOf entry, log)
    | None => (es, total, log ++ [line])
    end
  else st.

Definition load (t : Transcript) (w : World) : Transcript * World :=
  if loaded t then (t, w)
  else
    match disk w !! filePath t with
    | None =>
        ({| filePath := filePath t; entries := []; totalTokens := 0;
            loaded := true |}, w)
    | Some content =>
        let '(es, total, log) :=
          if truthy (trim content)
          then foldl load_line ([], 0, console w) (split (trim content))
          else ([], 0, console w) in
        ({| filePath := filePath t; entries := es; totalTokens := total;
            loaded := true |},
         {| disk := disk w; console := log |})
    end.

(** [init]: the parent directory is not modelled. *)
Definition init (t : Transcript) (w : World) : Transcript * World :=
  let w1 :=
    match disk w !! filePath t with
    | None => {| disk := <[filePath t := []]> (disk w); console := console w |}
    | Some _ => w
    end in
  load t w1.

(** [open(path, 'a')], [write], [close]. *)
Definition appendFile (path data : str) (w : World) : World :=
  {| disk := <[path := default [] (disk w !! path) ++ data]> (disk w);
     console := console w |}.

(** [append]; [uuid] is the result of [randomUUID()] and [now] that of
    [new Date().toISOString()]. *)
Definition append (entry : EntryInput) (uuid now : str)
    (t : Transcript) (w : World) : TranscriptEntry * (Transcript * World) :=
  let '(t1, w1) := load t w in
  let tokenCount := countTokens (in_content entry) in
  let fullEntry :=
    {| id := uuid; parentId := in_parentId entry; timestamp := now;
       type := in_type entry; role := in_role entry;
       content := in_content entry; tokenCount := Some tokenCount;
       metadata := in_metadata entry |} in
  let w2 := appendFile (filePath t1) (JSON_stringify fullEntry ++ [LF]) w1 in
  (fullEntry,
   ({| filePath := filePath t1; entries := entries t1 ++ [fullEntry];
       totalTokens := totalTokens t1 + tokenCount; loaded := loaded t1 |},
    w2)).

Definition getLastEntryId (t : Transcript) : option str :=
  match entries t with
  | [] => None
  | _ => id <$> entries t !! (length (entries t) - 1)
  end.

Definition addUserMessage (c : str) (parent : option str) (uuid now : str)
    (t : Transcript) (w : World) :=
  let parent := orElse parent (getLastEntryId t) in
  append {| in_type := message; in_role := Some user; in_content := c;
            in_parentId := parent; in_metadata := None |} uuid now t w.

Definition addAssistantMessage (c : str) (parent : option str) (uuid now : str)
    (t : Transcript) (w : World) :=
  let parent := orElse parent (getLastEntryId t) in
  append {| in_type := message; in_role := Some assistant; in_content := c;
            in_parentId := parent; in_metadata := None |} uuid now t w.

Definition addToolCall (toolName : str) (input : Unknown) (parent : option str)
    (uuid now : str) (t : Transcript) (w : World) :=
  let parent := orElse parent (getLastEntryId t) in
  append {| in_type := tool_call; in_role := None;
            in_content := JSON_stringify_call toolName input;
            in_parentId := parent;
            in_metadata := Some [(lit "toolName", MString toolName)] |}
         uuid now t w.

Definition addToolResult (result parent : str) (uuid now : str)
    (t : Transcript) (w : World) :=
  append {| in_type := tool_result; in_role := None; in_content := result;
            in_parentId := Some parent; in_metadata := None |} uuid now t w.

Definition addCompaction (summary : str) (removedEntryIds : list str)
    (uuid now : str) (t : Transcript) (w : World) :=
  append {| in_type := compaction; in_role := None; in_content := summary;
            in_parentId := None;
            in_metadata :=
              Some [(lit "removedEntryIds", MStrings removedEntryIds);
                    (lit "removedCount", MNumber (length removedEntryIds))] |}
         uuid now t w.

(** [[...this.entries]] *)
Definition getEntries (t : Transcript) : list TranscriptEntry := entries t.

(** The loop [for (let i = length - 1; i >= 0; i--)] of [getRecentEntries],
    about to examine index [n - 1]. *)
Fixpoint lastCompactionFrom (es : list TranscriptEntry) (n : nat) : option nat :=
  match n with
  | 0 => None
  | S i =>
      match es !! i with
      | Some e => if isCompaction e then Some i else lastCompactionFrom es i
      | None => lastCompactionFrom es i
      end
  end.

Definition getRecentEntries (t : Transcript) : list TranscriptEntry :=
  match lastCompactionFrom (entries t) (length (entries t)) with
  | None => entries t
  | Some lastCompactionIndex => drop lastCompactionIndex (entries t)
  end.

Definition getTotalTokens (t : Transcript) : nat := totalTokens t.

Definition getRecentTokens (t : Transcript) : nat :=
  foldl (λ sum e, sum + tokensOf e) 0 (getRecentEntries t).

Definition getEntryCount (t : Transcript) : nat := length (entries t).

Definition getCompactionCount (t : Transcript) : nat :=
  length (filter (λ e, isCompaction e = true) (entries t)).

Definition reload (t : Transcript) (w : World) : Transcript * World :=
  load {| filePath := filePath t; entries := []; totalTokens := 0;
          loaded := false |} w.

(** The calls a client can make on a transcript, with the values the clock
    and the UUID generator return for them. *)
Inductive Op :=
  | OpInit
  | OpLoad
  | OpReload
  | OpUserMessage (c : str) (parent : option str) (uuid now : str)
  | OpAssistantMessage (c : str) (parent : option str) (uuid now : str)
  | OpToolCall (toolName : str) (input : Unknown) (parent : option str)
      (uuid now : str)
  | OpToolResult (result parent : str) (uuid now : str)
  | OpCompaction (summary : str) (removedEntryIds : list str) (uuid now : str).

Definition step (s : Transcript * World) (o : Op) : Transcript * World :=
  let '(t, w) := s in
  match o with
  | OpInit => init t w
  | OpLoad => load t w
  | OpReload => reload t w
  | OpUserMessage c p u n => (addUserMessage c p u n t w).2
  | OpAssistantMessage c p u n => (addAssistantMessage c p u n t w).2
  | OpToolCall tn i p u n => (addToolCall tn i p u n t w).2
  | OpToolResult r p u n => (addToolResult r p u n t w).2
  | OpCompaction s ids u n => (addCompaction s ids u n t w).2
  end.

Definition run (ops : list Op) (s : Transcript * World) : Transcript * World :=
  foldl step s ops.

(** The entries [load] keeps from the lines of a file, in order, and the
    lines it reports with [console.error]. *)
Definition entriesOfLines (lines : list str) : list TranscriptEntry :=
  omap (λ line, if truthy (trim line) then JSON_parse line else None) lines.

Definition rejectedLines (lines : list str) : list str :=
  List.filter
    (λ line, truthy (trim line) &&
             match JSON_parse line with Some _ => false | None => true end)
    lines.

(** A message to append: who says it, and what the environment returns
    during the call. *)
Record Msg := {
  m_role : Role;
  m_content : str;
  m_parent : option str;
  m_uuid : str;
  m_now : str;
}.

Definition msgOp (m : Msg) : Op :=
  match m_role m with
  | user => OpUserMessage (m_content m) (m_parent m) (m_uuid m) (m_now m)
  | assistant =>
      OpAssistantMessage (m_content m) (m_parent m) (m_uuid m) (m_now m)
  end.

(** The text of a transcript file that holds the given entries, one
    [JSON.stringify(entry) + '\n'] after the other, as [append] writes
    them. *)
Definition serialize (es : list TranscriptEntry) : str :=
  flat_map (λ e, JSON_stringify e ++ [LF]) es.

(** [JSON.stringify] prints the entry on one line, and [JSON.parse] gives
    the entry back from that line. *)
Definition roundTrips (e : TranscriptEntry) : Prop :=
  oneLineRecord (JSON_stringify e) ∧ JSON_parse (JSON_stringify e) = Some e.

(** The state of an instance that only this class has written to its
    file: the file holds the entries, serialized in order. *)
Definition written (path : str) (s : Transcript * World) : Prop :=
  filePath s.1 = path ∧ totalsAgree s.1 ∧
  (loaded s.1 = false → entries s.1 = []) ∧
  match disk s.2 !! path with
  | None => entries s.1 = []
  | Some c => c = serialize (entries s.1)
  end.

(** The calls that append an entry, and those that append a compaction. *)
Definition isAppendOp (o : Op) : bool :=
  match o with
  | OpInit | OpLoad | OpReload => false
  | _ => true
  end.

Definition isCompactionOp (o : Op) : bool :=
  match o with
  | OpCompaction _ _ _ _ => true
  | _ => false
  end.

Definition isReloadOp (o : Op) : bool :=
  match o with
  | OpReload => true
  | _ => false
  end.

End WithPlatform.

(** An element of the list [buildConversationHistory] returns. *)
Record ChatMessage := {
  msg_role : Role;
  msg_content : str;
}.

(** The message a compaction entry is rendered as. *)
Definition summaryMessage (e : TranscriptEntry) : ChatMessage :=
  {| msg_role := assistant;
     msg_content := lit "[Previous conversation summary]" ++ LF :: content e |}.

(** The body of the loop of [buildConversationHistory]: what it pushes for
    an entry, if anything. *)
Definition historyMessage (e : TranscriptEntry) : option ChatMessage :=
  match type e with
  | compaction => Some (summaryMessage e)
  | message =>
      match role e with
      | Some r => Some {| msg_role := r; msg_content := content e |}
      | None => None
      end
  | _ => None
  end.

Definition buildConversationHistory (t : Transcript) : list ChatMessage :=
  omap historyMessage (getRecentEntries t).

(** What a message entry with a role contributes to the history; nothing
    for any other entry. *)
Definition plainMessage (e : TranscriptEntry) : option ChatMessage :=
  match type e, role e with
  | message, Some r => Some {| msg_role := r; msg_content := content e |}
  | _, _ => None
  end.

(** Each entry names the one before it as its parent, the first one
    [prev]. *)
Fixpoint linked (prev : option str) (es : list TranscriptEntry) : Prop :=
  match es with
  | [] => True
  | e :: rest => parentId e = prev ∧ linked (Some (id e)) rest
  end.

End Transcript.

(** ** [load] on a file whose lines hold any JSON text

    [Transcript] above takes every line of the file that [JSON.parse]
    accepts to hold an entry record. [JSON.parse(line) as TranscriptEntry]
    checks no such thing: the cast is erased, and whatever value the line
    holds is pushed. This module has [load] with those values. *)

Module UntypedTranscript.

(** What [JSON.parse] returns for a line: an entry record; [null]; or a
    value on which reading [tokenCount] gives [undefined] (a number, a
    string, a boolean, an array, an object without that property), given
    by its text. *)
Inductive Parsed :=
  | PRecord (e : Transcript.TranscriptEntry)
  | PNull
  | POther (text : str).

(** The private fields of the class; [entries] as it is at run time. *)
Record Transcript := {
  filePath : str;
  entries : list Parsed;
  totalTokens : nat;
  loaded : bool;
}.

Abbreviation World := Transcript.World.

(** [new Transcript({ filePath })] *)
Definition new (path : str) : Transcript :=
  {| filePath := path; entries := []; totalTokens := 0; loaded := false |}.

(** [entry.tokenCount || 0]; [None] where reading the property throws a
    [TypeError]. *)
Definition tokenCountOr0 (entry : Parsed) : option nat :=
  match entry with
  | PRecord e => Some (Transcript.tokensOf e)
  | PNull => None
  | POther _ => Some 0
  end.

(** The same total, for a sum over entries that are held. *)
Definition tokensOf (entry : Parsed) : nat := default 0 (tokenCountOr0 entry).

(** The entries of a typed transcript, as values. *)
Definition untyped (t : Transcript.Transcript) : Transcript :=
  {| filePath := Transcript.filePath t;
     entries := map PRecord (Transcript.entries t);
     totalTokens := Transcript.totalTokens t;
     loaded := Transcript.loaded t |}.

Section WithPlatform.

(** [JSON.parse(line)]; [None] when it throws. *)
Variable JSON_parse : str → option Parsed.

(** The body of the [for (const line of lines)] loop of [load]: inside
    the [try], [push] comes before the read of [entry.tokenCount], so a
    value is held even when that read throws and the line is reported. *)
Definition load_line (st : list Parsed * nat * list str) (line : str)
  : list Parsed * nat * list str :=
  let '(es, total, log) := st in
  if truthy (trim line) then
    match JSON_parse line with
    | Some entry =>
        let es := es ++ [entry] in
        match tokenCountOr0 entry with
        | Some n => (es, total + n, log)
        | None => (es, total, log ++ [line])
        end
    | None => (es, total, log ++ [line])
    end
  else st.

Definition load (t : Transcript) (w : World) : Transcript * World :=
  if loaded t then (t, w)
  else
    match Transcript.disk w !! filePath t with
    | None =>
        ({| filePath := filePath t; entries := []; totalTokens := 0;
            loaded := true |}, w)
    | Some content =>
        let '(es, total, log) :=
          if truthy (trim content)
          then foldl load_line ([], 0, Transcript.console w)
                 (split (trim content))
          else ([], 0, Transcript.console w) in
        ({| filePath := filePath t; entries := es; totalTokens := total;
            loaded := true |},
         {| Transcript.disk := Transcript.disk w;
            Transcript.console := log |})
    end.

(** The values [load] keeps from the lines of a file, in order, and the
    lines it reports with [console.error]. *)
Definition valuesOfLines (lines : list str) : list Parsed :=
  omap (λ line, if truthy (trim line) then JSON_parse line else None) lines.

Definition reportedLines (lines : list str) : list str :=
  List.filter
    (λ line, truthy (trim line) &&
             match JSON_parse line with
             | None | Some PNull => true
             | Some _ => false
             end)
    lines.

(** The typed view of [JSON.parse]: the record a line holds, if it holds
    one. *)
Definition asRecord (line : str) : option Transcript.TranscriptEntry :=
  match JSON_parse line with
  | Some (PRecord e) => Some e
  | _ => None
  end.

(** A line the typed view is right about: blank, rejected by
    [JSON.parse], or holding a record. *)
Definition recordOrRejected (line : str) : bool :=
  negb (truthy (trim line)) ||
  match JSON_parse line with
  | None | Some (PRecord _) => true
  | Some _ => false
  end.

End WithPlatform.

End UntypedTranscript.

(** ** Session metadata ([sessions/SessionStore.ts]) *)

Module SessionStore.

Record SessionMetadata := {
  sessionId : str;
  agentId : str;
  createdAt : str;
  updatedAt : str;
  totalTokens : nat;
  entryCount : nat;
  compactionCount : nat;
}.

(** [Partial<Omit<SessionMetadata, 'sessionId' | 'agentId' | 'createdAt'>>] *)
Record Updates := {
  u_updatedAt : option str;
  u_totalTokens : option nat;
  u_entryCount : option nat;
  u_compactionCount : option nat;
}.

(** The private fields of the class. *)
Record Store := {
  baseDir : str;
  ownAgentId : str;
  sessionsFilePath : str;
  sessions : list SessionMetadata;
  loaded : bool;
}.

Abbreviation World := Transcript.World.

(** [{ ...old, ...updates, updatedAt: now }] *)
Definition merge (old : SessionMetadata) (updates : Updates) (now : str)
  : SessionMetadata :=
  {| sessionId := sessionId old; agentId := agentId old;
     createdAt := createdAt old; updatedAt := now;
     totalTokens := default (totalTokens old) (u_totalTokens updates);
     entryCount := default (entryCount old) (u_entryCount updates);
     compactionCount :=
       default (compactionCount old) (u_compactionCount updates) |}.

(** The callback [(s) => s.sessionId === sessionId]. *)
Definition hasId (id : str) (s : SessionMetadata) : bool :=
  str_eqb (sessionId s) id.

Section WithPlatform.

(** [join] of [node:path]. *)
Variable path_join : list str → str.
(** [(JSON.parse(content) as SessionsFile).sessions || []]; [None] when
    [JSON.parse] throws. *)
Variable JSON_parse_sessions : str → option (list SessionMetadata).
(** [JSON.stringify({ sessions }, null, 2)] *)
Variable JSON_stringify_sessions : list SessionMetadata → str.
(** The time value of [new Date(s)]; [None] for an invalid date, whose
    time value is [NaN]. *)
Variable Date_value : str → option Z.
(** [JSON.parse] on the lines of a transcript. *)
Variable JSON_parse : str → option Transcript.TranscriptEntry.

(** [new SessionStore({ baseDir, agentId })] *)
Definition new (dir agent : str) : Store :=
  {| baseDir := dir; ownAgentId := agent;
     sessionsFilePath :=
       path_join [dir; lit "agents"; agent; lit "sessions.json"];
     sessions := []; loaded := false |}.

Definition withSessions (st : Store) (l : list SessionMetadata) : Store :=
  {| baseDir := baseDir st; ownAgentId := ownAgentId st;
     sessionsFilePath := sessionsFilePath st; sessions := l;
     loaded := loaded st |}.

(** What [load] reads from the sessions file. *)
Definition stored (file : option str) : list SessionMetadata :=
  match file with
  | None => []
  | Some content => default [] (JSON_parse_sessions content)
  end.

Definition load (st : Store) (w : World) : Store :=
  if loaded st then st
  else
    {| baseDir := baseDir st; ownAgentId := ownAgentId st;
       sessionsFilePath := sessionsFilePath st;
       sessions := stored (Transcript.disk w !! sessionsFilePath st);
       loaded := true |}.

(** [init]: the directory is not modelled. *)
Definition init (st : Store) (w : World) : Store := load st w.

Definition save (st : Store) (w : World) : World :=
  {| Transcript.disk :=
       <[sessionsFilePath st := JSON_stringify_sessions (sessions st)]>
         (Transcript.disk w);
     Transcript.console := Transcript.console w |}.

Definition getTranscriptPath (st : Store) (id : str) : str :=
  path_join [baseDir st; lit "agents"; ownAgentId st; lit "sessions";
             id ++ lit ".jsonl"].

(** [createSession]; [uuid] is the result of [randomUUID()] and [now] that
    of [new Date().toISOString()]. *)
Definition createSession (uuid now : str) (st : Store) (w : World)
  : (SessionMetadata * Transcript.Transcript) * (Store * World) :=
  let st1 := load st w in
  let metadata :=
    {| sessionId := uuid; agentId := ownAgentId st1; createdAt := now;
       updatedAt := now; totalTokens := 0; entryCount := 0;
       compactionCount := 0 |} in
  let st2 := withSessions st1 (sessions st1 ++ [metadata]) in
  let w2 := save st2 w in
  let transcriptPath := getTranscriptPath st2 uuid in
  let '(transcript, w3) :=
    Transcript.init JSON_parse (Transcript.new transcriptPath) w2 in
  ((metadata, transcript), (st2, w3)).

Definition loadSession (id : str) (st : Store) (w : World)
  : option Transcript.Transcript * (Store * World) :=
  let st1 := load st w in
  match List.find (hasId id) (sessions st1) with
  | None => (None, (st1, w))
  | Some _ =>
      let '(transcript, w1) :=
        Transcript.load JSON_parse
          (Transcript.new (getTranscriptPath st1 id)) w in
      (Some transcript, (st1, w1))
  end.

Definition updateSession (id : str) (updates : Updates) (now : str)
    (st : Store) (w : World) : Store * World :=
  let st1 := load st w in
  match findIndex (hasId id) (sessions st1) with
  | None => (st1, w)
  | Some index =>
      match sessions st1 !! index with
      | Some old =>
          let st2 :=
            withSessions st1 (<[index := merge old updates now]> (sessions st1)) in
          (st2, save st2 w)
      | None => (st1, w)
      end
  end.

Definition syncFromTranscript (id : str) (transcript : Transcript.Transcript)
    (now : str) (st : Store) (w : World) : Store * World :=
  updateSession id
    {| u_updatedAt := None;
       u_totalTokens := Some (Transcript.getTotalTokens transcript);
       u_entryCount := Some (Transcript.getEntryCount transcript);
       u_compactionCount := Some (Transcript.getCompactionCount transcript) |}
    now st w.

Definition getSessions (st : Store) (w : World)
  : list SessionMetadata * Store :=
  let st1 := load st w in (sessions st1, st1).

(** [new Date(a) > new Date(b)]: false when either time value is [NaN]. *)
Definition later (a b : str) : bool :=
  match Date_value a, Date_value b with
  | Some x, Some y => (y <? x)%Z
  | _, _ => false
  end.

(** The callback of [reduce] in [getMostRecentSession]. *)
Definition pickLater (latest current : SessionMetadata) : SessionMetadata :=
  if later (updatedAt current) (updatedAt latest) then current else latest.

Definition getMostRecentSession (st : Store) (w : World)
  : option SessionMetadata * Store :=
  let st1 := load st w in
  match sessions st1 with
  | [] => (None, st1)
  | first :: rest => (Some (foldl pickLater first rest), st1)
  end.

Definition deleteSession (id : str) (st : Store) (w : World)
  : bool * (Store * World) :=
  let st1 := load st w in
  match findIndex (hasId id) (sessions st1) with
  | None => (false, (st1, w))
  | Some index =>
      let st2 := withSessions st1 (delete index (sessions st1)) in
      (true, (st2, save st2 w))
  end.

Definition getSessionsFilePath (st : Store) : str := sessionsFilePath st.
Definition getBaseDir (st : Store) : str := baseDir st.

(** The calls a client can make on a store, with the values the clock and
    the UUID generator return for them. *)
Inductive Op :=
  | OpInit
  | OpCreateSession (uuid now : str)
  | OpLoadSession (id : str)
  | OpUpdateSession (id : str) (updates : Updates) (now : str)
  | OpSyncFromTranscript (id : str) (transcript : Transcript.Transcript)
      (now : str)
  | OpGetSessions
  | OpGetMostRecentSession
  | OpDeleteSession (id : str).

Definition step (s : Store * World) (o : Op) : Store * World :=
  let '(st, w) := s in
  match o with
  | OpInit => (init st w, w)
  | OpCreateSession uuid now => (createSession uuid now st w).2
  | OpLoadSession id => (loadSession id st w).2
  | OpUpdateSession id updates now => updateSession id updates now st w
  | OpSyncFromTranscript id t now => syncFromTranscript id t now st w
  | OpGetSessions => ((getSessions st w).2, w)
  | OpGetMostRecentSession => ((getMostRecentSession st w).2, w)
  | OpDeleteSession id => (deleteSession id st w).2
  end.

Definition run (ops : list Op) (s : Store * World) : Store * World :=
  foldl step s ops.

(** What a store that is made anew on the same directory would list. *)
Definition afterRestart (st : Store) (w : World) : list SessionMetadata :=
  (getSessions (new (baseDir st) (ownAgentId st)) w).1.

(** The state of a store for the given directory and agent whose list,
    once loaded, is what the sessions file holds or was read from it. *)
Definition persisted (dir agent : str) (s : Store * World) : Prop :=
  baseDir s.1 = dir ∧ ownAgentId s.1 = agent
  ∧ sessionsFilePath s.1 = sessionsFilePath (new dir agent)
  ∧ (loaded s.1 = true →
     Transcript.disk s.2 !! sessionsFilePath s.1
       = Some (JSON_stringify_sessions (sessions s.1))
     ∨ sessions s.1 = stored (Transcript.disk s.2 !! sessionsFilePath s.1)).

(** The time value of a session's [updatedAt]. *)
Definition updatedTime (s : SessionMetadata) : option Z :=
  Date_value (updatedAt s).

End WithPlatform.

End SessionStore.

(** ** The entry arrays as shared objects

    [getEntries] and [getRecentEntries] hand out arrays. Here the arrays and
    the entry records live in a store and are named by references, so that
    what a caller does to an array it was given can be told apart from what
    happens to [this.entries]. *)

Module Heap.

Import Transcript.

Record Store := {
  arrays : gmap positive (list positive);
  objects : gmap positive TranscriptEntry;
}.

(** The fields of a [Transcript] instance; [entriesRef] is the reference
    held in [this.entries]. *)
Record TranscriptObj := {
  entriesRef : positive;
  totalTokens : nat;
  loaded : bool;
}.

(** A new array with the given elements, at a reference not in use. *)
Definition allocArray (xs : list positive) (σ : Store) : positive * Store :=
  let r := fresh (dom (arrays σ)) in
  (r, {| arrays := <[r := xs]> (arrays σ); objects := objects σ |}).

Definition readArray (r : positive) (σ : Store) : list positive :=
  default [] (arrays σ !! r).

(** [this.entries[i].type === 'compaction'] *)
Definition isCompactionAt (σ : Store) (x : positive) : bool :=
  match objects σ !! x with
  | Some e => isCompaction e
  | None => false
  end.

(** [e.tokenCount || 0] *)
Definition tokensAt (σ : Store) (x : positive) : nat :=
  match objects σ !! x with
  | Some e => tokensOf e
  | None => 0
  end.

(** [[...this.entries]] *)
Definition getEntries (o : TranscriptObj) (σ : Store) : positive * Store :=
  allocArray (readArray (entriesRef o) σ) σ.

Fixpoint lastCompactionFrom (σ : Store) (es : list positive) (n : nat)
  : option nat :=
  match n with
  | 0 => None
  | S i =>
      match es !! i with
      | Some x => if isCompactionAt σ x then Some i else lastCompactionFrom σ es i
      | None => lastCompactionFrom σ es i
      end
  end.

(** Either [[...this.entries]] or [this.entries.slice(lastCompactionIndex)]. *)
Definition getRecentEntries (o : TranscriptObj) (σ : Store) : positive * Store :=
  let es := readArray (entriesRef o) σ in
  match lastCompactionFrom σ es (length es) with
  | None => allocArray es σ
  | Some lastCompactionIndex => allocArray (drop lastCompactionIndex es) σ
  end.

Definition getEntryCount (o : TranscriptObj) (σ : Store) : nat :=
  length (readArray (entriesRef o) σ).

Definition getTotalTokens (o : TranscriptObj) : nat := totalTokens o.

(** [getRecentTokens]: the array it gets from [getRecentEntries] is dropped
    after the sum. *)
Definition getRecentTokens (o : TranscriptObj) (σ : Store) : nat :=
  let '(r, σ') := getRecentEntries o σ in
  foldl (λ sum x, sum + tokensAt σ' x) 0 (readArray r σ').

(** [this.entries.push(fullEntry)], as [append] does it. *)
Definition pushEntry (o : TranscriptObj) (e : TranscriptEntry) (σ : Store)
  : Store :=
  let x := fresh (dom (objects σ)) in
  {| arrays := alter (λ es, es ++ [x]) (entriesRef o) (arrays σ);
     objects := <[x := e]> (objects σ) |}.

(** What a caller can do to an array it holds: any change of its elements
    in place ([push], [pop], [reverse], [sort], [splice], [length = 0]),
    given as the function from the old elements to the new ones. *)
Definition mutate (r : positive) (f : list positive → list positive)
    (σ : Store) : Store :=
  {| arrays := alter f r (arrays σ); objects := objects σ |}.

(** The entries an array holds, as values. *)
Definition contents (r : positive) (σ : Store) : list TranscriptEntry :=
  omap (λ x, objects σ !! x) (readArray r σ).

(** Every element of the array is an entry record of the store. *)
Definition allStored (σ : Store) (es : list positive) : Prop :=
  Forall (λ x, is_Some (objects σ !! x)) es.

(** The instance, with the store, as a transcript of the first model. *)
Definition view (path : str) (o : TranscriptObj) (σ : Store)
  : Transcript.Transcript :=
  {| Transcript.filePath := path;
     Transcript.entries := contents (entriesRef o) σ;
     Transcript.totalTokens := totalTokens o;
     Transcript.loaded := loaded o |}.

End Heap.

(** ** Regular expressions, as far as the sources use them *)

Module RegExp.

(** A [RegExp] object. [exec s i] is the end of the leftmost match of the
    pattern in [s] that starts at index [i] or later, if there is one;
    [lastIndex] is the mutable field of the object. *)
Record RegExp := {
  exec : str → nat → option nat;
  global : bool;
  lastIndex : nat;
}.

(** [regex.test(s)] (RegExpBuiltinExec): with the [g] flag the search
    starts at [lastIndex], which a match moves to its end and a failure
    resets to 0; without it the search starts at 0 and [lastIndex] stays. *)
Definition test (r : RegExp) (s : str) : bool * RegExp :=
  if global r then
    if length s <? lastIndex r then
      (false, {| exec := exec r; global := true; lastIndex := 0 |})
    else
      match exec r s (lastIndex r) with
      | Some e => (true, {| exec := exec r; global := true; lastIndex := e |})
      | None => (false, {| exec := exec r; global := true; lastIndex := 0 |})
      end
  else
    (match exec r s 0 with Some _ => true | None => false end, r).

(** [lines.filter((line) => regex.test(line))]: one object, called on each
    line in turn. *)
Fixpoint filterTest (r : RegExp) (lines : list str) : list str * RegExp :=
  match lines with
  | [] => ([], r)
  | line :: rest =>
      let '(found, r1) := test r line in
      let '(kept, r2) := filterTest r1 rest in
      (if found then line :: kept else kept, r2)
  end.

(** *** Patterns without metacharacters, flag [i]

    A pattern made of ASCII letters, digits, spaces and the like denotes
    itself; under [i] both sides are compared after [Canonicalize], which
    on ASCII is upper-casing. *)
Definition canonicalize (c : N) : N :=
  if ((97 <=? c) && (c <=? 122))%N then (c - 32)%N else c.

Fixpoint indexOfFrom (p s : str) (pos i : nat) : option nat :=
  if (i <=? pos) && startsWith p s then Some (pos + length p)
  else match s with
       | [] => None
       | _ :: r => indexOfFrom p r (S pos) i
       end.

Definition literal_i (pattern : str) : str → nat → option nat :=
  λ s i, indexOfFrom (map canonicalize pattern) (map canonicalize s) 0 i.

(** *** The section heading pattern

    [new RegExp(`^##\\s+${escaped}\\s*$`, flags)], where [escaped] is the
    section name with every metacharacter escaped, so that it denotes the
    name itself. [multiline] is the [m] flag. *)
Section SectionPattern.

Variable multiline : bool.
Variable section : str.

(** [$]: at the end of the input, or under [m] before a line terminator. *)
Definition atLineEnd (s : str) : bool :=
  match s with
  | [] => true
  | c :: _ => multiline && isLineTerminator c
  end.

(** [\s*$] matches at the start of [s]. *)
Fixpoint spacesThenEnd (s : str) : bool :=
  atLineEnd s ||
  match s with
  | c :: r => isSpace c && spacesThenEnd r
  | [] => false
  end.

(** [\s+name\s*$] matches at the start of [s]. *)
Fixpoint spacesThenName (s : str) : bool :=
  match s with
  | c :: r =>
      isSpace c &&
      ((startsWith section r && spacesThenEnd (drop (length section) r))
       || spacesThenName r)
  | [] => false
  end.

(** [##\s+name\s*$] matches at the start of [s]. *)
Definition headingHere (s : str) : bool :=
  match s with
  | a :: b :: r => (a =? 35)%N && (b =? 35)%N && spacesThenName r
  | _ => false
  end.

(** The pattern matches somewhere in [s]; [atStart] tells whether [^]
    matches at the start of [s]. *)
Fixpoint testFrom (atStart : bool) (s : str) : bool :=
  (atStart && headingHere s) ||
  match s with
  | c :: r => testFrom (multiline && isLineTerminator c) r
  | [] => false
  end.

(** [sectionPattern.test(s)]; the pattern has no [g] flag. *)
Definition sectionPattern_test (s : str) : bool := testFrom true s.

End SectionPattern.

(** [line.match(/^##\s+/)] *)
Definition nextSection (line : str) : bool :=
  match line with
  | a :: b :: c :: _ => (a =? 35)%N && (b =? 35)%N && isSpace c
  | _ => false
  end.

Definition isDigit (c : N) : bool := ((48 <=? c) && (c <=? 57))%N.

(** [/^\d{4}-\d{2}-\d{2}$/] *)
Definition isDate (s : str) : bool :=
  match s with
  | [y1; y2; y3; y4; d1; m1; m2; d2; a1; a2] =>
      isDigit y1 && isDigit y2 && isDigit y3 && isDigit y4 && (d1 =? 45)%N
      && isDigit m1 && isDigit m2 && (d2 =? 45)%N && isDigit a1 && isDigit a2
  | _ => false
  end.

(** [f.match(/^\d{4}-\d{2}-\d{2}\.md$/)] and [basename(f, '.md')] *)
Definition dateOfFile (f : str) : option str :=
  if isDate (take 10 f) && str_eqb (drop 10 f) (lit ".md")
  then Some (take 10 f) else None.

End RegExp.

(** ** Section documents ([utils/markdown.ts]) *)

Module Markdown.

Definition isHash (c : N) : bool := (c =? 35)%N.

Fixpoint dropHashes (n : nat) (s : str) : str :=
  match n, s with
  | S k, c :: r => if isHash c then dropHashes k r else s
  | _, _ => s
  end.

(** Modelled from the spec: heading detection of [parseSections], which is
    in [utils/markdown.ts] and not among the sources. A heading line is one
    to three [#], then white space, then the title text; the title is that
    text trimmed. *)
Definition headingTitle (line : str) : option str :=
  match line with
  | c :: _ =>
      if isHash c then
        let rest := dropHashes 3 line in
        match rest with
        | d :: _ =>
            if isSpace d && truthy (trim rest) then Some (trim rest) else None
        | [] => None
        end
      else None
  | [] => None
  end.

Definition isHeading (line : str) : bool :=
  match headingTitle line with Some _ => true | None => false end.

Definition hasTitle (title line : str) : bool :=
  match headingTitle line with Some t => str_eqb t title | None => false end.

(** Modelled from the spec: [parseSections] of [utils/markdown.ts], which
    is not among the sources: the ordered list of (title, raw body), a
    repeated heading giving a new entry; lines before the first heading
    form an untitled section. *)
Fixpoint parseFrom (title : str) (body lines : list str)
  : list (str * list str) :=
  match lines with
  | [] => [(title, body)]
  | l :: ls =>
      match headingTitle l with
      | Some t => (title, body) :: parseFrom t [] ls
      | None => parseFrom title (body ++ [l]) ls
      end
  end.

Definition parseLines (lines : list str) : list (str * list str) :=
  match lines with
  | [] => []
  | l :: ls =>
      match headingTitle l with
      | Some t => parseFrom t [] ls
      | None => parseFrom [] [l] ls
      end
  end.

Definition parseSections (content : str) : list (str * list str) :=
  parseLines (split content).

Fixpoint dropBlankStart (ls : list str) : list str :=
  match ls with
  | [] => []
  | l :: r => if isBlank l then dropBlankStart r else ls
  end.

Fixpoint dropBlankEnd (ls : list str) : list str :=
  match ls with
  | [] => []
  | l :: r =>
      match dropBlankEnd r with
      | [] => if isBlank l then [] else [l]
      | r' => l :: r'
      end
  end.

(** Modelled from the spec: the body of a section as it is retrieved,
    without its leading and trailing blank lines. *)
Definition bodyText (body : list str) : str :=
  join (dropBlankStart (dropBlankEnd body)).

(** Modelled from the spec: [sections.get(title)] on what [parseSections]
    returns; the first section with that title, by exact comparison. *)
Fixpoint get (title : str) (sections : list (str * list str)) : option str :=
  match sections with
  | [] => None
  | (t, body) :: rest =>
      if str_eqb t title then Some (bodyText body) else get title rest
  end.

(** The lines up to the next heading, and the lines from it on. *)
Fixpoint spanBody (lines : list str) : list str * list str :=
  match lines with
  | [] => ([], [])
  | l :: ls =>
      if isHeading l then ([], lines)
      else let '(body, rest) := spanBody ls in (l :: body, rest)
  end.

Fixpoint upsertLines (title newLine : str) (lines : list str)
  : option (list str) :=
  match lines with
  | [] => None
  | l :: ls =>
      if hasTitle title l then
        let '(body, rest) := spanBody ls in
        Some (l :: dropBlankEnd body ++ [newLine; []] ++ rest)
      else cons l <$> upsertLines title newLine ls
  end.

(** Modelled from the spec: [appendToSection] of [utils/markdown.ts], which
    is not among the sources. In the first section with the title, the new
    line becomes the last line of the body, the trailing blank lines of the
    body collapsed and one blank line left before what follows; without
    such a section, a [## title] heading and the new line are appended at
    the end of the document, or the text is returned as it is. *)
Definition appendToSection (content title newContent : str)
    (createIfMissing : bool) : str :=
  match upsertLines title newContent (split content) with
  | Some lines => join lines
  | None =>
      if createIfMissing
      then content ++ LF :: lit "## " ++ title ++ LF :: newContent
      else content
  end.

(** The body lines of the first section with the title, if there is one. *)
Fixpoint firstBody (title : str) (lines : list str) : option (list str) :=
  match lines with
  | [] => None
  | l :: ls =>
      if hasTitle title l then Some (spanBody ls).1 else firstBody title ls
  end.

(** A section name that a heading line can carry: not empty, on one line,
    no white space around it. *)
Definition isTitle (s : str) : Prop :=
  LF ∉ s ∧ firstSolid s = true ∧ lastSolid s = true.

End Markdown.

(** ** Long-term memory ([memory/LongTermMemory.ts]) *)

Module LongTermMemory.

Import Markdown.

(** The fields of the class, and the file it owns ([None]: no such file). *)
Record State := {
  filePath : str;
  cache : option str;
  file : option str;
}.

Definition initialContent : str :=
  lit "# Long-Term Memory" ++ [LF; LF] ++
  lit "## Preferences" ++ [LF; LF] ++
  lit "## People" ++ [LF; LF] ++
  lit "## Projects" ++ [LF; LF] ++
  lit "## Facts" ++ [LF; LF].

(** [writeFile] followed by [this.cache = newContent] *)
Definition store (newContent : str) (st : State) : State :=
  {| filePath := filePath st; cache := Some newContent;
     file := Some newContent |}.

Definition init (st : State) : State :=
  match file st with
  | None => store initialContent st
  | Some _ => st
  end.

Definition read (st : State) : str * State :=
  match cache st with
  | Some c => (c, st)
  | None =>
      match file st with
      | Some c =>
          (c, {| filePath := filePath st; cache := Some c; file := file st |})
      | None => let st' := init st in (default [] (cache st'), st')
      end
  end.

Definition getSection (sectionTitle : str) (st : State)
  : option str * State :=
  let '(content, st1) := read st in
  (get sectionTitle (parseSections content), st1).

(** [line.replace(/^\s*[-*+]\s*/, '')] *)
Definition isBulletMark (c : N) : bool :=
  (c =? 45)%N || (c =? 42)%N || (c =? 43)%N.

Definition stripBullet (line : str) : str :=
  match trimStart line with
  | c :: r => if isBulletMark c then trimStart r else line
  | [] => line
  end.

Definition setSectionLines (title content : str) (fileContent : str) : str :=
  let lines := split fileContent in
  let test := RegExp.sectionPattern_test false title in
  match findIndex test lines with
  | None =>
      trimEnd fileContent ++ [LF; LF] ++ lit "## " ++ title ++ [LF]
      ++ content ++ [LF]
  | Some sectionStart =>
      let sectionEnd :=
        match findIndex RegExp.nextSection (drop (S sectionStart) lines) with
        | Some k => S sectionStart + k
        | None => length lines
        end in
      join (take (S sectionStart) lines ++ [content; []]
            ++ drop sectionEnd lines)
  end.

Definition setSection (sectionTitle content : str) (st : State) : State :=
  let '(fileContent, st1) := read st in
  store (setSectionLines sectionTitle content fileContent) st1.

Definition clearCache (st : State) : State :=
  {| filePath := filePath st; cache := None; file := file st |}.

Definition getFilePath (st : State) : str := filePath st.

Section WithPlatform.

(** [String.prototype.toLowerCase] *)
Variable toLowerCase : str → str.
(** The matcher [new RegExp(pattern, 'gi')] compiles [pattern] to. *)
Variable compile_i : str → str → nat → option nat.

(** [fact.trim().toLowerCase()] *)
Definition normalize (fact : str) : str := toLowerCase (trim fact).

(** The callback of [lines.some] in [hasFact]. *)
Definition isFact (normalizedFact line : str) : bool :=
  str_eqb (toLowerCase (trim (stripBullet line))) normalizedFact.

Definition hasFact (section fact : str) (st : State) : bool * State :=
  let '(sectionContent, st1) := getSection section st in
  match sectionContent with
  | None => (false, st1)
  | Some sc =>
      if truthy sc then
        let lines := split sc in
        let normalizedFact := normalize fact in
        (existsb (isFact normalizedFact) lines, st1)
      else (false, st1)
  end.

(** The part of [addFact] and [addFacts] after the duplicate check. *)
Definition appendBullets (section bullets : str) (st : State) : State :=
  let '(content, st1) := read st in
  store (appendToSection content section bullets true) st1.

Definition addFact (section fact : str) (skipDuplicates : bool) (st : State)
  : bool * State :=
  let '(duplicate, st1) :=
    if skipDuplicates then hasFact section fact st else (false, st) in
  if duplicate then (false, st1)
  else (true, appendBullets section (lit "- " ++ fact) st1).

Definition addFacts (section : str) (facts : list str) (st : State) : State :=
  appendBullets section (join (map (λ f, lit "- " ++ f) facts)) st.

Definition search (pattern : str) (st : State) : list str * State :=
  let '(content, st1) := read st in
  let regex :=
    {| RegExp.exec := compile_i pattern; RegExp.global := true;
       RegExp.lastIndex := 0 |} in
  ((RegExp.filterTest regex (split content)).1, st1).

(** *** The calls a client can make on an instance *)

Inductive Op :=
  | OpInit
  | OpRead
  | OpGetSection (sectionTitle : str)
  | OpHasFact (section fact : str)
  | OpAddFact (section fact : str) (skipDuplicates : bool)
  | OpAddFacts (section : str) (facts : list str)
  | OpSetSection (sectionTitle content : str)
  | OpSearch (pattern : str)
  | OpClearCache
  | OpGetFilePath.

(** The instance after the call; what the call returns is left out. *)
Definition step (st : State) (o : Op) : State :=
  match o with
  | OpInit => init st
  | OpRead => (read st).2
  | OpGetSection t => (getSection t st).2
  | OpHasFact s f => (hasFact s f st).2
  | OpAddFact s f skip => (addFact s f skip st).2
  | OpAddFacts s fs => addFacts s fs st
  | OpSetSection t c => setSection t c st
  | OpSearch p => (search p st).2
  | OpClearCache => clearCache st
  | OpGetFilePath => st
  end.

Definition run (ops : list Op) (st : State) : State := foldl step st ops.

(** The bullets of a section body that are the given fact. *)
Definition factLines (fact body : str) : list str :=
  List.filter (isFact (normalize fact)) (split body).

End WithPlatform.

(** The cache, when filled, holds the text of the file. *)
Definition coherent (st : State) : Prop :=
  cache st = None ∨ cache st = file st.

(** What every method keeps: the path, and the cache being coherent. *)
Definition settled (path : str) (st : State) : Prop :=
  filePath st = path ∧ coherent st.

(** What [readFile] would give, the file being created on demand. *)
Definition onDisk (st : State) : str := default initialContent (file st).

(** ASCII lower-casing: what [toLowerCase] does on ASCII text. *)
Definition asciiLower (s : str) : str :=
  map (λ c, if ((65 <=? c) && (c <=? 90))%N then (c + 32)%N else c) s.

End LongTermMemory.

(** ** Daily notes ([memory/DailyNotes.ts]) *)

Module DailyNotes.

(** The directory of the notes: the content of each file, by file name. *)
Abbreviation Directory := (gmap (list N) (list N)).

(** [`${formatDate(date)}.md`]; [dateStr] is [formatDate(date)]. *)
Definition fileName (dateStr : str) : str := dateStr ++ lit ".md".

Definition createInitialContent (dateStr : str) : str :=
  lit "# " ++ dateStr ++ [LF; LF] ++
  lit "## Session Notes" ++ [LF; LF] ++
  lit "## Decisions Made" ++ [LF; LF] ++
  lit "## Ideas" ++ [LF; LF] ++
  lit "## Tasks" ++ [LF; LF].

(** The lines of [createInitialContent]. *)
Definition skeletonLines (dateStr : str) : list str :=
  [lit "# " ++ dateStr; []; lit "## Session Notes"; [];
   lit "## Decisions Made"; []; lit "## Ideas"; []; lit "## Tasks"; []; []].

Definition defaultSections : list str :=
  [lit "Session Notes"; lit "Decisions Made"; lit "Ideas"; lit "Tasks"].

(** [readDate], for the date that [formatDate] prints as [dateStr]. *)
Definition readDate (dateStr : str) (dir : Directory) : str :=
  default [] (dir !! fileName dateStr).

(** [ensureToday]; [today] is [formatDate(new Date())]. *)
Definition ensureToday (today : str) (dir : Directory) : str * Directory :=
  match dir !! fileName today with
  | None =>
      let content := createInitialContent today in
      (content, <[fileName today := content]> dir)
  | Some content => (content, dir)
  end.

(** The loop [while (insertIndex > 0 && lines[insertIndex - 1].trim() === '')]. *)
Fixpoint skipBlankBack (lines : list str) (insertIndex : nat) : nat :=
  match insertIndex with
  | 0 => 0
  | S k =>
      match lines !! k with
      | Some l => if truthy (trim l) then insertIndex else skipBlankBack lines k
      | None => insertIndex
      end
  end.

(** The two nested [for] loops of [addEntry]: where the section ends. *)
Definition findInsertIndex (test : str → bool) (lines : list str) : nat :=
  match findIndex test lines with
  | Some sectionIndex =>
      match findIndex RegExp.nextSection (drop (S sectionIndex) lines) with
      | Some k => S sectionIndex + k
      | None => length lines
      end
  | None => length lines
  end.

(** [lines.splice(insertIndex, 0, entry)] *)
Definition splice (lines : list str) (insertIndex : nat) (entry : str)
  : list str :=
  take insertIndex lines ++ entry :: drop insertIndex lines.

(** The lines after [lines.splice(insertIndex, 0, entry)], with the index
    the loops of [addEntry] arrive at. *)
Definition insertLine (test : str → bool) (lines : list str) (entry : str)
  : list str :=
  let insertIndex := skipBlankBack lines (findInsertIndex test lines) in
  splice lines insertIndex entry.

(** The text [addEntry] computes from the text of today's file. *)
Definition insertEntry (entry section fileContent : str) : str :=
  let test := RegExp.sectionPattern_test true section in
  let fileContent :=
    if test fileContent then fileContent
    else trimEnd fileContent ++ [LF; LF] ++ lit "## " ++ section ++ [LF] in
  let lines := split fileContent in
  join (insertLine test lines entry).

(** [addEntry]; [today] is [formatDate(new Date())] and [timestamp] is
    [formatTime()], both taken as the same during the call. *)
Definition addEntry (content section : str) (today timestamp : str)
    (dir : Directory) : Directory :=
  let '(fileContent, dir1) := ensureToday today dir in
  let entry := lit "- [" ++ timestamp ++ lit "] " ++ content in
  <[fileName today := insertEntry entry section fileContent]> dir1.

Definition addDecision (decision today timestamp : str) :=
  addEntry decision (lit "Decisions Made") today timestamp.
Definition addIdea (idea today timestamp : str) :=
  addEntry idea (lit "Ideas") today timestamp.
Definition addTask (task today timestamp : str) :=
  addEntry task (lit "Tasks") today timestamp.

(** [listDates]: the names [readdir] gives, in whatever order. *)
Definition listDates (dir : Directory) : list str :=
  reverse (sortStrings (omap RegExp.dateOfFile (map fst (map_to_list dir)))).

Section WithPlatform.

(** The matcher [new RegExp(pattern, 'gi')] compiles [pattern] to. *)
Variable compile_i : str → str → nat → option nat.
(** [formatDate(new Date(dateStr))]: the date a listed name is read as. *)
Variable dateOf : str → str.

(** The inner loop of [search]. *)
Fixpoint searchLines (regex : RegExp.RegExp) (dateStr : str)
    (lines : list str) : list (str * str) * RegExp.RegExp :=
  match lines with
  | [] => ([], regex)
  | line :: rest =>
      let '(found, r1) := RegExp.test regex line in
      let '(more, r2) := searchLines r1 dateStr rest in
      (if found then (dateStr, line) :: more else more, r2)
  end.

(** The outer loop of [search]. *)
Fixpoint searchDates (regex : RegExp.RegExp) (dates : list str)
    (dir : Directory) : list (str * str) :=
  match dates with
  | [] => []
  | dateStr :: rest =>
      let content := readDate (dateOf dateStr) dir in
      let '(results, r1) := searchLines regex dateStr (split content) in
      results ++ searchDates r1 rest dir
  end.

Definition search (pattern : str) (dir : Directory) : list (str * str) :=
  let regex :=
    {| RegExp.exec := compile_i pattern; RegExp.global := true;
       RegExp.lastIndex := 0 |} in
  searchDates regex (listDates dir) dir.

End WithPlatform.

End DailyNotes.

(** ** Sample data

    Concrete stand-ins for the platform services and a few documents, for
    the examples that run the definitions. *)

Module Sample.

Import Transcript.

(** A tokenizer that counts code units. *)
Definition countCodeUnits (s : str) : nat := length s.

Definition quoted (s : str) : str := (34%N :: s) ++ [34%N].

Definition showType (t : EntryType) : str :=
  match t with
  | message => lit "message"
  | tool_call => lit "tool_call"
  | tool_result => lit "tool_result"
  | compaction => lit "compaction"
  end.

Definition showRole (r : Role) : str :=
  match r with user => lit "user" | assistant => lit "assistant" end.

Fixpoint digits (fuel n : nat) (acc : str) : str :=
  match fuel with
  | 0 => acc
  | S fuel' =>
      let acc' := (48 + N.of_nat (n mod 10))%N :: acc in
      if n <? 10 then acc' else digits fuel' (n / 10) acc'
  end.

Definition showNat (n : nat) : str := digits (S n) n [].

Definition field (name value : str) : str := quoted name ++ lit ":" ++ value.

(** The record as JSON text, for field values that need no escaping; the
    metadata is left out. *)
Definition stringify (e : TranscriptEntry) : str :=
  lit "{" ++ field (lit "type") (quoted (showType (type e)))
  ++ match role e with
     | Some r => lit "," ++ field (lit "role") (quoted (showRole r))
     | None => []
     end
  ++ lit "," ++ field (lit "content") (quoted (content e))
  ++ lit "," ++ field (lit "parentId")
                  (match parentId e with
                   | Some p => quoted p
                   | None => lit "null"
                   end)
  ++ lit "," ++ field (lit "id") (quoted (id e))
  ++ lit "," ++ field (lit "timestamp") (quoted (timestamp e))
  ++ match tokenCount e with
     | Some n => lit "," ++ field (lit "tokenCount") (showNat n)
     | None => []
     end
  ++ lit "}".

(** A parser that knows the text of the given records and rejects every
    other line. *)
Definition parse (known : list TranscriptEntry) (line : str)
  : option TranscriptEntry :=
  List.find (λ e, str_eqb (stringify e) line) known.

Definition stringifyCall (toolName : str) (input : str) : str :=
  lit "{" ++ field (lit "tool") (quoted toolName) ++ lit ","
  ++ field (lit "input") (quoted input) ++ lit "}".

Definition hello : EntryInput :=
  {| in_type := message; in_role := Some user; in_content := lit "Hello";
     in_parentId := None; in_metadata := None |}.

Definition entry1 : TranscriptEntry :=
  {| id := lit "id-1"; parentId := None;
     timestamp := lit "2026-01-30T09:15:00.000Z"; type := message;
     role := Some user; content := lit "Hello"; tokenCount := Some 5;
     metadata := None |}.

Definition entry2 : TranscriptEntry :=
  {| id := lit "id-2"; parentId := Some (lit "id-1");
     timestamp := lit "2026-01-30T09:15:02.000Z"; type := message;
     role := Some assistant; content := lit "Hi!"; tokenCount := Some 3;
     metadata := None |}.

Definition path : str := lit "sessions/s1.jsonl".

(** A transcript file whose second line is cut short. *)
Definition damagedFile : str :=
  stringify entry1 ++ [LF] ++ lit "{ broken" ++ [LF] ++ stringify entry2
  ++ [LF].

Definition damagedWorld : World :=
  {| disk := {[ path := damagedFile ]}; console := [] |}.

Definition emptyWorld : World := {| disk := ∅; console := [] |}.

(** A parser that knows the text of the given records, [null] and the
    numerals, and rejects every other line. *)
Definition isNumeral (line : str) : bool :=
  truthy line && forallb RegExp.isDigit line.

Definition parseAny (known : list TranscriptEntry) (line : str)
  : option UntypedTranscript.Parsed :=
  match parse known line with
  | Some e => Some (UntypedTranscript.PRecord e)
  | None =>
      if str_eqb line (lit "null") then Some UntypedTranscript.PNull
      else if isNumeral line then Some (UntypedTranscript.POther line)
      else None
  end.

(** A transcript file whose second line holds a number, and one whose
    second line holds [null]. *)
Definition numberFile : str :=
  stringify entry1 ++ [LF] ++ lit "5" ++ [LF] ++ stringify entry2 ++ [LF].

Definition numberWorld : World :=
  {| disk := {[ path := numberFile ]}; console := [] |}.

Definition nullFile : str :=
  stringify entry1 ++ [LF] ++ lit "null" ++ [LF] ++ stringify entry2 ++ [LF].

Definition nullWorld : World :=
  {| disk := {[ path := nullFile ]}; console := [] |}.

(** A long-term memory that has no file yet. *)
Definition freshMemory : LongTermMemory.State :=
  {| LongTermMemory.filePath := lit "MEMORY.md";
     LongTermMemory.cache := None; LongTermMemory.file := None |}.

(** A document in which the title [A] occurs twice. *)
Definition twiceA : list str :=
  [lit "## A"; lit "first"; lit "## B"; lit "x"; lit "## A"; lit "second"].

Definition memoryTwiceA : LongTermMemory.State :=
  {| LongTermMemory.filePath := lit "MEMORY.md";
     LongTermMemory.cache := Some (join twiceA);
     LongTermMemory.file := Some (join twiceA) |}.

(** A memory whose section [People] holds the text of a fact on a line
    that is not a bullet. *)
Definition memoryPlainLine : LongTermMemory.State :=
  {| LongTermMemory.filePath := lit "MEMORY.md";
     LongTermMemory.cache := None;
     LongTermMemory.file :=
       Some (join [lit "## People"; lit "Dog: Max"; []]) |}.

(** A memory with two bullets that both hold [max]. *)
Definition memoryMax : LongTermMemory.State :=
  {| LongTermMemory.filePath := lit "MEMORY.md";
     LongTermMemory.cache := None;
     LongTermMemory.file :=
       Some (join [lit "## People"; lit "- Dog: Max";
                   lit "- max likes walks"; []]) |}.

(** A notes directory with one day, two entries in a row holding [max]. *)
Definition notesMax : gmap (list N) (list N) :=
  {[ lit "2026-01-30.md" :=
       join [lit "# 2026-01-30"; []; lit "## Ideas";
             lit "- [10:30] walk Max"; lit "- [10:31] max likes walks"; []] ]}.

(** A store with an array of two entries held by a transcript instance. *)
Definition store2 : Heap.Store :=
  {| Heap.arrays := {[ 1%positive := [10%positive; 11%positive] ]};
     Heap.objects := {[ 10%positive := entry1; 11%positive := entry2 ]} |}.

Definition instance2 : Heap.TranscriptObj :=
  {| Heap.entriesRef := 1%positive; Heap.totalTokens := 8;
     Heap.loaded := true |}.

End Sample.

(** ** More sample data: a conversation, a notes file, a session store *)

Module Cases.

Import Transcript.

Definition ts1 : str := lit "2026-01-30T09:15:00.000Z".
Definition ts2 : str := lit "2026-01-30T09:15:02.000Z".
Definition ts3 : str := lit "2026-01-30T09:20:00.000Z".

Definition msg1 : Msg :=
  {| m_role := user; m_content := lit "Hello"; m_parent := None;
     m_uuid := lit "id-1"; m_now := ts1 |}.

Definition msg2 : Msg :=
  {| m_role := assistant; m_content := lit "Hi!"; m_parent := None;
     m_uuid := lit "id-2"; m_now := ts2 |}.

(** The two messages, added to a transcript that is initialised first. *)
Definition chat : list (Op str) := OpInit str :: map (msgOp str) [msg1; msg2].

(** The same, followed by a compaction of both. *)
Definition chatCompacted : list (Op str) :=
  chat ++ [OpCompaction str (lit "Greeting") [lit "id-1"; lit "id-2"]
             (lit "id-3") ts3].

(** A transcript that has been loaded and holds nothing. *)
Definition loadedEmpty : Transcript :=
  {| filePath := Sample.path; entries := []; totalTokens := 0;
     loaded := true |}.

(** A transcript that holds the two messages. *)
Definition twoMessages : Transcript :=
  {| filePath := Sample.path; entries := [Sample.entry1; Sample.entry2];
     totalTokens := 8; loaded := true |}.

(** [join] of [node:path] on segments that need no normalising. *)
Fixpoint pathJoin (segments : list str) : str :=
  match segments with
  | [] => []
  | [s] => s
  | s :: rest => s ++ 47%N :: pathJoin rest
  end.

Definition session1 : SessionStore.SessionMetadata :=
  {| SessionStore.sessionId := lit "s1"; SessionStore.agentId := lit "a1";
     SessionStore.createdAt := ts1; SessionStore.updatedAt := ts1;
     SessionStore.totalTokens := 0; SessionStore.entryCount := 0;
     SessionStore.compactionCount := 0 |}.

Definition session2 : SessionStore.SessionMetadata :=
  {| SessionStore.sessionId := lit "s2"; SessionStore.agentId := lit "a1";
     SessionStore.createdAt := ts2; SessionStore.updatedAt := ts2;
     SessionStore.totalTokens := 0; SessionStore.entryCount := 0;
     SessionStore.compactionCount := 0 |}.

Definition showSession (s : SessionStore.SessionMetadata) : str :=
  lit "{" ++ Sample.field (lit "sessionId") (Sample.quoted (SessionStore.sessionId s))
  ++ lit "," ++ Sample.field (lit "agentId") (Sample.quoted (SessionStore.agentId s))
  ++ lit "," ++ Sample.field (lit "createdAt") (Sample.quoted (SessionStore.createdAt s))
  ++ lit "," ++ Sample.field (lit "updatedAt") (Sample.quoted (SessionStore.updatedAt s))
  ++ lit "," ++ Sample.field (lit "totalTokens") (Sample.showNat (SessionStore.totalTokens s))
  ++ lit "," ++ Sample.field (lit "entryCount") (Sample.showNat (SessionStore.entryCount s))
  ++ lit "," ++ Sample.field (lit "compactionCount")
                  (Sample.showNat (SessionStore.compactionCount s))
  ++ lit "}".

(** The sessions file as JSON text, for field values that need no
    escaping. *)
Definition showSessions (l : list SessionStore.SessionMetadata) : str :=
  lit "{" ++ Sample.field (lit "sessions")
               (lit "[" ++ flat_map (λ s, showSession s ++ lit ",") l ++ lit "]")
  ++ lit "}".

(** A parser that knows the text of the given lists and rejects every
    other text. *)
Definition parseSessions (known : list (list SessionStore.SessionMetadata))
    (content : str) : option (list SessionStore.SessionMetadata) :=
  List.find (λ l, str_eqb (showSessions l) content) known.

(** A store that has not been loaded, and a disk with its sessions file. *)
Definition newStore : SessionStore.Store :=
  SessionStore.new pathJoin (lit "base") (lit "a1").

Definition storeWorld : World :=
  {| disk := {[ SessionStore.sessionsFilePath newStore :=
                  showSessions [session1; session2] ]};
     console := [] |}.

(** Calls on the store: a session is created, one is deleted, one is
    brought up to date with its transcript. *)
Definition storeCalls : list SessionStore.Op :=
  [SessionStore.OpCreateSession (lit "s3") ts3;
   SessionStore.OpDeleteSession (lit "s1");
   SessionStore.OpSyncFromTranscript (lit "s2") twoMessages ts3].

(** What the store lists after [storeCalls]. *)
Definition sessionsAfterCalls : list SessionStore.SessionMetadata :=
  [ {| SessionStore.sessionId := lit "s2"; SessionStore.agentId := lit "a1";
       SessionStore.createdAt := ts2; SessionStore.updatedAt := ts3;
       SessionStore.totalTokens := 8; SessionStore.entryCount := 2;
       SessionStore.compactionCount := 0 |};
    {| SessionStore.sessionId := lit "s3"; SessionStore.agentId := lit "a1";
       SessionStore.createdAt := ts3; SessionStore.updatedAt := ts3;
       SessionStore.totalTokens := 0; SessionStore.entryCount := 0;
       SessionStore.compactionCount := 0 |} ].

End Cases.
(** * Properties *)
(** ** Facts about [split], [join] and trimming *)

Section StringFacts.

Lemma split_nonempty s : split s ≠ [].
Proof.
  destruct s as [|c r]; simpl; [done|].
  destruct (c =? LF)%N; [done|]. by destruct (split r).
Qed.

Lemma split_cons_other c r :
  c ≠ LF →
  split (c :: r) =
    match split r with l :: ls => (c :: l) :: ls | [] => [[c]] end.
Proof. intros Hc. simpl. by destruct (N.eqb_spec c LF). Qed.

Lemma split_app_LF a b : split (a ++ LF :: b) = split a ++ split b.
Proof.
  induction a as [|c a IH]; simpl; [done|].
  destruct (c =? LF)%N; simpl; [by rewrite IH|].
  rewrite IH. destruct (split a) as [|l ls] eqn:Ha; [|done].
  by destruct (split_nonempty a).
Qed.

Lemma split_no_LF s : LF ∉ s → split s = [s].
Proof.
  induction s as [|c r IH]; intros Hs; simpl; [done|].
  destruct (N.eqb_spec c LF) as [->|Hc]; [set_solver|].
  rewrite IH; [done|set_solver].
Qed.

Lemma split_lines_no_LF s : Forall (λ l, LF ∉ l) (split s).
Proof.
  induction s as [|c r IH]; simpl.
  - constructor; [set_solver|constructor].
  - destruct (N.eqb_spec c LF) as [->|Hc].
    + constructor; [set_solver|done].
    + destruct (split r) as [|l ls]; [repeat constructor; set_solver|].
      inversion IH; subst. constructor; [set_solver|done].
Qed.

Lemma join_cons l ls : ls ≠ [] → join (l :: ls) = l ++ LF :: join ls.
Proof. by destruct ls. Qed.

Lemma split_join ls :
  ls ≠ [] → Forall (λ l, LF ∉ l) ls → split (join ls) = ls.
Proof.
  induction ls as [|l ls IH]; [done|]. intros _ Hall.
  inversion Hall as [|? ? Hl Hls]; subst.
  destruct ls as [|l' ls'].
  - simpl. by apply split_no_LF.
  - rewrite join_cons by done. rewrite split_app_LF, split_no_LF by done.
    simpl. f_equal. by apply IH.
Qed.

Lemma join_split s : join (split s) = s.
Proof.
  induction s as [|c r IH]; simpl; [done|].
  destruct (N.eqb_spec c LF) as [->|Hc].
  - rewrite join_cons by apply split_nonempty. simpl. by rewrite IH.
  - destruct (split r) as [|l ls] eqn:Hr; [by destruct (split_nonempty r)|].
    destruct ls; simpl in *; by rewrite <- IH.
Qed.

Lemma isBlank_app a b : isBlank (a ++ b) = isBlank a && isBlank b.
Proof. unfold isBlank. by rewrite forallb_app. Qed.

Lemma trimStart_blank s : isBlank s = true → trimStart s = [].
Proof.
  induction s as [|c r IH]; simpl; [done|].
  destruct (isSpace c); simpl; [done|discriminate].
Qed.

Lemma trimStart_nil_blank s : trimStart s = [] → isBlank s = true.
Proof.
  induction s as [|c r IH]; simpl; [done|].
  destruct (isSpace c); simpl; [done|discriminate].
Qed.

Lemma trimEnd_nil_blank s : trimEnd s = [] ↔ isBlank s = true.
Proof.
  induction s as [|c r IH]; simpl; [done|].
  destruct (trimEnd r) eqn:Hr.
  - destruct (isSpace c); simpl; [|split; discriminate].
    split; [intros _|done]. by apply IH.
  - split; [discriminate|]. intros [_ Hr']%andb_prop. apply IH in Hr'. discriminate.
Qed.

Lemma trimStart_app_blank a b : isBlank a = true → trimStart (a ++ b) = trimStart b.
Proof.
  induction a as [|c a IH]; simpl; [done|].
  intros [-> H]%andb_prop. by apply IH.
Qed.

Lemma trimEnd_app_blank a b : isBlank b = true → trimEnd (a ++ b) = trimEnd a.
Proof.
  intros Hb. induction a as [|c a IH]; simpl.
  - by apply trimEnd_nil_blank.
  - by rewrite IH.
Qed.

Lemma trimEnd_app_keep a b : trimEnd b ≠ [] → trimEnd (a ++ b) = a ++ trimEnd b.
Proof.
  intros Hb. induction a as [|c a IH]; simpl; [done|].
  rewrite IH. destruct (a ++ trimEnd b) eqn:E; [|done].
  apply app_eq_nil in E as [_ ?]. done.
Qed.

Lemma trimEnd_last_keep a c : isSpace c = false → trimEnd (a ++ [c]) = a ++ [c].
Proof.
  intros Hc. rewrite trimEnd_app_keep; simpl; by rewrite Hc.
Qed.

Lemma trimStart_cons_keep c s : isSpace c = false → trimStart (c :: s) = c :: s.
Proof. intros Hc. simpl. by rewrite Hc. Qed.

Lemma trim_blank s : isBlank s = true → trim s = [].
Proof. intros H. unfold trim. by rewrite trimStart_blank. Qed.

Lemma trim_nil_blank s : trim s = [] ↔ isBlank s = true.
Proof.
  unfold trim. split; [|apply trim_blank].
  intros H%trimEnd_nil_blank.
  induction s as [|c r IH]; simpl in *; [done|].
  destruct (isSpace c) eqn:Hc; simpl; [by apply IH|].
  simpl in H. by rewrite Hc in H.
Qed.

Lemma firstSolid_app x y : firstSolid x = true → firstSolid (x ++ y) = true.
Proof. by destruct x. Qed.

Lemma trimStart_firstSolid a x :
  firstSolid x = true → trimStart (a ++ x) = trimStart a ++ x.
Proof.
  intros Hx. induction a as [|c a IH]; simpl.
  - destruct x as [|d x]; [done|]. simpl in *.
    by destruct (isSpace d).
  - by destruct (isSpace c).
Qed.

Lemma lastSolid_inv x :
  lastSolid x = true → ∃ x' c, x = x' ++ [c] ∧ isSpace c = false.
Proof.
  unfold lastSolid. destruct (last x) as [c|] eqn:Hl; [|done].
  apply last_Some in Hl as [x' ->]. intros Hc. exists x', c.
  split; [done|]. by destruct (isSpace c).
Qed.

Lemma trimEnd_lastSolid a x : lastSolid x = true → trimEnd (a ++ x) = a ++ x.
Proof.
  intros (x' & c & -> & Hc)%lastSolid_inv.
  rewrite app_assoc. by apply trimEnd_last_keep.
Qed.

Lemma trimStart_suffix s : ∃ p, s = p ++ trimStart s.
Proof.
  induction s as [|c r [p IH]]; simpl; [by exists []|].
  destruct (isSpace c).
  - exists (c :: p). simpl. by rewrite <- IH.
  - by exists [].
Qed.

Lemma trimStart_last s c :
  last s = Some c → trimStart s ≠ [] → ∃ d, trimStart s = d ++ [c].
Proof.
  intros Hl Hne. destruct (trimStart_suffix s) as [p Hp].
  destruct (trimStart s) as [|a r] using rev_ind; [done|]. clear IHr.
  exists r. rewrite Hp in Hl. rewrite app_assoc, last_snoc in Hl.
  by simplify_eq.
Qed.

(** The lines of a file that ends its lines, after one more line has been
    written to it: that line comes last, whole. *)
Lemma split_trim_appended c l :
  c = [] ∨ last c = Some LF →
  LF ∉ l → firstSolid l = true → lastSolid l = true →
  ∃ ls, split (trim (c ++ l ++ [LF])) = ls ++ [l].
Proof.
  intros Hc Hlf Hf Hl.
  assert (Htrim : trim (c ++ l ++ [LF]) = trimStart c ++ l).
  { unfold trim. rewrite trimStart_firstSolid by (by apply firstSolid_app).
    rewrite !app_assoc. rewrite trimEnd_app_blank by done.
    by apply trimEnd_lastSolid. }
  rewrite Htrim.
  destruct (decide (trimStart c = [])) as [->|Hne].
  - exists []. simpl. by apply split_no_LF.
  - destruct Hc as [->|Hc]; [done|].
    destruct (trimStart_last c LF Hc Hne) as [d ->].
    exists (split d). rewrite <- app_assoc. simpl.
    rewrite split_app_LF. f_equal. by apply split_no_LF.
Qed.

Lemma trim_solid l : firstSolid l = true → lastSolid l = true → trim l = l.
Proof.
  intros Hf Hl. unfold trim.
  pose proof (trimStart_firstSolid [] l Hf) as H1. simpl in H1. rewrite H1.
  by apply (trimEnd_lastSolid []).
Qed.

End StringFacts.


(** ** Searching a list *)

Section FindIndexFacts.
Context {A : Type} (P : A → bool).

Lemma findIndex_first pre x post :
  Forall (λ a, P a = false) pre → P x = true →
  findIndex P (pre ++ x :: post) = Some (length pre).
Proof.
  intros Hpre Hx. induction Hpre as [|a pre Ha _ IH]; simpl.
  - by rewrite Hx.
  - by rewrite Ha, IH.
Qed.

Lemma findIndex_none l :
  Forall (λ a, P a = false) l → findIndex P l = None.
Proof. induction 1 as [|a l Ha _ IH]; simpl; [done|]. by rewrite Ha, IH. Qed.

Lemma findIndex_none_inv l :
  findIndex P l = None → Forall (λ a, P a = false) l.
Proof.
  induction l as [|a l IH]; simpl; [constructor|].
  destruct (P a) eqn:Ha; [done|].
  destruct (findIndex P l); [done|]. intros _. constructor; auto.
Qed.

End FindIndexFacts.

(** ** The transcript *)

Section TranscriptProps.
Import Transcript.

Context (countTokens : str → nat).
Context (JSON_parse : str → option TranscriptEntry).
Context (JSON_stringify : TranscriptEntry → str).
Context (Unknown : Type) (JSON_stringify_call : str → Unknown → str).

Local Abbreviation load := (Transcript.load JSON_parse).
Local Abbreviation init := (Transcript.init JSON_parse).
Local Abbreviation reload := (Transcript.reload JSON_parse).
Local Abbreviation append :=
  (Transcript.append countTokens JSON_parse JSON_stringify).
Local Abbreviation addCompaction :=
  (Transcript.addCompaction countTokens JSON_parse JSON_stringify).
Local Abbreviation step :=
  (Transcript.step countTokens JSON_parse JSON_stringify Unknown
     JSON_stringify_call).
Local Abbreviation run :=
  (Transcript.run countTokens JSON_parse JSON_stringify Unknown
     JSON_stringify_call).
Local Abbreviation entriesOfLines := (Transcript.entriesOfLines JSON_parse).
Local Abbreviation rejectedLines := (Transcript.rejectedLines JSON_parse).
Local Abbreviation load_line := (Transcript.load_line JSON_parse).
Local Abbreviation msgOp := (Transcript.msgOp Unknown).
Local Abbreviation tokenSum := (sum_list_with tokensOf).

Lemma foldl_tokens a es :
  foldl (λ sum e, sum + tokensOf e) a es = a + tokenSum es.
Proof.
  revert a. induction es as [|e es IH]; intros a; simpl; [lia|].
  rewrite IH. lia.
Qed.

Lemma tokenSum_app es1 es2 : tokenSum (es1 ++ es2) = tokenSum es1 + tokenSum es2.
Proof. induction es1; simpl; lia. Qed.

(** *** The recent view *)

Lemma lastCompactionFrom_skip pre c post k :
  isCompaction c = true →
  Forall (λ e, isCompaction e = false) post →
  k ≤ length post →
  lastCompactionFrom (pre ++ c :: post) (length pre + 1 + k) = Some (length pre).
Proof.
  intros Hc Hpost. induction k as [|k IH]; intros Hk.
  - replace (length pre + 1 + 0) with (S (length pre)) by lia. simpl.
    rewrite lookup_app_r by lia. rewrite Nat.sub_diag. simpl. by rewrite Hc.
  - replace (length pre + 1 + S k) with (S (length pre + 1 + k)) by lia.
    simpl. rewrite lookup_app_r by lia.
    replace (length pre + 1 + k - length pre) with (S k) by lia. simpl.
    destruct (post !! k) as [e|] eqn:He.
    + rewrite Forall_forall in Hpost.
      rewrite (Hpost e) by (eapply list_elem_of_lookup_2; eauto).
      apply IH. lia.
    + apply lookup_ge_None in He. lia.
Qed.

Lemma lastCompactionFrom_none es n :
  Forall (λ e, isCompaction e = false) es →
  lastCompactionFrom es n = None.
Proof.
  intros Hes. induction n as [|n IH]; simpl; [done|].
  destruct (es !! n) as [e|] eqn:He; [|done].
  rewrite Forall_forall in Hes.
  by rewrite (Hes e) by (eapply list_elem_of_lookup_2; eauto).
Qed.

(** [getRecentEntries] is the suffix that starts at the last compaction
    entry. *)
Lemma getRecentEntries_last_compaction t pre c post :
  entries t = pre ++ c :: post →
  isCompaction c = true →
  Forall (λ e, isCompaction e = false) post →
  getRecentEntries t = c :: post.
Proof.
  intros Ht Hc Hpost. unfold getRecentEntries. rewrite Ht.
  replace (length (pre ++ c :: post)) with (length pre + 1 + length post)
    by (rewrite length_app; simpl; lia).
  rewrite lastCompactionFrom_skip by (done || lia).
  by rewrite drop_app_length.
Qed.

Lemma getRecentEntries_no_compaction t :
  Forall (λ e, isCompaction e = false) (entries t) →
  getRecentEntries t = entries t.
Proof.
  intros H. unfold getRecentEntries. by rewrite lastCompactionFrom_none.
Qed.

(** *** Loading *)

Lemma foldl_load_line es total log lines :
  foldl load_line (es, total, log) lines =
    (es ++ entriesOfLines lines,
     total + tokenSum (entriesOfLines lines),
     log ++ rejectedLines lines).
Proof.
  revert es total log.
  induction lines as [|l ls IH]; intros es total log; simpl.
  - by rewrite !app_nil_r, Nat.add_0_r.
  - unfold Transcript.entriesOfLines, Transcript.rejectedLines in *.
    simpl. destruct (truthy (trim l)); simpl; [|by rewrite IH].
    destruct (JSON_parse l) as [e|]; simpl; rewrite IH.
    + rewrite <- app_assoc. simpl. do 2 f_equal. lia.
    + by rewrite <- app_assoc.
Qed.

Lemma entriesOfLines_app l1 l2 :
  entriesOfLines (l1 ++ l2) = entriesOfLines l1 ++ entriesOfLines l2.
Proof. unfold Transcript.entriesOfLines. by rewrite omap_app. Qed.

(** What [load] computes from the file, when it reads it. *)
Lemma load_file t w content :
  loaded t = false →
  disk w !! filePath t = Some content →
  load t w =
    ({| filePath := filePath t;
        entries := if truthy (trim content)
                   then entriesOfLines (split (trim content)) else [];
        totalTokens := if truthy (trim content)
                       then tokenSum (entriesOfLines (split (trim content)))
                       else 0;
        loaded := true |},
     {| disk := disk w;
        console := if truthy (trim content)
                   then console w ++ rejectedLines (split (trim content))
                   else console w |}).
Proof.
  intros Hl Hf. unfold Transcript.load. rewrite Hl, Hf.
  destruct (truthy (trim content)); [|done].
  by rewrite foldl_load_line.
Qed.


Lemma load_totalsAgree t w : totalsAgree t → totalsAgree (load t w).1.
Proof.
  intros Ht. unfold Transcript.load.
  destruct (loaded t); [done|].
  destruct (disk w !! filePath t) as [content|]; [|done].
  destruct (truthy (trim content)); [|done].
  rewrite foldl_load_line. done.
Qed.

Lemma load_loaded t w : loaded (load t w).1 = true.
Proof.
  unfold Transcript.load. destruct (loaded t) eqn:E; [done|].
  destruct (disk w !! filePath t) as [content|]; [|done].
  by destruct (if truthy (trim content) then _ else _) as [[??]?].
Qed.

Lemma load_idem t w : loaded t = true → load t w = (t, w).
Proof. intros H. unfold Transcript.load. by rewrite H. Qed.

Lemma append_entries e u n t w :
  entries (append e u n t w).2.1 = entries (load t w).1 ++ [(append e u n t w).1].
Proof. unfold Transcript.append. by destruct (load t w). Qed.

Lemma append_total e u n t w :
  totalTokens (append e u n t w).2.1 =
    totalTokens (load t w).1 + countTokens (in_content e).
Proof. unfold Transcript.append. by destruct (load t w). Qed.

Lemma append_loaded e u n t w : loaded (append e u n t w).2.1 = true.
Proof.
  pose proof (load_loaded t w) as H.
  unfold Transcript.append. by destruct (load t w).
Qed.

Lemma append_result e u n t w :
  (append e u n t w).1 =
    {| id := u; parentId := in_parentId e; timestamp := n;
       type := in_type e; role := in_role e; content := in_content e;
       tokenCount := Some (countTokens (in_content e));
       metadata := in_metadata e |}.
Proof. unfold Transcript.append. by destruct (load t w). Qed.

Lemma append_totalsAgree e u n t w :
  totalsAgree t → totalsAgree (append e u n t w).2.1.
Proof.
  intros Ht. unfold totalsAgree.
  rewrite append_total, append_entries, tokenSum_app, append_result. simpl.
  rewrite (load_totalsAgree t w Ht). unfold tokensOf. simpl. lia.
Qed.

Lemma step_totalsAgree s o : totalsAgree s.1 → totalsAgree (step s o).1.
Proof.
  destruct s as [t w]. simpl. intros Ht.
  destruct o; simpl;
    (by apply append_totalsAgree) || (by apply load_totalsAgree).
Qed.

Lemma run_totalsAgree ops s : totalsAgree s.1 → totalsAgree (run ops s).1.
Proof.
  revert s. induction ops as [|o ops IH]; intros s Hs; [done|].
  simpl. apply IH. by apply step_totalsAgree.
Qed.

Lemma step_loaded s o : loaded s.1 = true → loaded (step s o).1 = true.
Proof.
  destruct s as [t w]. simpl. intros Ht.
  destruct o; simpl; apply append_loaded || apply load_loaded.
Qed.

Lemma init_loaded t w : loaded (init t w).1 = true.
Proof. unfold Transcript.init. apply load_loaded. Qed.

Lemma step_msg_total m t w :
  loaded t = true →
  totalTokens (step (t, w) (msgOp m)).1 =
    totalTokens t + countTokens (m_content m).
Proof.
  intros Ht. unfold msgOp.
  destruct (m_role m); simpl;
    unfold Transcript.addUserMessage, Transcript.addAssistantMessage;
    rewrite append_total, load_idem by done; done.
Qed.

Lemma run_msgs_total msgs s :
  loaded s.1 = true →
  totalTokens (run (map msgOp msgs) s).1 =
    totalTokens s.1 + sum_list_with (λ m, countTokens (m_content m)) msgs.
Proof.
  revert s. induction msgs as [|m msgs IH]; intros s Hs; [simpl; lia|].
  change (run (map msgOp (m :: msgs)) s)
    with (run (map msgOp msgs) (step s (msgOp m))).
  rewrite IH by (by apply step_loaded).
  destruct s as [t w]. rewrite step_msg_total by done. simpl. lia.
Qed.

Lemma init_fresh path d c :
  init (new path) {| disk := delete path d; console := c |} =
    ({| filePath := path; entries := []; totalTokens := 0; loaded := true |},
     {| disk := <[path := []]> (delete path d); console := c |}).
Proof.
  unfold Transcript.init. simpl. rewrite lookup_delete_eq.
  unfold Transcript.load. simpl. by rewrite lookup_insert_eq.
Qed.

(** C1. After [addCompaction(summary, ids)], [getRecentEntries()] is the
    suffix of the entry sequence that starts at the new compaction entry:
    it holds that entry and none of the entries appended before it, and
    [getRecentTokens()] is the sum of [tokenCount] over that suffix, here
    the token count of the summary. *)
Theorem addCompaction_recent t w summary ids uuid now :
  let before := getEntries (load t w).1 in
  let r := addCompaction summary ids uuid now t w in
  let e := r.1 in
  let t' := r.2.1 in
  type e = compaction ∧ content e = summary ∧
  getEntries t' = before ++ [e] ∧
  getRecentEntries t' = drop (length before) (getEntries t') ∧
  getRecentEntries t' = [e] ∧
  getRecentTokens t' = tokenSum (getRecentEntries t') ∧
  getRecentTokens t' = countTokens summary.
Proof.
  intros before r e t'. subst before r e t'.
  unfold Transcript.addCompaction, getEntries.
  set (inp := {| in_type := compaction |}).
  pose proof (append_entries inp uuid now t w) as He.
  pose proof (append_result inp uuid now t w) as Hr.
  assert (Hrecent : getRecentEntries (append inp uuid now t w).2.1
                    = [(append inp uuid now t w).1]).
  { eapply getRecentEntries_last_compaction; [exact He| |constructor].
    by rewrite Hr. }
  repeat split.
  - by rewrite Hr.
  - by rewrite Hr.
  - exact He.
  - rewrite Hrecent, He. by rewrite drop_app_length.
  - exact Hrecent.
  - unfold getRecentTokens. by rewrite foldl_tokens.
  - unfold getRecentTokens. rewrite Hrecent, Hr. simpl.
    unfold tokensOf. simpl. lia.
Qed.

(** C3. After N message appends and no other append, [getTotalTokens()]
    has grown by the sum of [countTokens] over the contents of the N
    messages, so that on a new transcript it is that sum; and after any
    calls whatever, compactions included, [getTotalTokens()] is the sum of
    [tokenCount] over every entry of the sequence, the entries before the
    last compaction entry included. *)
Theorem getTotalTokens_sums :
  (∀ t w msgs,
     let s0 := init t w in
     getTotalTokens (run (map msgOp msgs) s0).1 =
       getTotalTokens s0.1 +
       sum_list_with (λ m, countTokens (m_content m)) msgs) ∧
  (∀ path d c msgs,
     let s0 := init (new path) {| disk := delete path d; console := c |} in
     getTotalTokens (run (map msgOp msgs) s0).1 =
       sum_list_with (λ m, countTokens (m_content m)) msgs) ∧
  (∀ path w ops,
     let t' := (run ops (new path, w)).1 in
     getTotalTokens t' = tokenSum (getEntries t') ∧
     getTotalTokens t' =
       tokenSum (take (length (getEntries t') - length (getRecentEntries t'))
                   (getEntries t')) + getRecentTokens t').
Proof.
  split; [|split].
  - intros t w msgs s0. unfold getTotalTokens.
    apply run_msgs_total. apply init_loaded.
  - intros path d c msgs s0. unfold getTotalTokens.
    rewrite run_msgs_total by apply init_loaded.
    subst s0. by rewrite init_fresh.
  - intros path w ops t'.
    assert (Hinv : totalsAgree t').
    { apply run_totalsAgree. done. }
    split; [exact Hinv|].
    unfold getTotalTokens, getRecentTokens. rewrite foldl_tokens. simpl.
    rewrite Hinv, <- tokenSum_app. f_equal. unfold getEntries.
    unfold getRecentEntries.
    destruct (lastCompactionFrom _ _) as [i|].
    + rewrite length_drop.
      destruct (decide (i ≤ length (entries t'))).
      * replace (length (entries t') - (length (entries t') - i)) with i by lia.
        by rewrite take_drop.
      * rewrite (drop_ge _ i) by lia. rewrite app_nil_r.
        rewrite take_ge; [done|lia].
    + rewrite Nat.sub_diag. done.
Qed.

(** *** Writing and reading back *)

Lemma load_disk t w : disk (load t w).2 = disk w.
Proof.
  unfold Transcript.load. destruct (loaded t); [done|].
  destruct (disk w !! filePath t) as [content|]; [|done].
  by destruct (if truthy (trim content) then _ else _) as [[??]?].
Qed.

Lemma load_filePath t w : filePath (load t w).1 = filePath t.
Proof.
  unfold Transcript.load. destruct (loaded t); [done|].
  destruct (disk w !! filePath t) as [content|]; [|done].
  by destruct (if truthy (trim content) then _ else _) as [[??]?].
Qed.

Lemma append_filePath e u n t w : filePath (append e u n t w).2.1 = filePath t.
Proof.
  pose proof (load_filePath t w) as H.
  unfold Transcript.append. by destruct (load t w).
Qed.

Lemma append_disk e u n t w :
  disk (append e u n t w).2.2 =
    <[filePath t :=
        default [] (disk w !! filePath t)
        ++ JSON_stringify (append e u n t w).1 ++ [LF]]> (disk w).
Proof.
  pose proof (load_filePath t w) as Hp. pose proof (load_disk t w) as Hd.
  unfold Transcript.append. destruct (load t w) as [t1 w1]. simpl in *.
  by rewrite Hp, Hd.
Qed.

(** Every call leaves the transcript file ending its lines. *)
Lemma step_endsLines s o :
  endsLines (disk s.2 !! filePath s.1) →
  endsLines (disk (step s o).2 !! filePath (step s o).1).
Proof.
  destruct s as [t w]. simpl. intros H.
  assert (Happ : ∀ e u n,
    endsLines (disk (append e u n t w).2.2 !! filePath (append e u n t w).2.1)).
  { intros e u n. rewrite append_filePath, append_disk, lookup_insert_eq.
    simpl. right. by rewrite !app_assoc, last_snoc. }
  destruct o; simpl; try apply Happ.
  - unfold Transcript.init. rewrite load_filePath, load_disk.
    destruct (disk w !! filePath t) eqn:E; [by rewrite E|].
    simpl. rewrite lookup_insert_eq. by left.
  - by rewrite load_filePath, load_disk.
  - unfold Transcript.reload. by rewrite load_filePath, load_disk.
Qed.

Lemma run_endsLines ops s :
  endsLines (disk s.2 !! filePath s.1) →
  endsLines (disk (run ops s).2 !! filePath (run ops s).1).
Proof.
  revert s. induction ops as [|o ops IH]; intros s Hs; [done|].
  apply (IH (step s o)). by apply step_endsLines.
Qed.

(** C4. An entry that [append] has written is read back by [reload()] as
    the last entry of the transcript, and the entry read back is what
    [JSON.parse] makes of the line [append] wrote: an entry with the id,
    timestamp, kind, role, content and token count of the one [append]
    returned. The transcript file is as the class leaves it (absent, empty,
    or ending with a line feed), and [JSON.stringify] prints the record on
    one line from which [JSON.parse] recovers these fields. *)
Theorem append_reload_roundtrip t w entry uuid now back :
  let r := append entry uuid now t w in
  endsLines (disk w !! filePath t) →
  oneLineRecord (JSON_stringify r.1) →
  JSON_parse (JSON_stringify r.1) = Some back →
  sameRecord r.1 back →
  let t' := (reload r.2.1 r.2.2).1 in
  last (getEntries t') = Some back ∧
  id back = uuid ∧ timestamp back = now ∧ type back = in_type entry ∧
  role back = in_role entry ∧ content back = in_content entry ∧
  tokenCount back = Some (countTokens (in_content entry)).
Proof.
  intros r Hfile (Hlf & Hfirst & Hlast) Hparse Hsame t'.
  split.
  - subst t'. unfold Transcript.reload, getEntries.
    set (l := JSON_stringify r.1) in *.
    set (c := default [] (disk w !! filePath t)).
    assert (Hc : c = [] ∨ last c = Some LF).
    { subst c. destruct (disk w !! filePath t); simpl in *; auto. }
    destruct (split_trim_appended c l Hc Hlf Hfirst Hlast) as [ls Hls].
    erewrite load_file; [|done|]; last first.
    { simpl. subst r. rewrite append_filePath, append_disk.
      apply lookup_insert_eq. }
    simpl. fold r l c. rewrite Hls.
    destruct (trim (c ++ l ++ [LF])) eqn:E.
    { simpl in Hls. destruct ls as [|? [|? ?]]; simplify_eq/=.
      match goal with H : [] = _ |- _ => by rewrite <- H in Hfirst end. }
    simpl. rewrite entriesOfLines_app.
    unfold Transcript.entriesOfLines at 2. simpl.
    rewrite trim_solid by done.
    replace (truthy l) with true by (by destruct l).
    rewrite Hparse. simpl. by rewrite last_snoc.
  - destruct Hsame as (H1 & H2 & H3 & H4 & H5 & H6 & H7).
    subst r. rewrite append_result in *. simpl in *.
    by rewrite <- H1, <- H3, <- H4, <- H5, <- H6, <- H7.
Qed.

End TranscriptProps.

(** ** Loading a file whose lines hold any JSON text *)

Section UntypedProps.
Import UntypedTranscript.

Context (JSON_parse : str → option Parsed).

Local Abbreviation load_line := (UntypedTranscript.load_line JSON_parse).
Local Abbreviation load := (UntypedTranscript.load JSON_parse).
Local Abbreviation valuesOfLines := (UntypedTranscript.valuesOfLines JSON_parse).
Local Abbreviation reportedLines := (UntypedTranscript.reportedLines JSON_parse).
Local Abbreviation asRecord := (UntypedTranscript.asRecord JSON_parse).
Local Abbreviation recordOrRejected :=
  (UntypedTranscript.recordOrRejected JSON_parse).
Local Abbreviation tokenSum := (sum_list_with tokensOf).

Lemma foldl_untyped_line es total log lines :
  foldl load_line (es, total, log) lines =
    (es ++ valuesOfLines lines,
     total + tokenSum (valuesOfLines lines),
     log ++ reportedLines lines).
Proof.
  revert es total log.
  induction lines as [|l ls IH]; intros es total log; simpl.
  - by rewrite !app_nil_r, Nat.add_0_r.
  - unfold UntypedTranscript.valuesOfLines, UntypedTranscript.reportedLines
      in *.
    simpl. destruct (truthy (trim l)); simpl; [|by rewrite IH].
    destruct (JSON_parse l) as [[e| |text]|]; simpl; rewrite IH.
    + rewrite <- app_assoc. simpl. do 2 f_equal. unfold tokensOf. simpl. lia.
    + rewrite <- !app_assoc. simpl. done.
    + rewrite <- app_assoc. simpl. do 2 f_equal. unfold tokensOf. simpl. lia.
    + by rewrite <- app_assoc.
Qed.

Lemma valuesOfLines_app l1 l2 :
  valuesOfLines (l1 ++ l2) = valuesOfLines l1 ++ valuesOfLines l2.
Proof. unfold UntypedTranscript.valuesOfLines. by rewrite omap_app. Qed.

(** What [load] computes from the file, when it reads it. *)
Lemma untyped_load_file t w content :
  loaded t = false →
  Transcript.disk w !! filePath t = Some content →
  load t w =
    ({| filePath := filePath t;
        entries := if truthy (trim content)
                   then valuesOfLines (split (trim content)) else [];
        totalTokens := if truthy (trim content)
                       then tokenSum (valuesOfLines (split (trim content)))
                       else 0;
        loaded := true |},
     {| Transcript.disk := Transcript.disk w;
        Transcript.console :=
          if truthy (trim content)
          then Transcript.console w ++ reportedLines (split (trim content))
          else Transcript.console w |}).
Proof.
  intros Hl Hf. unfold UntypedTranscript.load. rewrite Hl, Hf.
  destruct (truthy (trim content)); [|done].
  by rewrite foldl_untyped_line.
Qed.

(** On lines that hold records or are rejected, the typed loop computes
    what the loop on values computes. *)
Lemma typed_lines lines :
  Forall (λ l, recordOrRejected l = true) lines →
  valuesOfLines lines = map PRecord (Transcript.entriesOfLines asRecord lines)
  ∧ tokenSum (valuesOfLines lines)
    = sum_list_with Transcript.tokensOf
        (Transcript.entriesOfLines asRecord lines)
  ∧ reportedLines lines = Transcript.rejectedLines asRecord lines.
Proof.
  unfold UntypedTranscript.valuesOfLines, UntypedTranscript.reportedLines,
    Transcript.entriesOfLines, Transcript.rejectedLines,
    UntypedTranscript.recordOrRejected, UntypedTranscript.asRecord.
  induction 1 as [|l ls Hl _ (IH1 & IH2 & IH3)]; [done|]. simpl.
  destruct (truthy (trim l)); simpl in *; [|done].
  destruct (JSON_parse l) as [[e| |text]|]; simpl in *; try done.
  - split; [f_equal; exact IH1|]. split; [|exact IH3].
    unfold tokensOf at 1. simpl. f_equal. exact IH2.
  - split; [exact IH1|]. split; [exact IH2|]. f_equal. exact IH3.
Qed.

(** The typed [load] is [load] on values, for a file in which every line
    that [JSON.parse] accepts holds a record. *)
Lemma load_agrees t w :
  (∀ content, Transcript.disk w !! Transcript.filePath t = Some content →
     Forall (λ l, recordOrRejected l = true) (split (trim content))) →
  load (untyped t) w =
    (untyped (Transcript.load asRecord t w).1,
     (Transcript.load asRecord t w).2).
Proof.
  intros Hfile. unfold UntypedTranscript.load, Transcript.load. simpl.
  destruct (Transcript.loaded t); [done|].
  destruct (Transcript.disk w !! Transcript.filePath t) as [content|];
    [|done].
  destruct (truthy (trim content)); [|done].
  rewrite foldl_untyped_line, foldl_load_line.
  destruct (typed_lines _ (Hfile content eq_refl)) as (H1 & H2 & H3).
  rewrite H2, H1, H3. done.
Qed.

(** C8, amended. A line of the transcript file on which [JSON.parse]
    throws is skipped and reported; [load] still completes, and what it
    holds afterwards are the values of the lines before and after the
    failing one, in file order, whatever those lines hold. A line that is
    JSON text without being an entry record is not skipped: its value is
    among the entries, and when it is a number, a string, a boolean or an
    array, the line is not reported. *)
Theorem load_skips_unparsable_line path w content pre bad post :
  Transcript.disk w !! path = Some content →
  split (trim content) = pre ++ bad :: post →
  truthy (trim bad) = true →
  JSON_parse bad = None →
  let r := load (new path) w in
  loaded r.1 = true ∧
  entries r.1 = valuesOfLines pre ++ valuesOfLines post ∧
  (∀ line v, line ∈ pre ++ post → truthy (trim line) = true →
     JSON_parse line = Some v → v ∈ entries r.1) ∧
  totalTokens r.1 = tokenSum (valuesOfLines pre ++ valuesOfLines post) ∧
  Transcript.console r.2 =
    Transcript.console w ++ reportedLines pre ++ bad :: reportedLines post ∧
  Transcript.disk r.2 = Transcript.disk w ∧
  (∀ line text, JSON_parse line = Some (POther text) →
     line ∉ reportedLines pre ++ bad :: reportedLines post).
Proof.
  intros Hf Hsplit Hbad Hparse r. subst r.
  assert (Ht : truthy (trim content) = true).
  { destruct (trim content) eqn:E; [|done].
    simpl in Hsplit. destruct pre as [|? [|? ?]]; simpl in *; simplify_eq. }
  rewrite (untyped_load_file (new path) w content) by done. simpl.
  rewrite Ht, Hsplit.
  assert (He : valuesOfLines (pre ++ bad :: post)
               = valuesOfLines pre ++ valuesOfLines post).
  { rewrite valuesOfLines_app. f_equal.
    unfold UntypedTranscript.valuesOfLines. simpl. by rewrite Hbad, Hparse. }
  assert (Hr : reportedLines (pre ++ bad :: post)
               = reportedLines pre ++ bad :: reportedLines post).
  { unfold UntypedTranscript.reportedLines.
    rewrite List.filter_app. simpl. by rewrite Hbad, Hparse. }
  rewrite He, Hr. repeat split; try done.
  - intros line v Hin Hl Hp. rewrite <- valuesOfLines_app.
    unfold UntypedTranscript.valuesOfLines. apply list_elem_of_omap.
    exists line. split; [done|]. by rewrite Hl.
  - intros line text Hp Hin. rewrite <- Hr in Hin.
    unfold UntypedTranscript.reportedLines in Hin.
    apply list_elem_of_In, List.filter_In in Hin as [_ Hin].
    rewrite Hp in Hin. by rewrite andb_false_r in Hin.
Qed.

End UntypedProps.

(** ** Arrays handed out by the transcript *)

Section HeapProps.
Import Heap.

Implicit Types (σ : Store) (o : TranscriptObj).

Lemma allocArray_fresh xs σ : arrays σ !! (allocArray xs σ).1 = None.
Proof.
  simpl. apply not_elem_of_dom. apply is_fresh.
Qed.

Lemma allocArray_read xs σ :
  readArray (allocArray xs σ).1 (allocArray xs σ).2 = xs.
Proof. unfold readArray. simpl. by rewrite lookup_insert_eq. Qed.

Lemma allocArray_other xs σ r :
  is_Some (arrays σ !! r) →
  r ≠ (allocArray xs σ).1 ∧
  readArray r (allocArray xs σ).2 = readArray r σ.
Proof.
  intros Hr. pose proof (allocArray_fresh xs σ) as Hf.
  assert (r ≠ (allocArray xs σ).1) as Hne.
  { intros ->. rewrite Hf in Hr. by destruct Hr. }
  split; [done|]. unfold readArray. simpl.
  by rewrite lookup_insert_ne.
Qed.

Lemma mutate_other r r' f σ :
  r ≠ r' → readArray r (mutate r' f σ) = readArray r σ.
Proof. intros Hne. unfold readArray, mutate. simpl. by rewrite lookup_alter_ne. Qed.

Lemma lastCompactionFrom_objects σ σ' es n :
  objects σ' = objects σ →
  lastCompactionFrom σ' es n = lastCompactionFrom σ es n.
Proof.
  intros Ho. induction n as [|n IH]; simpl; [done|].
  unfold isCompactionAt. rewrite Ho, IH. done.
Qed.

(** The state as [this] sees it depends on the array [this.entries] names
    and on the entry records only. *)
Lemma getRecentEntries_frame o σ σ' :
  readArray (entriesRef o) σ' = readArray (entriesRef o) σ →
  objects σ' = objects σ →
  readArray (getRecentEntries o σ').1 (getRecentEntries o σ').2 =
    readArray (getRecentEntries o σ).1 (getRecentEntries o σ).2 ∧
  objects (getRecentEntries o σ').2 = objects σ.
Proof.
  intros Ha Ho. unfold getRecentEntries. rewrite Ha.
  rewrite (lastCompactionFrom_objects σ σ') by done.
  destruct (lastCompactionFrom σ _ _); by rewrite !allocArray_read.
Qed.

Lemma getRecentEntries_objects o σ : objects (getRecentEntries o σ).2 = objects σ.
Proof.
  unfold getRecentEntries. by destruct (lastCompactionFrom σ _ _).
Qed.

Lemma getRecentTokens_frame o σ σ' :
  readArray (entriesRef o) σ' = readArray (entriesRef o) σ →
  objects σ' = objects σ →
  getRecentTokens o σ' = getRecentTokens o σ.
Proof.
  intros Ha Ho. unfold getRecentTokens.
  destruct (getRecentEntries_frame o σ σ' Ha Ho) as [H1 H2].
  pose proof (getRecentEntries_objects o σ) as H3.
  destruct (getRecentEntries o σ') as [r' s'], (getRecentEntries o σ) as [r s].
  simpl in *. rewrite H1. unfold tokensAt. by rewrite H2, H3.
Qed.

Lemma getRecentEntries_other o σ :
  is_Some (arrays σ !! entriesRef o) →
  entriesRef o ≠ (getRecentEntries o σ).1 ∧
  readArray (entriesRef o) (getRecentEntries o σ).2 = readArray (entriesRef o) σ.
Proof.
  intros Hr. unfold getRecentEntries.
  destruct (lastCompactionFrom σ _ _); by apply allocArray_other.
Qed.

(** C10. The arrays [getEntries()] and [getRecentEntries()] return are new
    ones: whatever the caller does to the elements of the returned array
    (push, pop, reorder, any change in place), the array [this.entries]
    names, the entry count and the token totals stay as they were, and the
    next call returns the same entries as this one did. *)
Theorem returned_arrays_are_copies o σ (f : list positive → list positive) :
  is_Some (arrays σ !! entriesRef o) →
  (let r := (getEntries o σ).1 in
   let σ1 := (getEntries o σ).2 in
   let σ2 := mutate r f σ1 in
   r ≠ entriesRef o ∧
   readArray r σ1 = readArray (entriesRef o) σ ∧
   readArray (entriesRef o) σ2 = readArray (entriesRef o) σ ∧
   objects σ2 = objects σ ∧
   getEntryCount o σ2 = getEntryCount o σ ∧
   getTotalTokens o = totalTokens o ∧
   getRecentTokens o σ2 = getRecentTokens o σ ∧
   readArray (getEntries o σ2).1 (getEntries o σ2).2 = readArray r σ1) ∧
  (let r := (getRecentEntries o σ).1 in
   let σ1 := (getRecentEntries o σ).2 in
   let σ2 := mutate r f σ1 in
   r ≠ entriesRef o ∧
   readArray (entriesRef o) σ2 = readArray (entriesRef o) σ ∧
   objects σ2 = objects σ ∧
   getEntryCount o σ2 = getEntryCount o σ ∧
   getTotalTokens o = totalTokens o ∧
   getRecentTokens o σ2 = getRecentTokens o σ ∧
   readArray (getRecentEntries o σ2).1 (getRecentEntries o σ2).2 =
     readArray r σ1).
Proof.
  intros Hr. split.
  - intros r σ1 σ2. subst r σ1 σ2. unfold getEntries.
    destruct (allocArray_other (readArray (entriesRef o) σ) σ _ Hr) as [Hne Hsame].
    assert (Hkeep : readArray (entriesRef o)
              (mutate (allocArray (readArray (entriesRef o) σ) σ).1 f
                 (allocArray (readArray (entriesRef o) σ) σ).2)
            = readArray (entriesRef o) σ).
    { by rewrite mutate_other. }
    repeat split; try done.
    + by rewrite allocArray_read.
    + unfold getEntryCount. by rewrite Hkeep.
    + by apply getRecentTokens_frame.
    + by rewrite !allocArray_read, Hkeep.
  - intros r σ1 σ2. subst r σ1 σ2.
    destruct (getRecentEntries_other o σ Hr) as [Hne Hsame].
    pose proof (getRecentEntries_objects o σ) as Hobj.
    assert (Hkeep : readArray (entriesRef o)
              (mutate (getRecentEntries o σ).1 f (getRecentEntries o σ).2)
            = readArray (entriesRef o) σ).
    { by rewrite mutate_other. }
    repeat split; try done.
    + unfold getEntryCount. by rewrite Hkeep.
    + by apply getRecentTokens_frame.
    + by apply getRecentEntries_frame.
Qed.

(** *** The store model and the list model agree *)

Lemma contents_lookup σ es i :
  allStored σ es →
  omap (λ x, objects σ !! x) es !! i = es !! i ≫= (λ x, objects σ !! x).
Proof.
  intros H. revert i. induction H as [|x es [e He] _ IH]; intros i; [done|].
  cbn. rewrite He. destruct i as [|i]; cbn; [done|]. apply IH.
Qed.

Lemma contents_drop σ es i :
  allStored σ es →
  omap (λ x, objects σ !! x) (drop i es) =
    drop i (omap (λ x, objects σ !! x) es).
Proof.
  intros H. revert i. induction H as [|x es [e He] _ IH]; intros i.
  - rewrite drop_nil. cbn. by rewrite drop_nil.
  - destruct i as [|i]; [done|]. cbn. rewrite He. cbn. apply IH.
Qed.

Lemma contents_length σ es :
  allStored σ es → length (omap (λ x, objects σ !! x) es) = length es.
Proof.
  induction 1 as [|x es [e He] _ IH]; [done|]. cbn. rewrite He. cbn.
  by rewrite IH.
Qed.

Lemma lastCompactionFrom_view σ es n :
  allStored σ es →
  lastCompactionFrom σ es n =
    Transcript.lastCompactionFrom (omap (λ x, objects σ !! x) es) n.
Proof.
  intros H. induction n as [|n IH]; [done|]. simpl.
  rewrite contents_lookup by done.
  destruct (es !! n) as [x|] eqn:Hx; simpl; [|done].
  unfold isCompactionAt. unfold allStored in H.
  rewrite Forall_forall in H.
  destruct (H x) as [e He]; [by eapply list_elem_of_lookup_2|].
  rewrite He. by rewrite IH.
Qed.

(** The entries in the arrays the two getters return are the lists the
    getters of the list model return. *)
Lemma getters_view path o σ :
  allStored σ (readArray (entriesRef o) σ) →
  contents (getEntries o σ).1 (getEntries o σ).2 =
    Transcript.getEntries (view path o σ) ∧
  contents (getRecentEntries o σ).1 (getRecentEntries o σ).2 =
    Transcript.getRecentEntries (view path o σ).
Proof.
  intros H. split.
  - unfold contents, getEntries. by rewrite allocArray_read.
  - unfold contents, Transcript.getRecentEntries, getRecentEntries. simpl.
    unfold contents. rewrite contents_length by done.
    rewrite <- lastCompactionFrom_view by done.
    destruct (lastCompactionFrom σ _ _) as [i|];
      rewrite allocArray_read; simpl; [|done].
    by apply contents_drop.
Qed.

End HeapProps.

(** ** The section heading pattern *)

Section SectionPatternProps.
Import RegExp.

Variable S : str.

Local Abbreviation spacesThenEnd := (RegExp.spacesThenEnd true).
Local Abbreviation spacesThenName := (RegExp.spacesThenName true S).
Local Abbreviation headingHere := (RegExp.headingHere true S).
Local Abbreviation testFrom := (RegExp.testFrom true S).
Local Abbreviation test := (RegExp.sectionPattern_test true S).

Lemma startsWith_self p y : startsWith p (p ++ y) = true.
Proof. induction p as [|a p IH]; simpl; [done|]. by rewrite N.eqb_refl. Qed.

Lemma startsWith_prefix p s : startsWith p s = true → ∃ y, s = p ++ y.
Proof.
  revert s. induction p as [|a p IH]; intros s; simpl; [by exists s|].
  destruct s as [|b s]; [done|].
  intros [Hab Hp]%andb_prop. apply N.eqb_eq in Hab as ->.
  destruct (IH s Hp) as [y ->]. by exists y.
Qed.

Lemma prefix_before_LF (p y title rest : list N) :
  p ++ y = title ++ LF :: rest → LF ∉ p → ∃ q, title = p ++ q.
Proof.
  revert title. induction p as [|a p IH]; intros title H Hp; [by exists title|].
  destruct title as [|t title]; simpl in H; simplify_eq.
  - set_solver.
  - destruct (IH title) as [q ->]; [done|set_solver|]. by exists q.
Qed.

Lemma prefix_of_whole (p y title : list N) :
  p ++ y = title → ∃ q, title = p ++ q.
Proof. intros <-. by exists y. Qed.

Lemma lastSolid_cons c q : q ≠ [] → lastSolid (c :: q) = lastSolid q.
Proof. unfold lastSolid. by destruct q. Qed.

Lemma lastSolid_app x y : lastSolid y = true → lastSolid (x ++ y) = true.
Proof.
  intros (y' & c & -> & Hc)%lastSolid_inv. unfold lastSolid.
  by rewrite app_assoc, last_snoc, Hc.
Qed.

Lemma lastSolid_suffix p q : q ≠ [] → lastSolid (p ++ q) = lastSolid q.
Proof.
  intros Hq. unfold lastSolid. destruct q as [|a q] using rev_ind; [done|].
  by rewrite app_assoc, !last_snoc.
Qed.

(** After text that does not end where a line ends, [\s*$] fails. *)
Lemma spacesThenEnd_solid q rest :
  q ≠ [] → lastSolid q = true →
  Forall (λ c, isLineTerminator c = false) q →
  spacesThenEnd (q ++ rest) = false.
Proof.
  intros Hq Hl Hlt. induction Hlt as [|c q Hc Hlt IH]; [done|].
  simpl. rewrite Hc. simpl.
  destruct q as [|d q].
  - unfold lastSolid in Hl. simpl in Hl. by destruct (isSpace c).
  - rewrite IH; [by rewrite andb_false_r|done|by rewrite lastSolid_cons in Hl].
Qed.

Lemma spacesThenName_solid s : firstSolid s = true → spacesThenName s = false.
Proof. destruct s as [|c r]; [done|]. simpl. by destruct (isSpace c). Qed.

Lemma spacesThenEnd_at_end rest :
  rest = [] ∨ (∃ r, rest = LF :: r) → spacesThenEnd rest = true.
Proof. by intros [->|[r ->]]. Qed.

(** On a heading line of the document, the pattern matches exactly when
    the line carries the name. *)
Lemma headingHere_title title rest :
  LF ∉ S →
  firstSolid title = true → lastSolid title = true →
  Forall (λ c, isLineTerminator c = false) title →
  rest = [] ∨ (∃ r, rest = LF :: r) →
  headingHere (lit "## " ++ title ++ rest) = bool_decide (S = title).
Proof.
  intros HS Hf Hl Hlt Hrest.
  change (lit "## " ++ title ++ rest) with (35%N :: 35%N :: 32%N :: title ++ rest).
  unfold RegExp.headingHere. cbn [N.eqb Pos.eqb andb].
  cbn [RegExp.spacesThenName]. change (isSpace 32) with true. cbn [andb].
  rewrite (spacesThenName_solid (title ++ rest)) by (by apply firstSolid_app).
  rewrite orb_false_r.
  destruct (decide (S = title)) as [->|Hne].
  - rewrite bool_decide_eq_true_2 by done.
    rewrite startsWith_self, drop_app_length. simpl.
    by apply spacesThenEnd_at_end.
  - rewrite bool_decide_eq_false_2 by done.
    destruct (startsWith S (title ++ rest)) eqn:Hs; [|done]. simpl.
    apply startsWith_prefix in Hs as [y Hy].
    assert (∃ q, title = S ++ q) as [q ->].
    { destruct Hrest as [->|[r ->]].
      - rewrite app_nil_r in Hy. by eapply prefix_of_whole.
      - by eapply prefix_before_LF. }
    assert (q ≠ []) by (intros ->; by rewrite app_nil_r in Hne).
    rewrite <- app_assoc, drop_app_length.
    apply spacesThenEnd_solid; [done| |].
    + by rewrite lastSolid_suffix in Hl.
    + by apply Forall_app in Hlt as [_ ?].
Qed.

(** The line [## S] matches the pattern for S. *)
Lemma headingHere_own : headingHere (lit "## " ++ S) = true.
Proof.
  change (lit "## " ++ S) with (35%N :: 35%N :: 32%N :: S).
  unfold RegExp.headingHere. cbn [N.eqb Pos.eqb andb].
  cbn [RegExp.spacesThenName]. change (isSpace 32) with true. cbn [andb].
  pose proof (startsWith_self S []) as Hs. rewrite app_nil_r in Hs.
  rewrite Hs, drop_all. done.
Qed.

Lemma testFrom_here b s : b = true → headingHere s = true → testFrom b s = true.
Proof. intros -> H. destruct s; simpl in *; by rewrite H. Qed.

Lemma testFrom_false_no_LT x :
  Forall (λ c, isLineTerminator c = false) x → testFrom false x = false.
Proof. induction 1 as [|c x Hc _ IH]; simpl; [done|]. by rewrite Hc. Qed.

Lemma testFrom_line x y b :
  Forall (λ c, isLineTerminator c = false) x →
  testFrom b (x ++ LF :: y) =
    (b && headingHere (x ++ LF :: y)) || testFrom true y.
Proof.
  intros Hx. revert b. induction Hx as [|c x Hc _ IH]; intros b.
  - simpl. done.
  - cbn [app]. cbn [RegExp.testFrom]. rewrite Hc, IH. simpl. done.
Qed.

Lemma testFrom_last_line x b :
  Forall (λ c, isLineTerminator c = false) x →
  testFrom b x = b && headingHere x.
Proof.
  intros Hx. destruct Hx as [|c x Hc Hx]; [by destruct b|].
  cbn [RegExp.testFrom]. rewrite Hc. simpl.
  rewrite testFrom_false_no_LT by done. by rewrite orb_false_r.
Qed.

(** On a text whose lines hold no line terminator, the pattern matches
    where it matches at the start of a line. *)
Lemma test_join lines :
  Forall (Forall (λ c, isLineTerminator c = false)) lines →
  test (join lines) =
    existsb headingHere (map join (tails lines)).
Proof.
  unfold RegExp.sectionPattern_test.
  induction 1 as [|l ls Hl Hls IH]; [done|].
  destruct ls as [|l' ls].
  - simpl. rewrite testFrom_last_line by done. simpl. by rewrite orb_false_r.
  - rewrite join_cons by done. rewrite testFrom_line by done.
    rewrite IH. cbn [tails map existsb]. rewrite (join_cons l) by done.
    done.
Qed.

End SectionPatternProps.

(** ** Section documents *)

Section MarkdownProps.
Import Markdown.

Lemma trimStart_idem s : trimStart (trimStart s) = trimStart s.
Proof.
  induction s as [|c r IH]; simpl; [done|].
  destruct (isSpace c) eqn:Hc; [done|]. simpl. by rewrite Hc.
Qed.

Lemma firstSolid_truthy s : firstSolid s = true → truthy s = true.
Proof. by destruct s. Qed.

Lemma join_nil_inv ls : join ls = [] → ls = [] ∨ ls = [[]].
Proof.
  destruct ls as [|l [|l' ls]]; simpl; auto.
  - intros ->. auto.
  - intros H. apply app_eq_nil in H as [_ H]. done.
Qed.

Lemma headingTitle_nil : headingTitle [] = None.
Proof. done. Qed.

Lemma isHeading_blank l : isBlank l = true → isHeading l = false.
Proof.
  destruct l as [|c r]; [done|]. simpl. intros [Hc _]%andb_prop.
  unfold isHeading, headingTitle, isHash.
  destruct (N.eqb_spec c 35) as [->|]; [done|done].
Qed.

(** A title, put after [## ], is a heading with that title. *)
Lemma headingTitle_make S :
  isTitle S → headingTitle (lit "## " ++ S) = Some S.
Proof.
  intros (_ & Hf & Hl).
  change (lit "## " ++ S) with (35%N :: 35%N :: 32%N :: S).
  unfold headingTitle. simpl.
  assert (Ht : trim (32%N :: S) = S).
  { unfold trim. simpl. fold (trim S). by apply trim_solid. }
  rewrite Ht, (firstSolid_truthy S Hf). done.
Qed.

Lemma spanBody_app X r :
  Forall (λ l, isHeading l = false) X →
  (r = [] ∨ ∃ h r', r = h :: r' ∧ isHeading h = true) →
  spanBody (X ++ r) = (X, r).
Proof.
  intros HX Hr. induction HX as [|l X Hl _ IH]; simpl.
  - destruct Hr as [->|(h & r' & -> & Hh)]; [done|]. simpl. by rewrite Hh.
  - by rewrite Hl, IH.
Qed.

Lemma spanBody_spec ls :
  ls = (spanBody ls).1 ++ (spanBody ls).2 ∧
  Forall (λ l, isHeading l = false) (spanBody ls).1 ∧
  ((spanBody ls).2 = [] ∨
   ∃ h r', (spanBody ls).2 = h :: r' ∧ isHeading h = true).
Proof.
  induction ls as [|l ls (IH1 & IH2 & IH3)]; simpl.
  - auto.
  - destruct (isHeading l) eqn:Hl; simpl.
    + split; [done|]. split; [constructor|]. right. eauto.
    + destruct (spanBody ls) as [b r]; simpl in *.
      split; [by rewrite IH1 at 1|]. split; [by constructor|done].
Qed.

Lemma dropBlankEnd_prefix ls :
  ∃ t, ls = dropBlankEnd ls ++ t ∧ Forall (λ l, isBlank l = true) t.
Proof.
  induction ls as [|l ls (t & IH & Ht)]; simpl; [by exists []|].
  destruct (dropBlankEnd ls) as [|l' r] eqn:E.
  - destruct (isBlank l) eqn:Hl.
    + exists (l :: ls). split; [done|]. simpl in IH. subst t. by constructor.
    + exists ls. split; [done|]. simpl in IH. by subst t.
  - exists t. split; [|done]. simpl. by rewrite IH at 1.
Qed.

Lemma dropBlankEnd_Forall (P : list N → Prop) ls :
  Forall P ls → Forall P (dropBlankEnd ls).
Proof.
  intros H. destruct (dropBlankEnd_prefix ls) as (t & Ht & _).
  rewrite Ht in H. by apply Forall_app in H as [? _].
Qed.

Lemma dropBlankStart_Forall (P : list N → Prop) ls :
  Forall P ls → Forall P (dropBlankStart ls).
Proof.
  induction 1 as [|l ls Hl H IH]; simpl; [done|].
  destruct (isBlank l); [done|by constructor].
Qed.

Lemma dropBlankEnd_snoc X nl :
  isBlank nl = false → dropBlankEnd (X ++ [nl; []]) = X ++ [nl].
Proof.
  intros Hnl. induction X as [|l X IH]; simpl.
  - by rewrite Hnl.
  - rewrite IH. by destruct X.
Qed.

Lemma dropBlankStart_snoc X nl :
  isBlank nl = false → dropBlankStart (X ++ [nl]) = dropBlankStart X ++ [nl].
Proof.
  intros Hnl. induction X as [|l X IH]; simpl.
  - by rewrite Hnl.
  - by destruct (isBlank l).
Qed.

Lemma dropBlankStart_head ls l r :
  dropBlankStart ls = l :: r → isBlank l = false.
Proof.
  induction ls as [|x ls IH]; simpl; [done|].
  destruct (isBlank x) eqn:Hx; [done|]. intros ?; by simplify_eq.
Qed.

(** What the body of a section reads as once a line has been put at its
    end. *)
Lemma bodyText_upsert body nl :
  isBlank nl = false →
  bodyText (dropBlankEnd body ++ [nl; []]) =
    join (dropBlankStart (dropBlankEnd body) ++ [nl]).
Proof.
  intros Hnl. unfold bodyText.
  by rewrite dropBlankEnd_snoc, dropBlankStart_snoc.
Qed.

Lemma get_parseFrom S lines : ∀ t b,
  get S (parseFrom t b lines) =
    if str_eqb t S then Some (bodyText (b ++ (spanBody lines).1))
    else bodyText <$> firstBody S lines.
Proof.
  induction lines as [|l ls IH]; intros t b; simpl.
  - rewrite app_nil_r. by destruct (str_eqb t S).
  - unfold isHeading, hasTitle. destruct (headingTitle l) as [t'|] eqn:Hl; simpl.
    + rewrite app_nil_r, IH. simpl.
      by destruct (str_eqb t S), (str_eqb t' S).
    + rewrite IH. destruct (spanBody ls) as [bd r]. simpl.
      by rewrite <- app_assoc.
Qed.

(** Looking a title up in the parsed sections is reading the body under
    the first heading with that title. *)
Lemma get_parseLines S lines :
  S ≠ [] → get S (parseLines lines) = bodyText <$> firstBody S lines.
Proof.
  intros HS. destruct lines as [|l ls]; [done|]. simpl.
  unfold hasTitle. destruct (headingTitle l) as [t|] eqn:Hl.
  - rewrite get_parseFrom. simpl. by destruct (str_eqb t S).
  - rewrite get_parseFrom. unfold str_eqb.
    rewrite bool_decide_eq_false_2 by done. done.
Qed.

Lemma firstBody_app_skip S pre ls :
  Forall (λ l, hasTitle S l = false) pre →
  firstBody S (pre ++ ls) = firstBody S ls.
Proof.
  induction 1 as [|l pre Hl _ IH]; simpl; [done|]. by rewrite Hl.
Qed.

Lemma firstBody_None S ls :
  firstBody S ls = None → Forall (λ l, hasTitle S l = false) ls.
Proof.
  induction ls as [|l ls IH]; simpl; [constructor|].
  destruct (hasTitle S l) eqn:Hl; [done|]. constructor; auto.
Qed.

Lemma hasTitle_isHeading S l : hasTitle S l = true → isHeading l = true.
Proof. unfold hasTitle, isHeading. by destruct (headingTitle l). Qed.

Lemma firstBody_split S pre h body rest :
  Forall (λ l, hasTitle S l = false) pre →
  hasTitle S h = true →
  Forall (λ l, isHeading l = false) body →
  (rest = [] ∨ ∃ h' r, rest = h' :: r ∧ isHeading h' = true) →
  firstBody S (pre ++ h :: body ++ rest) = Some body.
Proof.
  intros Hpre Hh Hbody Hrest. rewrite firstBody_app_skip by done.
  simpl. rewrite Hh. by rewrite spanBody_app.
Qed.

Lemma upsertLines_None S nl ls :
  firstBody S ls = None → upsertLines S nl ls = None.
Proof.
  induction ls as [|l ls IH]; simpl; [done|].
  destruct (hasTitle S l); [done|]. intros H. by rewrite IH.
Qed.

Lemma upsertLines_Some S nl ls body :
  firstBody S ls = Some body →
  isHeading nl = false →
  ∃ ls', upsertLines S nl ls = Some ls' ∧
         firstBody S ls' = Some (dropBlankEnd body ++ [nl; []]) ∧
         (Forall (λ l, LF ∉ l) ls → LF ∉ nl → Forall (λ l, LF ∉ l) ls').
Proof.
  intros Hb Hnl. induction ls as [|l ls IH]; simpl in *; [done|].
  destruct (hasTitle S l) eqn:Hl.
  - simplify_eq. destruct (spanBody_spec ls) as (Hls & Hbd & Hr).
    destruct (spanBody ls) as [bd r]. simpl in *.
    eexists. split; [done|]. split.
    + simpl. rewrite Hl.
      rewrite (app_assoc _ [nl; []] r). rewrite spanBody_app; [done| |done].
      apply Forall_app. split; [by apply dropBlankEnd_Forall|].
      repeat constructor; done.
    + intros Hall Hnl'. inversion Hall as [|? ? H1 H2]. clear Hall.
      constructor; [done|]. rewrite Hls in H2.
      apply Forall_app in H2 as [H2 H3].
      apply Forall_app. split; [by apply dropBlankEnd_Forall|].
      constructor; [done|]. constructor; [set_solver|done].
  - destruct (IH Hb) as (ls' & -> & H2 & H3).
    eexists. split; [done|]. split.
    + simpl. by rewrite Hl.
    + intros Hall Hnl'. inversion Hall; subst. constructor; auto.
Qed.

End MarkdownProps.

(** ** More on the transcript *)

Section TranscriptMore.
Import Transcript.

Context (countTokens : str → nat).
Context (JSON_parse : str → option TranscriptEntry).
Context (JSON_stringify : TranscriptEntry → str).
Context (Unknown : Type) (JSON_stringify_call : str → Unknown → str).

Local Abbreviation load := (Transcript.load JSON_parse).
Local Abbreviation init := (Transcript.init JSON_parse).
Local Abbreviation reload := (Transcript.reload JSON_parse).
Local Abbreviation append :=
  (Transcript.append countTokens JSON_parse JSON_stringify).
Local Abbreviation step :=
  (Transcript.step countTokens JSON_parse JSON_stringify Unknown
     JSON_stringify_call).
Local Abbreviation run :=
  (Transcript.run countTokens JSON_parse JSON_stringify Unknown
     JSON_stringify_call).
Local Abbreviation entriesOfLines := (Transcript.entriesOfLines JSON_parse).
Local Abbreviation msgOp := (Transcript.msgOp Unknown).
Local Abbreviation serialize := (Transcript.serialize JSON_stringify).
Local Abbreviation roundTrips :=
  (Transcript.roundTrips JSON_parse JSON_stringify).
Local Abbreviation written := (Transcript.written JSON_stringify).
Local Abbreviation tokenSum := (sum_list_with tokensOf).

(** What the backward loop of [getRecentEntries] finds. *)
Lemma lastCompactionFrom_spec es n :
  match lastCompactionFrom es n with
  | Some i =>
      i < n ∧ (∃ c, es !! i = Some c ∧ isCompaction c = true) ∧
      ∀ j e, i < j → j < n → es !! j = Some e → isCompaction e = false
  | None => ∀ j e, j < n → es !! j = Some e → isCompaction e = false
  end.
Proof.
  induction n as [|n IH]; simpl.
  - intros j e Hj. lia.
  - destruct (es !! n) as [e|] eqn:He.
    + destruct (isCompaction e) eqn:Hc.
      * split; [lia|]. split; [by exists e|]. intros j e' H1 H2. lia.
      * destruct (lastCompactionFrom es n) as [i|].
        -- destruct IH as (Hi & Hc' & Hlater). split; [lia|]. split; [done|].
           intros j e' H1 H2 Hj. destruct (decide (j = n)) as [->|].
           ++ by simplify_eq.
           ++ apply (Hlater j); [done|lia|done].
        -- intros j e' Hj He'. destruct (decide (j = n)) as [->|].
           ++ by simplify_eq.
           ++ apply (IH j); [lia|done].
    + destruct (lastCompactionFrom es n) as [i|].
      * destruct IH as (Hi & Hc' & Hlater). split; [lia|]. split; [done|].
        intros j e' H1 H2 Hj. destruct (decide (j = n)) as [->|].
        -- by simplify_eq.
        -- apply (Hlater j); [done|lia|done].
      * intros j e' Hj He'. destruct (decide (j = n)) as [->|].
        -- by simplify_eq.
        -- apply (IH j); [lia|done].
Qed.

Lemma Forall_lookup_bound {A} (P : A → Prop) (l : list A) :
  (∀ j e, j < length l → l !! j = Some e → P e) → Forall P l.
Proof.
  intros H. apply Forall_lookup. intros j e He. apply (H j); [|done].
  by eapply lookup_lt_Some.
Qed.

(** The recent view, in every state: a suffix of the entries that holds no
    compaction entry after its first element, and that starts with a
    compaction entry whenever something is left out before it. *)
Lemma recent_view t :
  ∃ archived,
    entries t = archived ++ getRecentEntries t ∧
    Forall (λ e, isCompaction e = false) (tail (getRecentEntries t)) ∧
    (archived = [] ∨
     ∃ c rest, getRecentEntries t = c :: rest ∧ isCompaction c = true) ∧
    (Forall (λ e, isCompaction e = false) (entries t) →
     getRecentEntries t = entries t).
Proof.
  unfold getRecentEntries.
  pose proof (lastCompactionFrom_spec (entries t) (length (entries t))) as H.
  destruct (lastCompactionFrom (entries t) (length (entries t))) as [i|].
  - destruct H as (Hi & (c & Hc & Hcc) & Hlater).
    exists (take i (entries t)). split; [by rewrite take_drop|].
    rewrite (drop_S _ c i) by done. simpl. split; [|split].
    + apply Forall_lookup. intros j e He. rewrite lookup_drop in He.
      apply (Hlater (S i + j)); [lia| |done].
      apply lookup_lt_Some in He. lia.
    + right. by exists c, (drop (S i) (entries t)).
    + intros Hnone. rewrite Forall_lookup in Hnone.
      specialize (Hnone i c Hc). congruence.
  - exists []. split; [done|]. split; [|split; [by left|done]].
    assert (Hall : Forall (λ e, isCompaction e = false) (entries t))
      by by apply Forall_lookup_bound.
    destruct (entries t); [done|]. by inversion Hall.
Qed.

(** X1. [getRecentEntries()] is a suffix of the entries; after its first
    element it holds no compaction entry; when it leaves entries out, its
    first element is a compaction entry; and without any compaction entry
    it is the whole sequence. *)
Theorem getRecentEntries_suffix t :
  ∃ archived,
    getEntries t = archived ++ getRecentEntries t ∧
    Forall (λ e, type e ≠ compaction) (tail (getRecentEntries t)) ∧
    (archived = [] ∨
     ∃ c rest, getRecentEntries t = c :: rest ∧ type c = compaction) ∧
    (Forall (λ e, type e ≠ compaction) (getEntries t) →
     getRecentEntries t = getEntries t).
Proof.
  destruct (recent_view t) as (archived & H1 & H2 & H3 & H4).
  assert (Hc : ∀ e, isCompaction e = false ↔ type e ≠ compaction).
  { intros e. unfold isCompaction. by destruct (type e). }
  assert (Hc' : ∀ e, isCompaction e = true ↔ type e = compaction).
  { intros e. unfold isCompaction. by destruct (type e). }
  exists archived. split; [done|]. split; [|split].
  - eapply Forall_impl; [exact H2|]. intros e. apply Hc.
  - destruct H3 as [->|(c & rest & Hr & Hcc)]; [by left|].
    right. exists c, rest. split; [done|]. by apply Hc'.
  - intros Hall. apply H4. eapply Forall_impl; [exact Hall|].
    intros e. apply Hc.
Qed.

Lemma historyMessage_plain e :
  isCompaction e = false → historyMessage e = plainMessage e.
Proof.
  unfold isCompaction, historyMessage, plainMessage.
  destruct (type e); try done.
Qed.

(** X2. The history built for the language model holds at most one summary
    message, and only in first place: it is the summary of the compaction
    entry that heads the recent view, if one does, followed by the messages
    of the recent view that have a role, each with its role and content, in
    order; tool calls and tool results contribute nothing. *)
Theorem buildConversationHistory_shape t :
  buildConversationHistory t =
    match getRecentEntries t with
    | [] => []
    | e :: rest =>
        match type e with
        | compaction => summaryMessage e :: omap plainMessage rest
        | _ => omap plainMessage (e :: rest)
        end
    end.
Proof.
  unfold buildConversationHistory.
  destruct (recent_view t) as (_ & _ & Htail & _ & _).
  destruct (getRecentEntries t) as [|e rest]; [done|]. simpl in Htail.
  assert (Hrest : omap historyMessage rest = omap plainMessage rest).
  { induction Htail as [|x l Hx _ IH]; [done|]. cbn.
    by rewrite historyMessage_plain, IH. }
  cbn. rewrite Hrest. unfold historyMessage, plainMessage.
  by destruct (type e), (role e).
Qed.

(** *** Parent links *)

Lemma getLastEntryId_snoc t es e :
  entries t = es ++ [e] → getLastEntryId t = Some (id e).
Proof.
  intros H. unfold getLastEntryId. rewrite H.
  destruct (es ++ [e]) eqn:E; [by destruct es|]. rewrite <- E.
  rewrite length_app. simpl.
  replace (length es + 1 - 1) with (length es) by lia.
  by rewrite list_lookup_middle.
Qed.

Lemma step_msg_entry m t w :
  loaded t = true → m_parent m = None →
  ∃ e, entries (step (t, w) (msgOp m)).1 = entries t ++ [e] ∧
       loaded (step (t, w) (msgOp m)).1 = true ∧
       parentId e = getLastEntryId t ∧ id e = m_uuid m ∧
       content e = m_content m ∧ role e = Some (m_role m) ∧
       type e = message.
Proof.
  intros Ht Hp. unfold Transcript.msgOp.
  destruct (m_role m) eqn:Hr; simpl;
    unfold Transcript.addUserMessage, Transcript.addAssistantMessage;
    eexists; (split; [rewrite append_entries, load_idem by done; done|]);
    (split; [apply append_loaded|]);
    rewrite append_result; simpl; rewrite Hp; simpl; done.
Qed.

(** X3. Messages added to a loaded transcript without an explicit parent
    form a chain: the first names the entry that was last before it (none
    on an empty transcript), each later one names the message added just
    before it; ids and contents are those given, in order. *)
Theorem messages_are_chained t w msgs :
  loaded t = true →
  Forall (λ m, m_parent m = None) msgs →
  let t' := (run (map msgOp msgs) (t, w)).1 in
  ∃ news,
    getEntries t' = getEntries t ++ news ∧
    map id news = map m_uuid msgs ∧
    map content news = map m_content msgs ∧
    Forall (λ e, type e = message) news ∧
    linked (getLastEntryId t) news.
Proof.
  intros Ht Hall. revert t w Ht.
  induction Hall as [|m msgs Hm _ IH]; intros t w Ht t'.
  - exists []. unfold getEntries. subst t'. simpl.
    by rewrite app_nil_r.
  - subst t'.
    change (run (map msgOp (m :: msgs)) (t, w))
      with (run (map msgOp msgs) (step (t, w) (msgOp m))).
    destruct (step_msg_entry m t w Ht Hm)
      as (e & He & Hl & Hp & Hi & Hc & _ & Hty).
    destruct (step (t, w) (msgOp m)) as [t1 w1] eqn:Hs. simpl in He, Hl.
    destruct (IH t1 w1 Hl) as (news & H1 & H2 & H3 & H4 & H5).
    exists (e :: news). unfold getEntries in *.
    split; [rewrite H1, He, <- app_assoc; done|].
    split; [simpl; by rewrite Hi, H2|].
    split; [simpl; by rewrite Hc, H3|].
    split; [by constructor|].
    simpl. split; [done|]. by rewrite <- (getLastEntryId_snoc t1 (entries t) e).
Qed.

(** *** The file as the class writes it *)

Lemma serialize_snoc es e :
  serialize (es ++ [e]) = serialize es ++ JSON_stringify e ++ [LF].
Proof.
  unfold Transcript.serialize. rewrite flat_map_app. simpl.
  by rewrite app_nil_r.
Qed.

Lemma load_written path t w :
  written path (t, w) →
  load t w =
    ({| filePath := filePath t; entries := entries t;
        totalTokens := totalTokens t; loaded := true |}, w).
Proof.
  intros (Hp & Htot & Hunl & Hfile). simpl in *.
  unfold Transcript.load. destruct (loaded t) eqn:Hl.
  - by destruct t; simpl in *; subst.
  - specialize (Hunl eq_refl). unfold totalsAgree in Htot.
    rewrite Hunl in *. simpl in Htot. rewrite Htot, Hp.
    destruct (disk w !! path) as [c|]; [|done].
    subst c. simpl. by destruct w.
Qed.

Lemma append_written path e u n t w :
  written path (t, w) → written path (append e u n t w).2.
Proof.
  intros Hw. pose proof Hw as (Hp & Htot & Hunl & Hfile). simpl in *.
  unfold Transcript.append. rewrite (load_written path) by done.
  unfold Transcript.written. simpl.
  split; [done|]. split; [|split].
  - unfold totalsAgree in *. simpl. rewrite tokenSum_app. simpl.
    unfold tokensOf at 2. simpl. lia.
  - done.
  - rewrite Hp, lookup_insert_eq, serialize_snoc. f_equal.
    destruct (disk w !! path) as [c|]; simpl; [done|]. by rewrite Hfile.
Qed.

Lemma written_loaded path t w :
  written path (t, w) →
  written path ({| filePath := filePath t; entries := entries t;
                   totalTokens := totalTokens t; loaded := true |}, w).
Proof. intros (Hp & Htot & Hunl & Hfile). by repeat split. Qed.

Lemma written_created path t w :
  written path (t, w) → disk w !! path = None →
  written path (t, {| disk := <[path := []]> (disk w);
                      console := console w |}).
Proof.
  intros (Hp & Htot & Hunl & Hfile) E. simpl in *. rewrite E in Hfile.
  unfold Transcript.written. simpl. rewrite lookup_insert_eq, Hfile.
  by repeat split.
Qed.

Lemma init_written path t w :
  written path (t, w) →
  init t w =
    ({| filePath := filePath t; entries := entries t;
        totalTokens := totalTokens t; loaded := true |},
     match disk w !! path with
     | Some _ => w
     | None => {| disk := <[path := []]> (disk w); console := console w |}
     end) ∧
  written path (init t w).
Proof.
  intros Hw. pose proof Hw as (Hp & _). simpl in Hp.
  unfold Transcript.init. rewrite Hp.
  destruct (disk w !! path) as [c|] eqn:E.
  - rewrite (load_written path t w Hw). split; [by rewrite Hp|].
    by apply written_loaded.
  - rewrite (load_written path _ _ (written_created path t w Hw E)).
    split; [by rewrite Hp|]. by apply written_loaded, written_created.
Qed.

Lemma step_written path s o :
  isReloadOp Unknown o = false → written path s → written path (step s o).
Proof.
  intros Ho Hw. destruct s as [t w].
  destruct o; try done; simpl; try (by apply append_written).
  - by apply init_written.
  - rewrite (load_written path) by done. by apply written_loaded.
Qed.

Lemma run_written path ops s :
  Forall (λ o, isReloadOp Unknown o = false) ops →
  written path s → written path (run ops s).
Proof.
  intros Hops. revert s. induction Hops as [|o ops Ho _ IH]; intros s Hs.
  - done.
  - apply (IH (step s o)). by apply step_written.
Qed.

Lemma new_written path w :
  disk w !! path = None → written path (new path, w).
Proof. intros H. repeat split; simpl; try done. by rewrite H. Qed.

Lemma step_entries path s o :
  isReloadOp Unknown o = false → written path s →
  ∃ added, entries (step s o).1 = entries s.1 ++ added ∧
           length added = (if isAppendOp Unknown o then 1 else 0) ∧
           Forall (λ e, isCompaction e = isCompactionOp Unknown o) added.
Proof.
  intros Ho Hw. destruct s as [t w].
  assert (Happ : ∀ e u n,
    ∃ added, entries (append e u n t w).2.1 = entries t ++ added ∧
             length added = 1 ∧
             Forall (λ x, type x = in_type e) added).
  { intros e u n. eexists. rewrite append_entries, (load_written path) by done.
    split; [done|]. split; [done|]. constructor; [|done].
    by rewrite append_result. }
  destruct o; try done; simpl.
  - exists []. destruct (init_written path t w Hw) as [-> _].
    by rewrite app_nil_r.
  - exists []. rewrite (load_written path) by done. by rewrite app_nil_r.
  - destruct (Happ {| in_type := message; in_role := Some user;
                      in_content := c;
                      in_parentId := orElse parent (getLastEntryId t);
                      in_metadata := None |} uuid now)
      as (added & H1 & H2 & H3).
    exists added. split; [done|]. split; [done|].
    eapply Forall_impl; [exact H3|]. intros x Hx. unfold isCompaction.
    by rewrite Hx.
  - destruct (Happ {| in_type := message; in_role := Some assistant;
                      in_content := c;
                      in_parentId := orElse parent (getLastEntryId t);
                      in_metadata := None |} uuid now)
      as (added & H1 & H2 & H3).
    exists added. split; [done|]. split; [done|].
    eapply Forall_impl; [exact H3|]. intros x Hx. unfold isCompaction.
    by rewrite Hx.
  - destruct (Happ {| in_type := tool_call; in_role := None;
                      in_content := JSON_stringify_call toolName input;
                      in_parentId := orElse parent (getLastEntryId t);
                      in_metadata := Some [(lit "toolName", MString toolName)] |}
                uuid now)
      as (added & H1 & H2 & H3).
    exists added. split; [done|]. split; [done|].
    eapply Forall_impl; [exact H3|]. intros x Hx. unfold isCompaction.
    by rewrite Hx.
  - destruct (Happ {| in_type := tool_result; in_role := None;
                      in_content := result; in_parentId := Some parent;
                      in_metadata := None |} uuid now)
      as (added & H1 & H2 & H3).
    exists added. split; [done|]. split; [done|].
    eapply Forall_impl; [exact H3|]. intros x Hx. unfold isCompaction.
    by rewrite Hx.
  - destruct (Happ {| in_type := compaction; in_role := None;
                      in_content := summary; in_parentId := None;
                      in_metadata :=
                        Some [(lit "removedEntryIds", MStrings removedEntryIds);
                              (lit "removedCount",
                               MNumber (length removedEntryIds))] |} uuid now)
      as (added & H1 & H2 & H3).
    exists added. split; [done|]. split; [done|].
    eapply Forall_impl; [exact H3|]. intros x Hx. unfold isCompaction.
    by rewrite Hx.
Qed.

Lemma filter_compaction_all (es : list TranscriptEntry) b :
  Forall (λ e, isCompaction e = b) es →
  length (filter (λ e, isCompaction e = true) es) =
    if b then length es else 0.
Proof.
  induction 1 as [|e es He _ IH]; [by destruct b|].
  rewrite filter_cons. destruct b.
  - rewrite decide_True by done. simpl. by rewrite IH.
  - rewrite decide_False by congruence. done.
Qed.

(** X5. On a transcript that starts without a file and is never reloaded,
    [getEntryCount()] is the number of calls that appended an entry and
    [getCompactionCount()] the number of [addCompaction] calls; [init] and
    [load] add nothing. *)
Theorem counts_follow_calls path w ops :
  disk w !! path = None →
  Forall (λ o, isReloadOp Unknown o = false) ops →
  let t' := (run ops (new path, w)).1 in
  getEntryCount t' = length (List.filter (isAppendOp Unknown) ops) ∧
  getCompactionCount t' =
    length (List.filter (isCompactionOp Unknown) ops).
Proof.
  intros Hfile Hops t'. subst t'.
  assert (Hgen : ∀ s, written path s →
    getEntryCount (run ops s).1 =
      getEntryCount s.1 + length (List.filter (isAppendOp Unknown) ops) ∧
    getCompactionCount (run ops s).1 =
      getCompactionCount s.1 +
      length (List.filter (isCompactionOp Unknown) ops)).
  { induction Hops as [|o ops Ho _ IH]; intros s Hs.
    - simpl. lia.
    - change (run (o :: ops) s) with (run ops (step s o)).
      destruct (IH (step s o) (step_written path s o Ho Hs)) as [H1 H2].
      destruct (step_entries path s o Ho Hs) as (added & Ha & Hlen & Hc).
      rewrite H1, H2. unfold getEntryCount, getCompactionCount.
      rewrite Ha, filter_app, !length_app.
      rewrite (filter_compaction_all added _ Hc), Hlen. simpl.
      destruct o; simpl; lia. }
  destruct (Hgen (new path, w) (new_written path w Hfile)) as [H1 H2].
  by rewrite H1, H2.
Qed.

Lemma serialize_join es :
  es ≠ [] → serialize es = join (map JSON_stringify es) ++ [LF].
Proof.
  induction es as [|e es IH]; [done|]. intros _.
  destruct es as [|e' es].
  - unfold Transcript.serialize. simpl. by rewrite app_nil_r.
  - change (serialize (e :: e' :: es))
      with ((JSON_stringify e ++ [LF]) ++ serialize (e' :: es)).
    rewrite IH by done.
    change (map JSON_stringify (e :: e' :: es))
      with (JSON_stringify e :: map JSON_stringify (e' :: es)).
    rewrite join_cons by done. by rewrite <- !app_assoc.
Qed.

Lemma entriesOfLines_roundTrips es :
  Forall roundTrips es → entriesOfLines (map JSON_stringify es) = es.
Proof.
  induction 1 as [|e es [(Hlf & Hf & Hl) Hp] _ IH]; [done|].
  unfold Transcript.entriesOfLines in *. cbn.
  rewrite trim_solid by done.
  replace (truthy (JSON_stringify e)) with true
    by (by destruct (JSON_stringify e)).
  by rewrite Hp, IH.
Qed.

Lemma join_lastSolid (ls : list (list N)) :
  ls ≠ [] → Forall (λ l, lastSolid l = true) ls → lastSolid (join ls) = true.
Proof.
  induction ls as [|l ls IH]; [done|]. intros _ Hall.
  inversion Hall as [|? ? Hl Hls]; subst.
  destruct ls as [|l' ls]; [done|]. rewrite join_cons by done.
  rewrite cons_middle, app_assoc. apply lastSolid_app. by apply IH.
Qed.

Lemma split_trim_serialize es :
  es ≠ [] → Forall roundTrips es →
  trim (serialize es) = join (map JSON_stringify es) ∧
  split (trim (serialize es)) = map JSON_stringify es.
Proof.
  intros Hne Hall.
  assert (Htrim : trim (serialize es) = join (map JSON_stringify es)).
  { rewrite serialize_join by done. unfold trim.
    assert (Hfirst : firstSolid (join (map JSON_stringify es)) = true).
    { destruct Hall as [|e es' [(_ & Hf & _) _] _]; [done|].
      destruct es'; simpl; [done|]. by apply firstSolid_app. }
    pose proof (trimStart_firstSolid [] (join (map JSON_stringify es) ++ [LF])
                  (firstSolid_app _ _ Hfirst)) as H1.
    simpl in H1. rewrite H1. rewrite trimEnd_app_blank by done.
    apply (trimEnd_lastSolid []). apply join_lastSolid; [by destruct es|].
    apply Forall_fmap. eapply Forall_impl; [exact Hall|].
    by intros e [(_ & _ & Hl) _]. }
  split; [done|]. rewrite Htrim. apply split_join; [by destruct es|].
  apply Forall_fmap. eapply Forall_impl; [exact Hall|].
  by intros e [(Hlf & _ & _) _].
Qed.

(** X4. A transcript that starts without a file and is only appended to
    can be read back whole: when [JSON.parse] gives back each of its
    entries from the line [JSON.stringify] prints for it, [reload()] yields
    the same entries in the same order and the same token total, and
    leaves the file as it is. *)
Theorem reload_restores_transcript path w ops :
  disk w !! path = None →
  Forall (λ o, isReloadOp Unknown o = false) ops →
  let s := run ops (new path, w) in
  Forall roundTrips (getEntries s.1) →
  getEntries (reload s.1 s.2).1 = getEntries s.1 ∧
  getTotalTokens (reload s.1 s.2).1 = getTotalTokens s.1 ∧
  disk (reload s.1 s.2).2 = disk s.2.
Proof.
  intros Hfile Hops s Hrt.
  pose proof (run_written path ops (new path, w) Hops
                (new_written path w Hfile)) as (Hp & Htot & _ & Hdisk).
  fold s in Hp, Htot, Hdisk. unfold getEntries, getTotalTokens in *.
  unfold Transcript.reload.
  destruct (disk s.2 !! path) as [c|] eqn:E.
  - rewrite (load_file JSON_parse _ s.2 c) by (simpl; by rewrite ?Hp).
    simpl. subst c.
    destruct (entries s.1) as [|e es] eqn:Hes.
    + by rewrite Htot, Hes.
    + destruct (split_trim_serialize (e :: es)) as [H1 H2]; [done|done|].
      rewrite H2, H1.
      replace (truthy (join (map JSON_stringify (e :: es)))) with true.
      * rewrite entriesOfLines_roundTrips by done.
        split; [done|]. split; [|done]. by rewrite Htot, Hes.
      * try rewrite Hes in Hrt.
        apply Forall_cons in Hrt as [[(_ & Hf & _) _] _].
        symmetry. apply firstSolid_truthy.
        destruct es; simpl; [done|]. by apply firstSolid_app.
  - unfold Transcript.load. simpl. rewrite Hp, E. simpl.
    rewrite Hdisk. split; [done|]. split; [|done].
    by rewrite Htot, Hdisk.
Qed.

(** X6. The transcript file is an append-only log: whatever the calls,
    the text that was in the file stays at its start, no other file
    changes, and a file that exists keeps existing. *)
Theorem transcript_file_only_grows t w ops :
  let s' := run ops (t, w) in
  filePath s'.1 = filePath t ∧
  (∀ p, p ≠ filePath t → disk s'.2 !! p = disk w !! p) ∧
  (∃ added,
     default [] (disk s'.2 !! filePath t) =
       default [] (disk w !! filePath t) ++ added) ∧
  (is_Some (disk w !! filePath t) → is_Some (disk s'.2 !! filePath t)).
Proof.
  assert (Hstep : ∀ s o,
    filePath (step s o).1 = filePath s.1 ∧
    (∀ p, p ≠ filePath s.1 → disk (step s o).2 !! p = disk s.2 !! p) ∧
    (∃ added,
       default [] (disk (step s o).2 !! filePath s.1) =
         default [] (disk s.2 !! filePath s.1) ++ added) ∧
    (is_Some (disk s.2 !! filePath s.1) →
     is_Some (disk (step s o).2 !! filePath s.1))).
  { intros [t0 w0] o. simpl.
    assert (Hload : ∀ t1 w1,
      filePath (load t1 w1).1 = filePath t1 ∧ disk (load t1 w1).2 = disk w1).
    { intros t1 w1. split; [apply load_filePath|apply load_disk]. }
    assert (Happ : ∀ e u n,
      filePath (append e u n t0 w0).2.1 = filePath t0 ∧
      (∀ p, p ≠ filePath t0 →
            disk (append e u n t0 w0).2.2 !! p = disk w0 !! p) ∧
      (∃ added,
         default [] (disk (append e u n t0 w0).2.2 !! filePath t0) =
           default [] (disk w0 !! filePath t0) ++ added) ∧
      (is_Some (disk w0 !! filePath t0) →
       is_Some (disk (append e u n t0 w0).2.2 !! filePath t0))).
    { intros e u n. rewrite append_filePath, append_disk.
      split; [done|]. split; [intros p Hp; by rewrite lookup_insert_ne|].
      rewrite lookup_insert_eq. simpl. split; [by eexists|]. eauto. }
    destruct o; simpl; try apply Happ.
    - unfold Transcript.init. destruct (Hload t0
        match disk w0 !! filePath t0 with
        | Some _ => w0
        | None => {| disk := <[filePath t0:=[]]> (disk w0);
                     console := console w0 |}
        end) as [-> ->].
      split; [done|]. destruct (disk w0 !! filePath t0) as [c|] eqn:E.
      + rewrite E. split; [done|]. split; [|eauto].
        exists []. by rewrite app_nil_r.
      + simpl. split; [intros p Hp; by rewrite lookup_insert_ne|].
        rewrite lookup_insert_eq. simpl. split; [by exists []|eauto].
    - destruct (Hload t0 w0) as [-> ->]. split; [done|]. split; [done|].
      split; [|done]. exists []. by rewrite app_nil_r.
    - unfold Transcript.reload.
      destruct (Hload {| filePath := filePath t0; entries := [];
                         totalTokens := 0; loaded := false |} w0) as [-> ->].
      simpl. split; [done|]. split; [done|].
      split; [|done]. exists []. by rewrite app_nil_r. }
  revert t w. induction ops as [|o ops IH]; intros t w s'.
  - subst s'. simpl. split; [done|]. split; [done|].
    split; [|done]. exists []. by rewrite app_nil_r.
  - subst s'. change (run (o :: ops) (t, w)) with (run ops (step (t, w) o)).
    destruct (Hstep (t, w) o) as (H1 & H2 & (a1 & H3) & H4).
    destruct (step (t, w) o) as [t1 w1]. cbn [fst snd] in *.
    destruct (IH t1 w1) as (I1 & I2 & (a2 & I3) & I4).
    cbn [fst snd] in *. rewrite H1 in I1, I2, I3, I4.
    split; [done|]. split; [intros p Hp; by rewrite I2, H2|].
    split; [exists (a1 ++ a2); by rewrite I3, H3, app_assoc|]. auto.
Qed.

End TranscriptMore.

(** ** Token counts *)

Section TokensProps.
Import Tokens.

Context {Token : Type} (encode : str → list Token).

Local Abbreviation countTokens := (Tokens.countTokens Token encode).
Local Abbreviation countTokensMultiple := (Tokens.countTokensMultiple Token encode).

Lemma foldl_count (f : str → nat) a texts :
  foldl (λ sum text, sum + f text) a texts = a + sum_list_with f texts.
Proof.
  revert a. induction texts as [|x texts IH]; intros a; simpl; [lia|].
  rewrite IH. lia.
Qed.

Lemma countTokensMultiple_sum texts :
  countTokensMultiple texts = sum_list_with countTokens texts.
Proof. unfold Tokens.countTokensMultiple. by rewrite foldl_count. Qed.

(** X19. [countTokensMultiple] adds up: the count of two lists of texts
    put together is the sum of their counts, the order of the texts does
    not matter, and a transcript to which messages are appended grows its
    [getTotalTokens()] by [countTokensMultiple] of their contents. *)
Theorem countTokensMultiple_adds_up :
  (∀ a b,
     countTokensMultiple (a ++ b)
     = countTokensMultiple a + countTokensMultiple b)
  ∧ (∀ a b, a ≡ₚ b → countTokensMultiple a = countTokensMultiple b)
  ∧ (∀ JSON_parse JSON_stringify Unknown JSON_stringify_call t w
       (msgs : list Transcript.Msg),
       let run :=
         Transcript.run countTokens JSON_parse JSON_stringify Unknown
           JSON_stringify_call in
       let s0 := Transcript.init JSON_parse t w in
       Transcript.getTotalTokens
         (run (map (Transcript.msgOp Unknown) msgs) s0).1
       = Transcript.getTotalTokens s0.1
         + countTokensMultiple (map Transcript.m_content msgs)).
Proof.
  split; [|split].
  - intros a b. by rewrite !countTokensMultiple_sum, sum_list_with_app.
  - intros a b Hab. rewrite !countTokensMultiple_sum. by rewrite Hab.
  - intros JSON_parse JSON_stringify Unknown JSON_stringify_call t w msgs
      run s0. subst run. unfold Transcript.getTotalTokens.
    rewrite run_msgs_total by apply init_loaded.
    rewrite countTokensMultiple_sum. f_equal.
    induction msgs as [|m msgs IH]; [done|]. simpl. by rewrite IH.
Qed.

Lemma ceilQuarter_bounds n :
  n ≤ 4 * ceilQuarter n ∧ 4 * ceilQuarter n < n + 4.
Proof.
  unfold ceilQuarter.
  pose proof (Nat.div_mod_eq n 4) as Hn.
  pose proof (Nat.mod_upper_bound n 4) as Hr.
  destruct (Nat.eqb_spec (n mod 4) 0); lia.
Qed.

(** X20. [estimateTokens] is the least number of tokens of four code
    units that hold the text: four times the estimate is at least the
    length and less than the length plus four. It is zero only for the
    empty text, and estimating two texts apart gives at most one token
    more than estimating them joined, never less. *)
Theorem estimateTokens_bounds :
  (∀ text,
     length text ≤ 4 * estimateTokens text
     ∧ 4 * estimateTokens text < length text + 4)
  ∧ (∀ text, estimateTokens text = 0 ↔ text = [])
  ∧ (∀ a b,
       estimateTokens (a ++ b) ≤ estimateTokens a + estimateTokens b
       ∧ estimateTokens a + estimateTokens b ≤ estimateTokens (a ++ b) + 1).
Proof.
  split; [|split].
  - intros text. apply ceilQuarter_bounds.
  - intros text. unfold estimateTokens.
    pose proof (ceilQuarter_bounds (length text)) as [H1 H2].
    split.
    + intros H0. rewrite H0 in H1. destruct text; [done|]. simpl in H1. lia.
    + by intros ->.
  - intros a b. unfold estimateTokens. rewrite length_app.
    pose proof (ceilQuarter_bounds (length a)).
    pose proof (ceilQuarter_bounds (length b)).
    pose proof (ceilQuarter_bounds (length a + length b)).
    lia.
Qed.

End TokensProps.

(** ** Session metadata *)

Section SessionStoreProps.
Import SessionStore.

Context (path_join : list str → str).
Context (JSON_parse_sessions : str → option (list SessionMetadata)).
Context (JSON_stringify_sessions : list SessionMetadata → str).
Context (Date_value : str → option Z).
Context (JSON_parse : str → option Transcript.TranscriptEntry).

Local Abbreviation new := (SessionStore.new path_join).
Local Abbreviation stored := (SessionStore.stored JSON_parse_sessions).
Local Abbreviation load := (SessionStore.load JSON_parse_sessions).
Local Abbreviation save := (SessionStore.save JSON_stringify_sessions).
Local Abbreviation getTranscriptPath := (SessionStore.getTranscriptPath path_join).
Local Abbreviation createSession :=
  (SessionStore.createSession path_join JSON_parse_sessions
     JSON_stringify_sessions JSON_parse).
Local Abbreviation loadSession :=
  (SessionStore.loadSession path_join JSON_parse_sessions JSON_parse).
Local Abbreviation updateSession :=
  (SessionStore.updateSession JSON_parse_sessions JSON_stringify_sessions).
Local Abbreviation syncFromTranscript :=
  (SessionStore.syncFromTranscript JSON_parse_sessions JSON_stringify_sessions).
Local Abbreviation getSessions := (SessionStore.getSessions JSON_parse_sessions).
Local Abbreviation getMostRecentSession :=
  (SessionStore.getMostRecentSession JSON_parse_sessions Date_value).
Local Abbreviation deleteSession :=
  (SessionStore.deleteSession JSON_parse_sessions JSON_stringify_sessions).
Local Abbreviation step :=
  (SessionStore.step path_join JSON_parse_sessions JSON_stringify_sessions
     Date_value JSON_parse).
Local Abbreviation run :=
  (SessionStore.run path_join JSON_parse_sessions JSON_stringify_sessions
     Date_value JSON_parse).
Local Abbreviation afterRestart :=
  (SessionStore.afterRestart path_join JSON_parse_sessions).
Local Abbreviation persisted :=
  (SessionStore.persisted path_join JSON_parse_sessions JSON_stringify_sessions).
Local Abbreviation pickLater := (SessionStore.pickLater Date_value).
Local Abbreviation updatedTime := (SessionStore.updatedTime Date_value).

Lemma store_load_loaded st w : loaded (load st w) = true.
Proof. unfold SessionStore.load. by destruct (loaded st) eqn:H. Qed.

Lemma store_load_fields st w :
  baseDir (load st w) = baseDir st ∧ ownAgentId (load st w) = ownAgentId st
  ∧ sessionsFilePath (load st w) = sessionsFilePath st.
Proof. unfold SessionStore.load. by destruct (loaded st). Qed.

Lemma hasId_false id (l : list SessionMetadata) :
  Forall (λ x, sessionId x ≠ id) l → Forall (λ x, hasId id x = false) l.
Proof.
  intros H. eapply Forall_impl; [exact H|]. intros x Hx.
  unfold hasId, str_eqb. by rewrite bool_decide_eq_false_2.
Qed.

Lemma hasId_true id s : sessionId s = id → hasId id s = true.
Proof. intros H. unfold hasId, str_eqb. by rewrite bool_decide_eq_true_2. Qed.

Lemma find_none_Forall {A} (P : A → bool) l :
  Forall (λ a, P a = false) l → List.find P l = None.
Proof. induction 1 as [|a l Ha _ IH]; simpl; [done|]. by rewrite Ha. Qed.

(** X13. [syncFromTranscript] on a session the store lists: the first
    record with that id gets the totals the transcript reports and the
    time of the call; its id, agent and creation time stay, every other
    record stays, and the sessions file is written with the new list. *)
Theorem syncFromTranscript_updates_first id t now st w pre s post :
  sessions (load st w) = pre ++ s :: post →
  Forall (λ x, sessionId x ≠ id) pre →
  sessionId s = id →
  let r := syncFromTranscript id t now st w in
  let s' :=
    {| sessionId := id; agentId := agentId s; createdAt := createdAt s;
       updatedAt := now;
       totalTokens := Transcript.getTotalTokens t;
       entryCount := Transcript.getEntryCount t;
       compactionCount := Transcript.getCompactionCount t |} in
  sessions r.1 = pre ++ s' :: post
  ∧ Transcript.disk r.2 =
      <[sessionsFilePath st := JSON_stringify_sessions (pre ++ s' :: post)]>
        (Transcript.disk w).
Proof.
  intros Hl Hpre Hs r s'. subst r.
  destruct (store_load_fields st w) as (_ & _ & Hp).
  unfold SessionStore.syncFromTranscript, SessionStore.updateSession.
  rewrite Hl.
  rewrite (findIndex_first _ pre s post (hasId_false id pre Hpre)
             (hasId_true id s Hs)).
  rewrite list_lookup_middle by done.
  rewrite insert_app_r_alt by done. rewrite Nat.sub_diag.
  cbn [fst snd withSessions sessions save Transcript.disk sessionsFilePath
       insert list_insert].
  unfold merge. cbn [u_totalTokens u_entryCount u_compactionCount default].
  rewrite Hs, Hp. done.
Qed.

(** X14. [deleteSession] on a session the store lists returns [true]
    and removes the first record with that id and no other; it writes the
    sessions file and touches no other file: the transcript of the session
    stays on disk. *)
Theorem deleteSession_removes_first id st w pre s post :
  sessions (load st w) = pre ++ s :: post →
  Forall (λ x, sessionId x ≠ id) pre →
  sessionId s = id →
  let r := deleteSession id st w in
  r.1 = true
  ∧ sessions r.2.1 = pre ++ post
  ∧ Transcript.disk r.2.2 !! sessionsFilePath st
      = Some (JSON_stringify_sessions (pre ++ post))
  ∧ (∀ f, f ≠ sessionsFilePath st →
       Transcript.disk r.2.2 !! f = Transcript.disk w !! f).
Proof.
  intros Hl Hpre Hs r. subst r.
  destruct (store_load_fields st w) as (_ & _ & Hp).
  unfold SessionStore.deleteSession. rewrite Hl.
  rewrite (findIndex_first _ pre s post (hasId_false id pre Hpre)
             (hasId_true id s Hs)).
  rewrite delete_middle.
  cbn [fst snd withSessions sessions save Transcript.disk sessionsFilePath].
  rewrite Hp. split; [done|]. split; [done|]. split.
  - by rewrite lookup_insert_eq.
  - intros f Hf. by rewrite lookup_insert_ne.
Qed.

(** X15. For an id the store does not list, [updateSession],
    [syncFromTranscript] and [deleteSession] write nothing and leave the
    list as loaded, [deleteSession] returns [false], and [loadSession]
    returns [null] without reading a transcript. *)
Theorem unknown_session_untouched id st w updates t now :
  Forall (λ x, sessionId x ≠ id) (sessions (load st w)) →
  updateSession id updates now st w = (load st w, w)
  ∧ syncFromTranscript id t now st w = (load st w, w)
  ∧ deleteSession id st w = (false, (load st w, w))
  ∧ loadSession id st w = (None, (load st w, w)).
Proof.
  intros Hall%hasId_false.
  unfold SessionStore.syncFromTranscript, SessionStore.updateSession,
    SessionStore.deleteSession, SessionStore.loadSession.
  by rewrite (findIndex_none _ _ Hall), (find_none_Forall _ _ Hall).
Qed.

Lemma pickLater_member first rest :
  foldl pickLater first rest ∈ first :: rest.
Proof.
  revert first. induction rest as [|x rest IH]; intros first; simpl.
  - by left.
  - specialize (IH (pickLater first x)). apply elem_of_cons in IH as [IH|IH].
    + rewrite IH. unfold SessionStore.pickLater.
      destruct (later Date_value (updatedAt x) (updatedAt first)).
      * right. by left.
      * by left.
    + right. by right.
Qed.

Lemma pickLater_latest first rest a :
  updatedTime first = Some a →
  Forall (λ x, is_Some (updatedTime x)) rest →
  ∃ b, updatedTime (foldl pickLater first rest) = Some b ∧ (a ≤ b)%Z
       ∧ Forall (λ x, ∃ c, updatedTime x = Some c ∧ (c ≤ b)%Z) rest.
Proof.
  intros Ha Hrest. revert first a Ha.
  induction Hrest as [|x rest [c Hc] _ IH]; intros first a Ha; simpl.
  - exists a. split; [done|]. split; [lia|constructor].
  - unfold SessionStore.updatedTime in *.
    assert (∃ a', updatedTime (pickLater first x) = Some a'
                  ∧ (a ≤ a')%Z ∧ (c ≤ a')%Z) as (a' & Ha' & Haa' & Hca').
    { unfold SessionStore.pickLater, SessionStore.later,
        SessionStore.updatedTime. rewrite Hc, Ha.
      destruct (Z.ltb_spec a c).
      - exists c. split; [done|]. lia.
      - exists a. split; [done|]. lia. }
    destruct (IH _ a' Ha') as (b & Hb & Hab & Hall).
    exists b. split; [done|]. split; [lia|].
    constructor; [exists c; split; [done|lia]|done].
Qed.

(** X16. [getMostRecentSession] returns [null] exactly when the store
    lists no session; otherwise it returns one of the listed records, and
    when every [updatedAt] is a valid date, none of the listed records was
    updated later than the one returned. *)
Theorem getMostRecentSession_latest st w :
  let l := sessions (load st w) in
  let r := (getMostRecentSession st w).1 in
  (r = None ↔ l = [])
  ∧ (∀ s, r = Some s →
       s ∈ l
       ∧ (Forall (λ x, is_Some (updatedTime x)) l →
          ∃ b, updatedTime s = Some b
               ∧ Forall (λ x, ∃ c, updatedTime x = Some c ∧ (c ≤ b)%Z) l)).
Proof.
  intros l r. subst l r. unfold SessionStore.getMostRecentSession.
  destruct (sessions (load st w)) as [|first rest]; cbn [fst].
  - split; [done|]. intros s Hs. done.
  - split; [done|]. intros s Hs. simplify_eq. split.
    + apply pickLater_member.
    + intros [[a Ha] Hrest]%Forall_cons.
      destruct (pickLater_latest first rest a Ha Hrest) as (b & Hb & Hab & Hall).
      exists b. split; [done|]. constructor; [|done].
      exists a. done.
Qed.

Lemma transcript_init_missing path w :
  Transcript.disk w !! path = None →
  Transcript.init JSON_parse (Transcript.new path) w =
    ({| Transcript.filePath := path; Transcript.entries := [];
        Transcript.totalTokens := 0; Transcript.loaded := true |},
     {| Transcript.disk := <[path := []]> (Transcript.disk w);
        Transcript.console := Transcript.console w |}).
Proof.
  intros Hnone. unfold Transcript.init. simpl. rewrite Hnone.
  unfold Transcript.load. simpl. by rewrite lookup_insert_eq.
Qed.

Lemma transcript_init_other t w f :
  f ≠ Transcript.filePath t →
  Transcript.disk (Transcript.init JSON_parse t w).2 !! f
  = Transcript.disk w !! f.
Proof.
  intros Hf. unfold Transcript.init. rewrite load_disk.
  destruct (Transcript.disk w !! Transcript.filePath t); [done|].
  simpl. by rewrite lookup_insert_ne.
Qed.

(** X17. [createSession] appends a record with the new id, the store's
    agent, the time of the call and all counters zero, and writes the
    list; when no file exists at the transcript path, it creates that
    file empty and returns a loaded transcript without entries whose
    totals are the counters of the record; [loadSession] with the new id
    then gives a transcript without entries as well. *)
Theorem createSession_starts_empty uuid now st w :
  Transcript.disk w !! getTranscriptPath st uuid = None →
  getTranscriptPath st uuid ≠ sessionsFilePath st →
  let r := createSession uuid now st w in
  let metadata := r.1.1 in
  let transcript := r.1.2 in
  metadata =
    {| sessionId := uuid; agentId := ownAgentId st; createdAt := now;
       updatedAt := now; totalTokens := 0; entryCount := 0;
       compactionCount := 0 |}
  ∧ sessions r.2.1 = sessions (load st w) ++ [metadata]
  ∧ Transcript.disk r.2.2 =
      <[getTranscriptPath st uuid := []]>
        (<[sessionsFilePath st := JSON_stringify_sessions (sessions r.2.1)]>
           (Transcript.disk w))
  ∧ Transcript.loaded transcript = true
  ∧ Transcript.getEntries transcript = []
  ∧ Transcript.getTotalTokens transcript = totalTokens metadata
  ∧ Transcript.getEntryCount transcript = entryCount metadata
  ∧ Transcript.getCompactionCount transcript = compactionCount metadata
  ∧ ∃ t', (loadSession uuid r.2.1 r.2.2).1 = Some t'
          ∧ Transcript.getEntries t' = [].
Proof.
  intros Hnone Hne r metadata transcript.
  destruct (store_load_fields st w) as (Hb & Ha & Hp).
  assert (getTranscriptPath (load st w) uuid = getTranscriptPath st uuid)
    as Hpath.
  { unfold SessionStore.getTranscriptPath. by rewrite Hb, Ha. }
  subst metadata transcript r. unfold SessionStore.createSession.
  rewrite Ha.
  set (m := {| sessionId := uuid; agentId := ownAgentId st;
               createdAt := now; updatedAt := now; totalTokens := 0;
               entryCount := 0; compactionCount := 0 |}).
  set (st2 := withSessions (load st w) (sessions (load st w) ++ [m])).
  assert (getTranscriptPath st2 uuid = getTranscriptPath st uuid) as Hpath2.
  { subst st2. unfold SessionStore.getTranscriptPath. simpl.
    by rewrite Hb, Ha. }
  rewrite Hpath2.
  rewrite transcript_init_missing; last first.
  { unfold SessionStore.save. simpl. rewrite Hp.
    by rewrite lookup_insert_ne. }
  cbn [fst snd].
  split; [done|]. split; [done|]. split.
  { unfold SessionStore.save. simpl. by rewrite Hp. }
  split; [done|]. split; [done|]. split; [done|]. split; [done|].
  split; [done|].
  unfold SessionStore.loadSession.
  assert (load st2 (Transcript.Build_World
            (<[getTranscriptPath st uuid := []]>
               (Transcript.disk (save st2 w)))
            (Transcript.console (save st2 w))) = st2) as ->.
  { unfold SessionStore.load. subst st2. simpl.
    by rewrite store_load_loaded. }
  assert (is_Some (List.find (hasId uuid) (sessions st2))) as [x ->].
  { subst st2. simpl.
    destruct (List.find (hasId uuid) (sessions (load st w) ++ _)) eqn:Hf;
      [eauto|].
    pose proof (List.find_none _ _ Hf) as Hn. exfalso.
    specialize (Hn m). rewrite hasId_true in Hn by done.
    assert (true = false) by (apply Hn; apply in_or_app; right; by left).
    done. }
  rewrite Hpath2. unfold Transcript.load. simpl.
  rewrite lookup_insert_eq. simpl. eauto.
Qed.

Lemma persisted_load dir agent st w :
  persisted dir agent (st, w) → persisted dir agent (load st w, w).
Proof.
  intros (Hb & Ha & Hp & Hl). unfold SessionStore.load.
  destruct (loaded st) eqn:Hloaded; [done|].
  split; [done|]. split; [done|]. split; [done|]. intros _. by right.
Qed.

Lemma persisted_save dir agent st l w :
  persisted dir agent (st, w) →
  persisted dir agent (withSessions st l, save (withSessions st l) w).
Proof.
  intros (Hb & Ha & Hp & Hl). split; [done|]. split; [done|].
  split; [done|]. intros _. left. simpl. by rewrite lookup_insert_eq.
Qed.

Lemma persisted_same_file dir agent st w w' :
  Transcript.disk w' !! sessionsFilePath st
    = Transcript.disk w !! sessionsFilePath st →
  persisted dir agent (st, w) → persisted dir agent (st, w').
Proof.
  intros Hsame (Hb & Ha & Hp & Hl). split; [done|]. split; [done|].
  split; [done|]. simpl in *. by rewrite Hsame.
Qed.

Section Restart.

Variables dir agent : str.
Hypothesis paths_differ :
  ∀ id, getTranscriptPath (new dir agent) id ≠ sessionsFilePath (new dir agent).

Lemma persisted_path st w id :
  persisted dir agent (st, w) → getTranscriptPath st id ≠ sessionsFilePath st.
Proof using paths_differ.
  intros (Hb & Ha & Hp & _). simpl in *. rewrite Hp.
  unfold SessionStore.getTranscriptPath. rewrite Hb, Ha. apply paths_differ.
Qed.

Lemma persisted_step s o : persisted dir agent s → persisted dir agent (step s o).
Proof using paths_differ.
  destruct s as [st w]. intros H.
  pose proof (persisted_load dir agent st w H) as Hl.
  destruct o; simpl.
  - done.
  - unfold SessionStore.createSession.
    set (m := {| sessionId := uuid |}).
    pose proof (persisted_save dir agent (load st w)
                  (sessions (load st w) ++ [m]) w Hl) as Hs.
    set (st2 := withSessions (load st w) (sessions (load st w) ++ [m])) in *.
    pose proof (persisted_path st2 (save st2 w) uuid Hs) as Hne.
    pose proof (transcript_init_other
                  (Transcript.new (getTranscriptPath st2 uuid))
                  (save st2 w) (sessionsFilePath st2)) as Hd.
    destruct (Transcript.init _ _ _) as [t w3]. simpl in *.
    apply (persisted_same_file dir agent st2 (save st2 w) w3); [|done].
    apply Hd. by intros ?.
  - unfold SessionStore.loadSession.
    destruct (List.find _ _); [|done].
    pose proof (load_disk JSON_parse
                  (Transcript.new (getTranscriptPath (load st w) id)) w) as Hd.
    destruct (Transcript.load _ _ _) as [t w1]. simpl in *.
    apply (persisted_same_file dir agent _ w w1); [by rewrite Hd|done].
  - unfold SessionStore.updateSession.
    destruct (findIndex _ _) as [i|]; [|done].
    destruct (sessions (load st w) !! i); [|done].
    by apply persisted_save.
  - unfold SessionStore.syncFromTranscript, SessionStore.updateSession.
    destruct (findIndex _ _) as [i|]; [|done].
    destruct (sessions (load st w) !! i); [|done].
    by apply persisted_save.
  - done.
  - unfold SessionStore.getMostRecentSession.
    by destruct (sessions (load st w)).
  - unfold SessionStore.deleteSession.
    destruct (findIndex _ _) as [i|]; [|done].
    by apply persisted_save.
Qed.

Lemma persisted_run ops s : persisted dir agent s → persisted dir agent (run ops s).
Proof using paths_differ.
  revert s. induction ops as [|o ops IH]; intros s H; [done|].
  simpl. apply IH. by apply persisted_step.
Qed.

End Restart.

(** X18. The list survives a restart: after any calls on a store, a
    store made anew for the same directory and agent lists the same
    sessions, provided the final list is one [JSON.parse] reads back from
    what [JSON.stringify] printed, and no transcript path is the path of
    the sessions file. *)
Theorem sessions_survive_restart dir agent w ops :
  (∀ id, getTranscriptPath (new dir agent) id
         ≠ sessionsFilePath (new dir agent)) →
  let s := run ops (new dir agent, w) in
  JSON_parse_sessions (JSON_stringify_sessions (sessions s.1))
    = Some (sessions s.1) →
  afterRestart s.1 s.2 = (getSessions s.1 s.2).1.
Proof.
  intros Hpaths s Hround.
  assert (persisted dir agent s) as (Hb & Ha & Hp & Hl).
  { apply persisted_run; [done|]. by repeat split. }
  unfold SessionStore.afterRestart, SessionStore.getSessions. cbn [fst].
  rewrite Hb, Ha. unfold SessionStore.load at 1. cbn [loaded SessionStore.new].
  cbn [sessions]. fold (new dir agent). rewrite <- Hp.
  unfold SessionStore.load. destruct (loaded s.1) eqn:Hloaded; [|done].
  destruct (Hl eq_refl) as [Hfile|Hstored]; [|done].
  rewrite Hfile. unfold SessionStore.stored. by rewrite Hround.
Qed.

End SessionStoreProps.

(** ** Long-term memory *)

Section LongTermMemoryProps.
Import Markdown LongTermMemory.

Context (toLowerCase : str → str).
Context (compile_i : str → str → nat → option nat).

Local Abbreviation normalize := (LongTermMemory.normalize toLowerCase).
Local Abbreviation isFact := (LongTermMemory.isFact toLowerCase).
Local Abbreviation hasFact := (LongTermMemory.hasFact toLowerCase).
Local Abbreviation addFact := (LongTermMemory.addFact toLowerCase).
Local Abbreviation factLines := (LongTermMemory.factLines toLowerCase).

Lemma read_again st : read (read st).2 = read st.
Proof.
  unfold read. destruct (cache st) as [c|] eqn:Hc; simpl; [by rewrite Hc|].
  destruct (file st) as [c|] eqn:Hf; simpl; [done|].
  unfold init. by rewrite Hf.
Qed.

Lemma read_store c st : read (store c st) = (c, store c st).
Proof. done. Qed.

Lemma getSection_unfold S st :
  getSection S st = (get S (parseSections (read st).1), (read st).2).
Proof. unfold getSection. by destruct (read st). Qed.

Lemma getSection_firstBody S st :
  S ≠ [] →
  getSection S st = (bodyText <$> firstBody S (split (read st).1), (read st).2).
Proof.
  intros HS. rewrite getSection_unfold. unfold parseSections.
  by rewrite get_parseLines.
Qed.

Lemma headingTitle_truthy l S : headingTitle l = Some S → S ≠ [].
Proof.
  unfold headingTitle. destruct l as [|c r]; [done|].
  destruct (isHash c); [|done].
  destruct (dropHashes 3 (c :: r)) as [|d rest]; [done|].
  destruct (isSpace d); simpl; [|done].
  destruct (truthy (trim (d :: rest))) eqn:Ht; [|done].
  intros ?; simplify_eq. by destruct (trim (d :: rest)).
Qed.

Lemma isTitle_ne S : isTitle S → S ≠ [].
Proof. intros (_ & Hf & _) ->. done. Qed.

Lemma existsb_false_filter {A} (f : A → bool) l :
  existsb f l = false → List.filter f l = [].
Proof.
  induction l as [|x l IH]; simpl; [done|].
  destruct (f x); simpl; [done|]. apply IH.
Qed.

Lemma split_join_body B :
  B ≠ [] → Forall (λ l, LF ∉ l) B → split (join B) = B.
Proof. apply split_join. Qed.

(** The bullet line made from a fact is that fact, to [hasFact]. *)
Lemma isFact_bullet F F' :
  normalize F' = normalize F → isFact (normalize F') (lit "- " ++ F) = true.
Proof.
  intros Hn. unfold LongTermMemory.isFact, stripBullet.
  change (lit "- " ++ F) with (45%N :: 32%N :: F). simpl.
  fold (trim (trimStart F)). unfold trim at 1. rewrite trimStart_idem.
  fold (trim F). unfold str_eqb. apply bool_decide_eq_true_2.
  by rewrite Hn.
Qed.

(** What [addFact] leaves in the section: the lines that were there, the
    blank ones at both ends dropped, and the new bullet after them. *)
Lemma appendBullets_section S F st :
  isTitle S → LF ∉ F →
  let nl := lit "- " ++ F in
  let st1 := appendBullets S nl st in
  read st1 = ((read st1).1, st1) ∧
  cache st1 = file st1 ∧
  ∃ B, (getSection S st1).1 = Some (join (B ++ [nl])) ∧
       Forall (λ l, LF ∉ l) B ∧
       (B = [] ∨ (getSection S st).1 = Some (join B) ∧
                 ∃ l r, B = l :: r ∧ isBlank l = false).
Proof.
  intros HS HF nl st1.
  pose proof (isTitle_ne S HS) as HSne.
  assert (Hnl_head : isHeading nl = false) by done.
  assert (Hnl_blank : isBlank nl = false) by done.
  assert (Hnl_lf : LF ∉ nl).
  { subst nl. change (lit "- " ++ F) with (45%N :: 32%N :: F).
    rewrite !not_elem_of_cons. done. }
  assert (Hst1 : st1 = store (appendToSection (read st).1 S nl true) (read st).2).
  { subst st1. unfold appendBullets. by destruct (read st). }
  split; [by rewrite Hst1|]. split; [by rewrite Hst1|].
  rewrite (getSection_firstBody S st1), (getSection_firstBody S st) by done.
  rewrite Hst1, read_store. simpl. unfold appendToSection.
  pose proof (split_lines_no_LF (read st).1) as Hlines.
  destruct (firstBody S (split (read st).1)) as [body|] eqn:Hb.
  - destruct (upsertLines_Some S nl _ body Hb Hnl_head) as (ls' & -> & H2 & H3).
    specialize (H3 Hlines Hnl_lf).
    assert (ls' ≠ []).
    { intros ->. simpl in H2. done. }
    rewrite split_join by done. rewrite H2. simpl.
    rewrite bodyText_upsert by done.
    exists (dropBlankStart (dropBlankEnd body)). split; [done|].
    assert (Hbody : Forall (λ l, LF ∉ l) body).
    { clear -Hb Hlines. revert Hb.
      induction Hlines as [|l ls Hl Hls IH]; simpl; [done|].
      destruct (hasTitle S l); [|done].
      intros ?; simplify_eq. destruct (spanBody_spec ls) as (E & _ & _).
      rewrite E in Hls. by apply Forall_app in Hls as [? _]. }
    split; [by apply dropBlankStart_Forall, dropBlankEnd_Forall|].
    destruct (dropBlankStart (dropBlankEnd body)) as [|l r] eqn:E; [by left|].
    right. split; [unfold bodyText; by rewrite E|].
    exists l, r. split; [done|]. by eapply dropBlankStart_head.
  - rewrite upsertLines_None by done.
    rewrite split_app_LF.
    change (lit "## " ++ S ++ LF :: nl) with ((lit "## " ++ S) ++ LF :: nl).
    rewrite split_app_LF.
    assert (LF ∉ lit "## " ++ S).
    { change (lit "## " ++ S) with (35%N :: 35%N :: 32%N :: S).
      pose proof HS as (HS1 & _ & _). rewrite !not_elem_of_cons. done. }
    rewrite (split_no_LF nl), (split_no_LF (lit "## " ++ S)) by done.
    rewrite firstBody_app_skip by (by apply firstBody_None).
    assert (Hhd : hasTitle S (lit "## " ++ S) = true).
    { unfold hasTitle. rewrite headingTitle_make by done.
      unfold str_eqb. by apply bool_decide_eq_true_2. }
    change ([lit "## " ++ S] ++ [nl]) with ((lit "## " ++ S) :: [nl]).
    cbn [firstBody]. rewrite Hhd.
    cbn [spanBody]. rewrite Hnl_head. cbn [fst fmap option_fmap option_map].
    exists []. split; [|split; [constructor|by left]].
    unfold bodyText. cbn [dropBlankEnd]. rewrite Hnl_blank.
    cbn [dropBlankStart]. by rewrite Hnl_blank.
Qed.

(** C6 (spec-modelled parser). When several sections of the document have
    the title, [getSection(title)] returns the body under the first heading
    with that title, whatever follows that section. *)
Theorem getSection_first_match st S pre h body rest :
  split (read st).1 = pre ++ h :: body ++ rest →
  Forall (λ l, hasTitle S l = false) pre →
  headingTitle h = Some S →
  Forall (λ l, isHeading l = false) body →
  (rest = [] ∨ ∃ h' r, rest = h' :: r ∧ isHeading h' = true) →
  (getSection S st).1 = Some (bodyText body).
Proof.
  intros Hsplit Hpre Hh Hbody Hrest.
  rewrite getSection_firstBody by (by eapply headingTitle_truthy).
  simpl. rewrite Hsplit. rewrite firstBody_split; try done.
  unfold hasTitle. rewrite Hh. unfold str_eqb. by apply bool_decide_eq_true_2.
Qed.

(** C2, amended (spec-modelled section editor). For a section name that a
    heading can carry and a fact on one line that no bullet of the section
    normalizes to, [addFact(S, F, true)] called twice reports "added" and
    then "not added", the second call writes nothing, and afterwards
    [getSection(S)] holds exactly one bullet that is F, the line [- F];
    the second call may use any variant of F with the same normal form. *)
Theorem addFact_twice st S F F' :
  isTitle S → LF ∉ F →
  normalize F' = normalize F →
  (hasFact S F st).1 = false →
  let r1 := addFact S F true st in
  let r2 := addFact S F' true r1.2 in
  r1.1 = true ∧ r2.1 = false ∧ r2.2 = r1.2 ∧
  file r1.2 = cache r1.2 ∧
  ∃ body, (getSection S r2.2).1 = Some body ∧
          factLines F body = [lit "- " ++ F].
Proof.
  intros HS HF Hn Hpre r1 r2.
  set (nl := lit "- " ++ F).
  assert (Hr1 : r1 = (true, appendBullets S nl (read st).2)).
  { subst r1. unfold LongTermMemory.addFact.
    destruct (LongTermMemory.hasFact toLowerCase S F st) as [b st'] eqn:Hh.
    simpl in Hpre. subst b. f_equal. f_equal.
    unfold LongTermMemory.hasFact in Hh. rewrite getSection_unfold in Hh.
    destruct (get S _) as [sc|]; [destruct (truthy sc)|]; by simplify_eq. }
  destruct (appendBullets_section S F (read st).2 HS HF)
    as (Hread & Hcf & B & Hsec & HB & HBpre).
  fold nl in Hread, Hcf, Hsec. set (st1 := appendBullets S nl (read st).2) in *.
  assert (Hne : truthy (join (B ++ [nl])) = true).
  { destruct (join (B ++ [nl])) eqn:E; [|done].
    apply join_nil_inv in E as [E|E]; destruct B as [|? [|? ?]]; done. }
  assert (Hall : Forall (λ l, LF ∉ l) (B ++ [nl])).
  { apply Forall_app. split; [done|]. constructor; [|done].
    subst nl. change (lit "- " ++ F) with (45%N :: 32%N :: F).
    rewrite !not_elem_of_cons. done. }
  assert (Hsplit : split (join (B ++ [nl])) = B ++ [nl]).
  { apply split_join; [by destruct B|done]. }
  assert (Hh2 : LongTermMemory.hasFact toLowerCase S F' st1 = (true, st1)).
  { unfold LongTermMemory.hasFact. rewrite getSection_unfold.
    rewrite getSection_unfold in Hsec. simpl in Hsec. rewrite Hsec, Hne, Hsplit.
    rewrite Hread. simpl. f_equal. rewrite existsb_app. simpl.
    subst nl. rewrite isFact_bullet by done. by rewrite orb_true_r. }
  assert (Hr2 : r2 = (false, st1)).
  { subst r2. rewrite Hr1. simpl. fold st1.
    unfold LongTermMemory.addFact. by rewrite Hh2. }
  rewrite Hr1, Hr2. simpl. fold st1.
  repeat split; try done.
  exists (join (B ++ [nl])). split; [done|].
  unfold LongTermMemory.factLines. rewrite Hsplit, List.filter_app. simpl.
  subst nl. rewrite isFact_bullet by done.
  replace (List.filter _ B) with (@nil (list N)); [done|].
  symmetry. destruct HBpre as [->|(Hsec0 & l & r & -> & Hl)]; [done|].
  apply existsb_false_filter.
  rewrite getSection_unfold in Hsec0. cbn [fst] in Hsec0.
  rewrite read_again in Hsec0.
  unfold LongTermMemory.hasFact in Hpre.
  rewrite getSection_unfold in Hpre. rewrite Hsec0 in Hpre.
  assert (Ht : truthy (join (l :: r)) = true).
  { destruct l; [done|]. by destruct r. }
  cbv beta iota zeta in Hpre. rewrite Ht in Hpre. cbn [fst] in Hpre.
  by rewrite split_join in Hpre.
Qed.

End LongTermMemoryProps.

(** ** Long-term memory: the cache, [search] and [setSection] *)

Section FilterTestFacts.
Import RegExp.

Lemma filterTest_sublist r lines : (filterTest r lines).1 `sublist_of` lines.
Proof.
  revert r. induction lines as [|l lines IH]; intros r; simpl; [constructor|].
  destruct (test r l) as [found r1].
  specialize (IH r1). destruct (filterTest r1 lines) as [kept r2].
  simpl in *. destruct found; by constructor.
Qed.

(** A search that starts with [lastIndex] 0 keeps the first line the
    pattern matches, and nothing before it. *)
Lemma filterTest_head r lines :
  global r = true → lastIndex r = 0 →
  head (filterTest r lines).1 =
    List.find (λ l, bool_decide (is_Some (exec r l 0))) lines.
Proof.
  intros Hg H0. revert r Hg H0.
  induction lines as [|l lines IH]; intros r Hg H0; simpl; [done|].
  unfold test. rewrite Hg, H0.
  replace (length l <? 0) with false by (symmetry; by apply Nat.ltb_ge; lia).
  destruct (exec r l 0) as [e|] eqn:He.
  - rewrite bool_decide_eq_true_2 by eauto.
    by destruct (filterTest _ lines).
  - rewrite bool_decide_eq_false_2 by (by intros [? ?]).
    specialize (IH {| exec := exec r; global := true; lastIndex := 0 |}
                   eq_refl eq_refl).
    destruct (filterTest _ lines) as [kept r2]. simpl in *. apply IH.
Qed.

End FilterTestFacts.

Section LongTermMemoryMore.
Import Markdown LongTermMemory.

Context (toLowerCase : str → str).
Context (compile_i : str → str → nat → option nat).

Local Abbreviation hasFact := (LongTermMemory.hasFact toLowerCase).
Local Abbreviation addFact := (LongTermMemory.addFact toLowerCase).
Local Abbreviation search := (LongTermMemory.search compile_i).
Local Abbreviation step := (LongTermMemory.step toLowerCase compile_i).
Local Abbreviation run := (LongTermMemory.run toLowerCase compile_i).

Lemma store_settled path c st : filePath st = path → settled path (store c st).
Proof. intros H. split; [done|]. by right. Qed.

Lemma init_settled path st : settled path st → settled path (init st).
Proof.
  intros [Hp Hc]. unfold init. destruct (file st); [done|].
  by apply store_settled.
Qed.

Lemma read_settled path st :
  settled path st → settled path (read st).2 ∧ (read st).1 = onDisk st.
Proof.
  intros [Hp Hc]. unfold read, onDisk.
  destruct (cache st) as [c|] eqn:Hcache.
  - split; [by split|].
    destruct Hc as [Hc|Hc]; [congruence|]. rewrite Hcache in Hc.
    by rewrite <- Hc.
  - destruct (file st) as [c|] eqn:Hf; simpl.
    + split; [|done]. split; [done|]. right. simpl. done.
    + unfold init. rewrite Hf. split; [|done]. by apply store_settled.
Qed.

Lemma getSection_settled path S st :
  settled path st → settled path (getSection S st).2.
Proof.
  intros H. apply read_settled in H as [H _]. unfold getSection.
  by destruct (read st).
Qed.

Lemma hasFact_settled path S F st :
  settled path st → settled path (hasFact S F st).2.
Proof.
  intros H. apply (getSection_settled path S) in H.
  unfold LongTermMemory.hasFact. destruct (getSection S st) as [[sc|] st1];
    simpl in *; [|done].
  by destruct (truthy sc).
Qed.

Lemma appendBullets_settled path S B st :
  settled path st → settled path (appendBullets S B st).
Proof.
  intros H. apply read_settled in H as [[H _] _]. unfold appendBullets.
  destruct (read st). by apply store_settled.
Qed.

Lemma addFact_settled path S F skip st :
  settled path st → settled path (addFact S F skip st).2.
Proof.
  intros H. unfold LongTermMemory.addFact. destruct skip.
  - pose proof (hasFact_settled path S F st H) as H1.
    destruct (hasFact S F st) as [[|] st1]; simpl in *; [done|].
    by apply appendBullets_settled.
  - simpl. by apply appendBullets_settled.
Qed.

Lemma setSection_settled path T c st :
  settled path st → settled path (setSection T c st).
Proof.
  intros H. apply read_settled in H as [[H _] _]. unfold setSection.
  destruct (read st). by apply store_settled.
Qed.

Lemma search_settled path p st :
  settled path st → settled path (search p st).2.
Proof.
  intros H. apply read_settled in H as [H _]. unfold LongTermMemory.search.
  by destruct (read st).
Qed.

Lemma clearCache_settled path st :
  settled path st → settled path (clearCache st).
Proof. intros [H _]. split; [done|]. by left. Qed.

Lemma step_settled path st o : settled path st → settled path (step st o).
Proof.
  intros H. destruct o; simpl.
  - by apply init_settled.
  - by apply read_settled.
  - by apply getSection_settled.
  - by apply hasFact_settled.
  - by apply addFact_settled.
  - by apply appendBullets_settled.
  - by apply setSection_settled.
  - by apply search_settled.
  - by apply clearCache_settled.
  - done.
Qed.

Lemma run_settled path ops st : settled path st → settled path (run ops st).
Proof.
  revert st. induction ops as [|o ops IH]; intros st H; [done|].
  simpl. apply IH. by apply step_settled.
Qed.

(** X7. Whatever methods have been called on a new instance, with
    whatever arguments, and the file being written by this instance only,
    the cache is empty or holds exactly the text of the file, the path is
    the one the instance was made with, and [read] returns the text of the
    file (the initial document when the file does not exist, which [read]
    then creates). *)
Theorem cache_never_stale path f ops :
  let st := run ops {| filePath := path; cache := None; file := f |} in
  coherent st ∧ getFilePath st = path ∧ (read st).1 = onDisk st
  ∧ file (read st).2 = Some (onDisk st).
Proof.
  intros st.
  assert (settled path st) as Hst.
  { apply run_settled. split; [done|]. by left. }
  pose proof (read_settled path st Hst) as [_ Hr].
  destruct Hst as [Hp Hc]. repeat split; [done|done|done|].
  unfold read, onDisk. destruct (cache st) as [c|] eqn:Hcache.
  - destruct Hc as [Hc|Hc]; [congruence|]. simpl. rewrite <- Hc, Hcache. done.
  - destruct (file st) as [c|] eqn:Hf; simpl; [done|].
    unfold init. by rewrite Hf.
Qed.

(** X8. [search] returns lines of the document in their order, and its
    first result is the first line the pattern matches: it is empty exactly
    when no line matches. (Later matching lines can be missing.) *)
Theorem search_keeps_first_match p st :
  let lines := split (read st).1 in
  let result := (search p st).1 in
  result `sublist_of` lines
  ∧ head result =
      List.find (λ l, bool_decide (is_Some (compile_i p l 0))) lines
  ∧ (result = [] ↔ Forall (λ l, compile_i p l 0 = None) lines).
Proof.
  intros lines result. subst lines result. unfold LongTermMemory.search.
  destruct (read st) as [content st1]. cbn [fst snd].
  set (r := {| RegExp.exec := compile_i p; RegExp.global := true;
               RegExp.lastIndex := 0 |}).
  pose proof (filterTest_sublist r (split content)) as Hsub.
  pose proof (filterTest_head r (split content) eq_refl eq_refl) as Hhead.
  split; [done|]. split; [done|]. simpl in Hhead.
  split.
  - intros Hnil. rewrite Hnil in Hhead. simpl in Hhead. symmetry in Hhead.
    apply Forall_forall. intros l Hl.
    apply list_elem_of_In in Hl.
    pose proof (List.find_none _ _ Hhead l Hl) as Hn. simpl in Hn.
    apply bool_decide_eq_false in Hn.
    destruct (compile_i p l 0); [|done]. destruct Hn. eauto.
  - intros Hall.
    destruct (RegExp.filterTest r (split content)).1 as [|x xs] eqn:Hres;
      [done|].
    simpl in Hhead. symmetry in Hhead. apply List.find_some in Hhead as [Hin Hx].
    apply list_elem_of_In in Hin.
    rewrite Forall_forall in Hall. specialize (Hall x Hin).
    apply bool_decide_eq_true in Hx. rewrite Hall in Hx. by destruct Hx.
Qed.

(** X9. [setSection] on a document that has the section replaces what
    lies between the first heading line for it and the next [## ] line by
    the new content and one empty line; every other line stays, and the
    cache holds the new text. *)
Theorem setSection_replaces_body T c st before h old after :
  split (read st).1 = before ++ h :: old ++ after →
  Forall (λ l, RegExp.sectionPattern_test false T l = false) before →
  RegExp.sectionPattern_test false T h = true →
  Forall (λ l, RegExp.nextSection l = false) old →
  head after = None ∨ (∃ l, head after = Some l ∧ RegExp.nextSection l = true) →
  let st' := setSection T c st in
  file st' = Some (join (before ++ h :: c :: [] :: after))
  ∧ cache st' = file st'
  ∧ filePath st' = filePath st.
Proof.
  intros Hsplit Hbefore Hh Hold Hafter st'. subst st'.
  unfold setSection.
  assert (filePath (read st).2 = filePath st) as Hpath.
  { unfold read. destruct (cache st); [done|]. destruct (file st) eqn:Hf;
      [done|]. simpl. unfold init. by rewrite Hf. }
  destruct (read st) as [content st1]. cbn [fst snd] in *.
  cbn [store file cache filePath]. split; [|done].
  f_equal. unfold setSectionLines. rewrite Hsplit.
  rewrite (findIndex_first _ before h (old ++ after)) by done.
  assert (before ++ h :: old ++ after = (before ++ [h]) ++ old ++ after)
    as Hlines by (by rewrite <- app_assoc).
  assert (length (before ++ [h]) = S (length before)) as Hlen
    by (rewrite length_app; simpl; lia).
  rewrite Hlines.
  rewrite (drop_app_length' (before ++ [h]) (old ++ after) (S (length before)))
    by (by rewrite Hlen).
  rewrite (take_app_length' (before ++ [h])) by (by rewrite Hlen).
  destruct Hafter as [Hnone|(l & Hl & Hnext)].
  - destruct after as [|? ?]; [|done]. rewrite !app_nil_r.
    rewrite (findIndex_none _ old) by done.
    rewrite drop_all. by rewrite <- !app_assoc.
  - destruct after as [|l' after']; [done|]. simpl in Hl. simplify_eq.
    rewrite (findIndex_first _ old l after') by done.
    rewrite (app_assoc (before ++ [h]) old).
    rewrite (drop_app_length' ((before ++ [h]) ++ old))
      by (rewrite length_app; lia).
    by rewrite <- !app_assoc.
Qed.

End LongTermMemoryMore.

(** ** Daily notes *)

Section DailyNotesProps.
Import RegExp DailyNotes.

Lemma isDigit_plain c :
  isDigit c = true → isLineTerminator c = false ∧ c ≠ LF.
Proof.
  unfold isDigit, isLineTerminator, LF.
  intros [H1 H2]%andb_prop. apply N.leb_le in H1, H2.
  destruct (N.eqb_spec c 10), (N.eqb_spec c 13), (N.eqb_spec c 8232),
    (N.eqb_spec c 8233); try lia; done.
Qed.

Lemma isDate_plain d :
  isDate d = true → Forall (λ c, isLineTerminator c = false) d ∧ LF ∉ d.
Proof.
  intros H.
  do 10 (destruct d as [|? d]; [done|]).
  destruct d; [|done]. unfold isDate in H.
  do 9 (apply andb_prop in H as [H ?]).
  repeat match goal with
         | H : isDigit _ = true |- _ => apply isDigit_plain in H as [? ?]
         | H : (_ =? 45)%N = true |- _ => apply N.eqb_eq in H as ->
         end.
  split.
  - repeat (constructor; [done|]). constructor.
  - rewrite !not_elem_of_cons. repeat split; try done. apply not_elem_of_nil.
Qed.

Lemma plain_lit (x : list N) :
  forallb (λ c, negb (isLineTerminator c)) x = true →
  Forall (λ c, isLineTerminator c = false) x.
Proof.
  intros H. apply Forall_forall. intros c Hc.
  rewrite forallb_forall in H. specialize (H c).
  rewrite <- list_elem_of_In in H. specialize (H Hc).
  by destruct (isLineTerminator c).
Qed.

Lemma createInitialContent_lines d :
  createInitialContent d = join (skeletonLines d).
Proof.
  unfold createInitialContent, skeletonLines. cbn [join].
  by rewrite <- !app_assoc.
Qed.

Lemma skeletonLines_plain d :
  isDate d = true →
  Forall (Forall (λ c, isLineTerminator c = false)) (skeletonLines d) ∧
  Forall (λ l, LF ∉ l) (skeletonLines d).
Proof.
  intros [Hd1 Hd2]%isDate_plain. split.
  - unfold skeletonLines.
    repeat (constructor; [try (apply plain_lit; by vm_compute)|]);
      by (done || constructor).
  - unfold skeletonLines.
    repeat (constructor;
            [try (apply (bool_decide_unpack _); by vm_compute)|]);
      [|constructor].
    change (lit "# " ++ d) with (35%N :: 32%N :: d).
    rewrite !not_elem_of_cons. done.
Qed.

Section ForSection.

Variable S : str.
Hypothesis S_one_line : LF ∉ S.

Local Abbreviation headingHere := (RegExp.headingHere true S).
Local Abbreviation test := (RegExp.sectionPattern_test true S).

Lemma headingHere_join_title title rest :
  firstSolid title = true → lastSolid title = true →
  forallb (λ c, negb (isLineTerminator c)) title = true →
  headingHere (join ((lit "## " ++ title) :: rest)) = bool_decide (S = title).
Proof using S_one_line.
  intros Hf Hl Hlt%plain_lit. destruct rest as [|l rest].
  - cbn [join]. rewrite <- (app_nil_r title) at 1.
    apply headingHere_title; auto.
  - rewrite join_cons by done. rewrite <- app_assoc.
    apply headingHere_title; eauto.
Qed.

Lemma headingHere_join_blank rest : headingHere (join ([] :: rest)) = false.
Proof.
  destruct rest as [|l rest]; [done|]. rewrite join_cons by done.
  cbn [app]. by destruct (join (l :: rest)).
Qed.

Lemma headingHere_join_date d rest :
  headingHere (join ((lit "# " ++ d) :: rest)) = false.
Proof.
  change (lit "# " ++ d) with (35%N :: 32%N :: d).
  destruct rest as [|l rest]; [done|]. by rewrite join_cons by done.
Qed.

Lemma test_plain_line l :
  Forall (λ c, isLineTerminator c = false) l → test l = headingHere l.
Proof.
  intros Hl. unfold RegExp.sectionPattern_test.
  by rewrite testFrom_last_line by done.
Qed.

Lemma test_title_line title :
  firstSolid title = true → lastSolid title = true →
  forallb (λ c, negb (isLineTerminator c)) title = true →
  test (lit "## " ++ title) = bool_decide (S = title).
Proof using S_one_line.
  intros Hf Hl Hlt. rewrite test_plain_line.
  - by apply (headingHere_join_title title []).
  - apply Forall_app. split; [by apply plain_lit|by apply plain_lit].
Qed.

Lemma test_date_line d : isDate d = true → test (lit "# " ++ d) = false.
Proof.
  intros [Hd _]%isDate_plain. rewrite test_plain_line.
  - apply (headingHere_join_date d []).
  - apply Forall_app. split; [by apply plain_lit|done].
Qed.

Lemma test_own_line : test (lit "## " ++ S) = true.
Proof. apply testFrom_here; [done|apply headingHere_own]. Qed.

(** On the skeleton, the pattern matches for the four default names and
    for no other name on one line. *)
Lemma test_skeleton d :
  isDate d = true →
  test (createInitialContent d) = bool_decide (S ∈ defaultSections).
Proof using S_one_line.
  intros Hd. destruct (skeletonLines_plain d Hd) as [Hplain _].
  rewrite createInitialContent_lines, test_join by done.
  unfold skeletonLines. cbn [tails map existsb].
  change (lit "## Session Notes") with (lit "## " ++ lit "Session Notes").
  change (lit "## Decisions Made") with (lit "## " ++ lit "Decisions Made").
  change (lit "## Ideas") with (lit "## " ++ lit "Ideas").
  change (lit "## Tasks") with (lit "## " ++ lit "Tasks").
  rewrite headingHere_join_date, !headingHere_join_blank.
  rewrite !headingHere_join_title by done.
  cbn [orb]. rewrite !orb_false_r.
  unfold defaultSections.
  repeat case_bool_decide; simpl; try done; set_solver.
Qed.

Lemma join_app (l1 l2 : list (list N)) :
  l1 ≠ [] → l2 ≠ [] → join (l1 ++ l2) = join l1 ++ LF :: join l2.
Proof.
  intros H1 H2. induction l1 as [|a l1 IH]; [done|].
  destruct l1 as [|b l1].
  - simpl. by destruct l2.
  - change ((a :: b :: l1) ++ l2) with (a :: (b :: l1) ++ l2).
    rewrite !join_cons by done. rewrite IH by done. by rewrite <- app_assoc.
Qed.

Lemma lastSolid_join ls l :
  lastSolid l = true → lastSolid (join (ls ++ [l])) = true.
Proof.
  intros Hl. induction ls as [|a ls IH]; [done|].
  change ((a :: ls) ++ [l]) with (a :: (ls ++ [l])).
  rewrite join_cons by (by destruct ls).
  rewrite cons_middle, app_assoc. by apply lastSolid_app.
Qed.

Lemma trimEnd_skeleton d :
  trimEnd (createInitialContent d) = join (take 9 (skeletonLines d)).
Proof.
  assert (H : createInitialContent d
              = join (take 9 (skeletonLines d)) ++ [LF; LF]).
  { unfold createInitialContent, skeletonLines. cbn [take join].
    by rewrite <- !app_assoc. }
  rewrite H, trimEnd_app_blank by done.
  apply (trimEnd_lastSolid []).
  by apply (lastSolid_join
              [lit "# " ++ d; []; lit "## Session Notes"; [];
               lit "## Decisions Made"; []; lit "## Ideas"; []]
              (lit "## Tasks")).
Qed.

Lemma truthy_trim_solid x : firstSolid x = true → truthy (trim x) = true.
Proof.
  destruct x as [|c r]; [done|]. simpl. intros Hc.
  unfold trim. simpl. destruct (isSpace c) eqn:E; [done|].
  simpl. rewrite E. by destruct (trimEnd r).
Qed.

(** A name that is none of the four: the heading is put at the end of the
    document, and the entry under it. *)
Lemma insertEntry_new_section d entry :
  isDate d = true → S ∉ defaultSections →
  insertEntry entry S (createInitialContent d) =
    trimEnd (createInitialContent d) ++ [LF; LF] ++ lit "## " ++ S ++ [LF]
    ++ entry ++ [LF].
Proof using S_one_line.
  intros Hd HS. unfold insertEntry.
  rewrite test_skeleton, bool_decide_eq_false_2 by done.
  rewrite trimEnd_skeleton.
  set (h := lit "## " ++ S).
  assert (Hjoin : join (take 9 (skeletonLines d)) ++ [LF; LF] ++ h ++ [LF]
                  = join (take 9 (skeletonLines d) ++ [[]; h; []])).
  { by rewrite join_app by done. }
  change (lit "## " ++ S ++ [LF]) with (h ++ [LF]).
  rewrite Hjoin.
  destruct (skeletonLines_plain d Hd) as [_ Hlf].
  rewrite split_join; [|done|]; last first.
  { apply Forall_app. split; [by apply Forall_take|].
    constructor; [set_solver|]. constructor; [|by repeat constructor; set_solver].
    subst h. change (lit "## " ++ S) with (35%N :: 35%N :: 32%N :: S).
    rewrite !not_elem_of_cons. done. }
  unfold skeletonLines. cbn [take app].
  pose proof (test_date_line d Hd) as H0.
  assert (Hb : test [] = false) by done.
  unfold defaultSections in HS. rewrite !not_elem_of_cons in HS.
  destruct HS as (N1 & N2 & N3 & N4 & _).
  pose proof (test_title_line (lit "Session Notes") eq_refl eq_refl eq_refl) as H1.
  pose proof (test_title_line (lit "Decisions Made") eq_refl eq_refl eq_refl) as H2.
  pose proof (test_title_line (lit "Ideas") eq_refl eq_refl eq_refl) as H3.
  pose proof (test_title_line (lit "Tasks") eq_refl eq_refl eq_refl) as H4.
  rewrite bool_decide_eq_false_2 in H1, H2, H3, H4 by done.
  pose proof test_own_line as Hh. fold h in Hh.
  change (lit "## " ++ lit "Session Notes") with (lit "## Session Notes") in H1.
  change (lit "## " ++ lit "Decisions Made") with (lit "## Decisions Made") in H2.
  change (lit "## " ++ lit "Ideas") with (lit "## Ideas") in H3.
  change (lit "## " ++ lit "Tasks") with (lit "## Tasks") in H4.
  unfold insertLine, findInsertIndex. cbn [findIndex].
  rewrite H0, !Hb, H1, H2, H3, H4, Hh.
  cbn [fmap option_fmap option_map drop findIndex length].
  change (nextSection []) with false. cbn [fmap option_fmap option_map length].
  cbn [skipBlankBack lookup list_lookup].
  change (truthy (trim [])) with false. cbv iota.
  rewrite (truthy_trim_solid h) by done.
  unfold splice. cbn [take drop app join]. subst h.
  repeat (rewrite <- app_assoc || rewrite <- app_comm_cons). done.
Qed.

(** One of the four names: the entry is put under its heading, before the
    blank line that ends the section. *)
Lemma insertEntry_default_section d entry :
  isDate d = true → S ∈ defaultSections →
  ∃ pre post,
    skeletonLines d = pre ++ (lit "## " ++ S) :: [] :: post ∧
    insertEntry entry S (createInitialContent d) =
      join (pre ++ (lit "## " ++ S) :: entry :: [] :: post).
Proof using S_one_line.
  intros Hd HS. unfold insertEntry.
  rewrite test_skeleton, bool_decide_eq_true_2 by done.
  destruct (skeletonLines_plain d Hd) as [_ Hlf].
  rewrite createInitialContent_lines, split_join by done.
  pose proof (test_date_line d Hd) as H0.
  unfold insertLine, findInsertIndex, skeletonLines in *. cbn [findIndex].
  rewrite H0. clear H0 Hlf.
  unfold defaultSections in HS. rewrite !elem_of_cons in HS.
  destruct HS as [->|[->|[->|[->|HS]]]].
  - exists [lit "# " ++ d; []],
      [lit "## Decisions Made"; []; lit "## Ideas"; []; lit "## Tasks"; []; []].
    split; [done|]. by vm_compute.
  - exists [lit "# " ++ d; []; lit "## Session Notes"; []],
      [lit "## Ideas"; []; lit "## Tasks"; []; []].
    split; [done|]. by vm_compute.
  - exists [lit "# " ++ d; []; lit "## Session Notes"; [];
            lit "## Decisions Made"; []],
      [lit "## Tasks"; []; []].
    split; [done|]. by vm_compute.
  - exists [lit "# " ++ d; []; lit "## Session Notes"; [];
            lit "## Decisions Made"; []; lit "## Ideas"; []],
      [[]].
    split; [done|]. by vm_compute.
  - by apply elem_of_nil in HS.
Qed.

End ForSection.

(** C9, amended. With no file for today, [addEntry(C, S)] for a section
    name S on one line creates the file from the four-section skeleton and
    puts the line [- [HH:MM] C] in it: for one of the four names, under
    the heading of S, where it is the last entry of the section; for any
    other name, after a heading [## S] that is appended at the end of the
    document. No other file changes. *)
Theorem addEntry_new_day dir today timestamp content S :
  dir !! fileName today = None →
  isDate today = true →
  LF ∉ S →
  let entry := lit "- [" ++ timestamp ++ lit "] " ++ content in
  let dir' := addEntry content S today timestamp dir in
  (ensureToday today dir).1 = createInitialContent today ∧
  (∀ f, f ≠ fileName today → dir' !! f = dir !! f) ∧
  (S ∈ defaultSections →
     ∃ pre post,
       skeletonLines today = pre ++ (lit "## " ++ S) :: [] :: post ∧
       dir' !! fileName today =
         Some (join (pre ++ (lit "## " ++ S) :: entry :: [] :: post))) ∧
  (S ∉ defaultSections →
     dir' !! fileName today =
       Some (trimEnd (createInitialContent today) ++ [LF; LF] ++ lit "## "
             ++ S ++ [LF] ++ entry ++ [LF])).
Proof.
  intros Hnone Hd HS entry dir'.
  assert (Hdir : dir' = <[fileName today :=
                            insertEntry entry S (createInitialContent today)]>
                          (<[fileName today := createInitialContent today]> dir)).
  { subst dir'. unfold addEntry, ensureToday. by rewrite Hnone. }
  split; [unfold ensureToday; by rewrite Hnone|].
  split; [intros f Hf; by rewrite Hdir, !lookup_insert_ne|].
  split.
  - intros Hin.
    destruct (insertEntry_default_section S HS today entry Hd Hin)
      as (pre & post & H1 & H2).
    exists pre, post. split; [done|]. by rewrite Hdir, lookup_insert_eq, H2.
  - intros Hout. rewrite Hdir, lookup_insert_eq.
    by rewrite (insertEntry_new_section S HS today entry Hd Hout).
Qed.

End DailyNotesProps.

(** ** Daily notes: [listDates], and [addEntry] on a file that exists *)

Section StringOrder.

Lemma str_ltb_irrefl a : str_ltb a a = false.
Proof.
  induction a as [|x a IH]; simpl; [done|].
  by rewrite N.ltb_irrefl, N.eqb_refl, IH.
Qed.

Lemma str_ltb_asym a b : str_ltb a b = true → str_ltb b a = false.
Proof.
  revert b. induction a as [|x a IH]; intros [|y b]; simpl; try done.
  destruct (N.ltb_spec x y), (N.ltb_spec y x), (N.eqb_spec x y),
    (N.eqb_spec y x); simpl; try done; try lia.
  apply IH.
Qed.

Lemma str_ltb_trans a b c :
  str_ltb a b = true → str_ltb b c = true → str_ltb a c = true.
Proof.
  revert b c. induction a as [|x a IH]; intros [|y b] [|z c]; simpl; try done.
  destruct (N.ltb_spec x y), (N.ltb_spec y z), (N.ltb_spec x z),
    (N.eqb_spec x y), (N.eqb_spec y z), (N.eqb_spec x z);
    simpl; try done; try lia.
  apply IH.
Qed.

Lemma str_ltb_total a b :
  str_ltb a b = false → str_ltb b a = false → a = b.
Proof.
  revert b. induction a as [|x a IH]; intros [|y b]; simpl; try done.
  destruct (N.ltb_spec x y), (N.ltb_spec y x), (N.eqb_spec x y),
    (N.eqb_spec y x); simpl; try done; try lia.
  intros Hab Hba. subst. f_equal. by apply IH.
Qed.

(** [a] is not after [b]. *)
Local Abbreviation le := (λ a b : str, str_ltb b a = false).

Lemma str_le_trans a b c : le a b → le b c → le a c.
Proof.
  cbv beta. intros Hab Hbc.
  destruct (str_ltb c a) eqn:Hca; [|done].
  destruct (str_ltb a b) eqn:Hlt.
  - by rewrite (str_ltb_trans c a b Hca Hlt) in Hbc.
  - rewrite (str_ltb_total a b Hlt Hab) in Hca. congruence.
Qed.

Lemma insertSorted_perm x l : insertSorted x l ≡ₚ x :: l.
Proof.
  induction l as [|y l IH]; simpl; [done|].
  destruct (str_ltb y x); [|done]. rewrite IH. apply Permutation_swap.
Qed.

Lemma sortStrings_perm l : sortStrings l ≡ₚ l.
Proof.
  induction l as [|x l IH]; simpl; [done|].
  unfold sortStrings in *. simpl. by rewrite insertSorted_perm, IH.
Qed.

Lemma insertSorted_Forall (P : str → Prop) x l :
  P x → Forall P l → Forall P (insertSorted x l).
Proof. intros Hx Hl. rewrite insertSorted_perm. by constructor. Qed.

Lemma insertSorted_sorted x l :
  StronglySorted le l → StronglySorted le (insertSorted x l).
Proof.
  induction 1 as [|y l Hl IH Hy]; simpl; [repeat constructor|].
  destruct (str_ltb y x) eqn:Hyx.
  - constructor; [done|]. apply insertSorted_Forall; [|done].
    by apply str_ltb_asym.
  - constructor; [by constructor|]. constructor; [done|].
    eapply Forall_impl; [exact Hy|]. intros z Hz. cbv beta in *.
    by apply (str_le_trans x y z).
Qed.

Lemma sortStrings_sorted l : StronglySorted le (sortStrings l).
Proof.
  induction l as [|x l IH]; [constructor|]. by apply insertSorted_sorted.
Qed.

(** Without duplicates, a sorted list ascends strictly. *)
Lemma sorted_strict l :
  NoDup l → StronglySorted le l →
  StronglySorted (λ a b, str_ltb a b = true) l.
Proof.
  intros Hnd Hs. induction Hs as [|x l Hl IH Hx]; [constructor|].
  apply NoDup_cons in Hnd as [Hx' Hnd]. constructor; [by apply IH|].
  apply Forall_forall. intros y Hy. rewrite Forall_forall in Hx.
  specialize (Hx y Hy). cbv beta in Hx.
  destruct (str_ltb x y) eqn:Hxy; [done|].
  pose proof (str_ltb_total x y Hxy Hx). by subst.
Qed.

Lemma sorted_reverse (R : relation str) l :
  StronglySorted R l → StronglySorted (flip R) (reverse l).
Proof.
  induction 1 as [|x l Hl IH Hx]; [constructor|].
  rewrite reverse_cons. apply StronglySorted_app_2; [|done|repeat constructor].
  intros a b Ha Hb. apply list_elem_of_singleton in Hb as ->.
  rewrite elem_of_reverse in Ha. rewrite Forall_forall in Hx.
  unfold flip.
  by apply Hx.
Qed.

Lemma sorted_lookup {A} (R : relation A) l i j a b :
  StronglySorted R l → i < j → l !! i = Some a → l !! j = Some b → R a b.
Proof.
  intros Hs. revert i j. induction Hs as [|x l Hl IH Hx]; intros i j Hij Hi Hj;
    [done|].
  destruct j as [|j]; [lia|]. destruct i as [|i]; simpl in *.
  - simplify_eq. rewrite Forall_forall in Hx. apply Hx.
    by eapply list_elem_of_lookup_2.
  - apply (IH i j); [lia|done|done].
Qed.

Lemma NoDup_omap_inj {A B} (f : A → option B) l :
  (∀ x y z, f x = Some z → f y = Some z → x = y) →
  NoDup l → NoDup (omap f l).
Proof.
  intros Hinj. induction 1 as [|x l Hx Hl IH]; simpl; [constructor|].
  destruct (f x) as [z|] eqn:Hfx; [|done].
  constructor; [|done]. intros (y & Hy & Hfy)%list_elem_of_omap.
  by rewrite (Hinj x y z Hfx Hfy) in Hx.
Qed.

End StringOrder.

Section ListDates.
Import RegExp DailyNotes.

Lemma isDate_length d : isDate d = true → length d = 10.
Proof. do 11 (destruct d as [|? d]; try done). Qed.

Lemma dateOfFile_Some f d :
  dateOfFile f = Some d ↔ isDate d = true ∧ f = fileName d.
Proof.
  unfold dateOfFile, fileName. split.
  - destruct (isDate (take 10 f)) eqn:Hd; [|done]. simpl.
    unfold str_eqb. case_bool_decide as Hmd; [|done].
    intros ?; simplify_eq. split; [done|].
    by rewrite <- Hmd, take_drop.
  - intros [Hd ->]. pose proof (isDate_length d Hd) as Hlen.
    rewrite (take_app_length' d) by done.
    rewrite (drop_app_length' d) by done.
    rewrite Hd. unfold str_eqb. by rewrite bool_decide_eq_true_2 by done.
Qed.

(** X10. [listDates] returns exactly the dates [d] for which the directory
    holds a file [d.md] with [d] of the form NNNN-NN-NN, each once, and in
    strictly descending order of their code units: the newest first. *)
Theorem listDates_newest_first (dir : Directory) :
  (∀ d, d ∈ listDates dir ↔ isDate d = true ∧ is_Some (dir !! fileName d))
  ∧ NoDup (listDates dir)
  ∧ (∀ i j a b, i < j →
       listDates dir !! i = Some a → listDates dir !! j = Some b →
       str_ltb b a = true).
Proof.
  unfold listDates.
  set (names := map fst (map_to_list dir)).
  assert (NoDup (omap dateOfFile names)) as Hnd.
  { apply NoDup_omap_inj; [|apply NoDup_fst_map_to_list].
    intros x y z [_ ->]%dateOfFile_Some [_ ->]%dateOfFile_Some. done. }
  split; [|split].
  - intros d. rewrite elem_of_reverse, sortStrings_perm, list_elem_of_omap.
    split.
    + intros (f & Hf & [Hd ->]%dateOfFile_Some). split; [done|].
      apply list_elem_of_fmap in Hf as ([f v] & Hfv & Hin). simpl in Hfv.
      subst. apply elem_of_map_to_list in Hin. eauto.
    + intros [Hd [v Hv]]. exists (fileName d). split.
      * apply list_elem_of_fmap. exists (fileName d, v). split; [done|].
        by apply elem_of_map_to_list.
      * by apply dateOfFile_Some.
  - by rewrite reverse_Permutation, sortStrings_perm.
  - intros i j a b Hij Hi Hj.
    eapply (sorted_lookup (flip (λ a b, str_ltb a b = true))); [|done..].
    apply sorted_reverse, sorted_strict; [by rewrite sortStrings_perm|].
    apply sortStrings_sorted.
Qed.

End ListDates.

Section PatternOnLines.
Import RegExp.

Variable S : str.

Local Abbreviation spacesThenEnd := (RegExp.spacesThenEnd true).
Local Abbreviation spacesThenName := (RegExp.spacesThenName true S).
Local Abbreviation headingHere := (RegExp.headingHere true S).
Local Abbreviation testFrom := (RegExp.testFrom true S).
Local Abbreviation test := (RegExp.sectionPattern_test true S).

Lemma startsWith_app p s z : startsWith p s = true → startsWith p (s ++ z) = true.
Proof.
  intros [y ->]%startsWith_prefix. rewrite <- app_assoc. apply startsWith_self.
Qed.

(** What matches up to the end of a line still matches when more lines
    follow. *)
Lemma spacesThenEnd_extend x y :
  spacesThenEnd x = true → spacesThenEnd (x ++ LF :: y) = true.
Proof.
  induction x as [|c x IH]; [done|]. cbn [app RegExp.spacesThenEnd].
  cbn [RegExp.atLineEnd]. destruct (true && isLineTerminator c); [done|].
  cbn [orb]. intros [Hc Hx]%andb_prop. by rewrite Hc, IH.
Qed.

Lemma spacesThenName_extend x y :
  spacesThenName x = true → spacesThenName (x ++ LF :: y) = true.
Proof.
  induction x as [|c x IH]; [done|]. cbn [app RegExp.spacesThenName].
  intros [Hc Hx]%andb_prop. rewrite Hc. cbn [andb].
  apply orb_prop in Hx as [[Hs He]%andb_prop|Hx].
  - rewrite (startsWith_app _ _ _ Hs). cbn [andb].
    apply startsWith_prefix in Hs as [q ->].
    rewrite <- app_assoc, drop_app_length.
    rewrite drop_app_length in He. by rewrite spacesThenEnd_extend.
  - rewrite IH by done. apply orb_true_r.
Qed.

Lemma headingHere_extend x y :
  headingHere x = true → headingHere (x ++ LF :: y) = true.
Proof.
  destruct x as [|a [|b x]]; [done|done|]. cbn [app RegExp.headingHere].
  intros [Hab Hx]%andb_prop. by rewrite Hab, spacesThenName_extend.
Qed.

Lemma testFrom_extend b x y :
  testFrom b x = true → testFrom b (x ++ LF :: y) = true.
Proof.
  revert b. induction x as [|c x IH]; intros b.
  - simpl. by rewrite andb_false_r.
  - cbn [app RegExp.testFrom].
    intros [[-> Hh]%andb_prop|Hx]%orb_prop.
    + change ((c :: x) ++ LF :: y) with (c :: x ++ LF :: y) in *.
      pose proof (headingHere_extend (c :: x) y Hh) as H.
      cbn [app] in H. by rewrite H.
    + rewrite IH by done. apply orb_true_r.
Qed.

Lemma testFrom_skip b x y :
  testFrom true y = true → testFrom b (x ++ LF :: y) = true.
Proof.
  intros Hy. revert b. induction x as [|c x IH]; intros b.
  - cbn [app RegExp.testFrom]. change (true && isLineTerminator LF) with true.
    rewrite Hy. apply orb_true_r.
  - cbn [app RegExp.testFrom]. rewrite IH. apply orb_true_r.
Qed.

(** A document with a line the pattern matches is matched as a whole. *)
Lemma test_join_line pre h post :
  test h = true → test (join (pre ++ h :: post)) = true.
Proof.
  intros Hh. unfold RegExp.sectionPattern_test in *.
  induction pre as [|l pre IH].
  - destruct post as [|p post]; [done|].
    cbn [app]. rewrite join_cons by done. by apply testFrom_extend.
  - change ((l :: pre) ++ h :: post) with (l :: (pre ++ h :: post)).
    rewrite join_cons by (by destruct pre). by apply testFrom_skip.
Qed.

End PatternOnLines.

Section AddEntryExisting.
Import RegExp DailyNotes.

Lemma skipBlankBack_blanks A blanks rest :
  Forall (λ l, truthy (trim l) = false) blanks →
  skipBlankBack (A ++ blanks ++ rest) (length A + length blanks)
  = skipBlankBack (A ++ blanks ++ rest) (length A).
Proof.
  revert rest. induction blanks as [|b blanks IH] using rev_ind; intros rest Hb.
  - simpl. by rewrite Nat.add_0_r.
  - apply Forall_app in Hb as [Hbl Hb]. apply Forall_cons in Hb as [Hb _].
    rewrite length_app. simpl.
    replace (length A + (length blanks + 1)) with (S (length A + length blanks))
      by lia.
    cbn [skipBlankBack].
    rewrite <- (app_assoc blanks [b] rest). cbn [app].
    assert ((A ++ blanks ++ b :: rest) !! (length A + length blanks) = Some b)
      as ->.
    { rewrite lookup_app_r by lia.
      replace (length A + length blanks - length A) with (length blanks) by lia.
      by rewrite list_lookup_middle. }
    rewrite Hb. by apply IH.
Qed.

Lemma skipBlankBack_solid A l rest :
  truthy (trim l) = true →
  skipBlankBack (A ++ l :: rest) (Datatypes.S (length A))
  = Datatypes.S (length A).
Proof.
  intros Hl. cbn [skipBlankBack]. rewrite list_lookup_middle by done.
  by rewrite Hl.
Qed.

(** Where the loops of [addEntry] put the entry in a document that has the
    section: after the last line of the section that is not blank. *)
Lemma insertLine_section (test : str → bool) pre h body blanks rest entry :
  Forall (λ l, test l = false) pre →
  test h = true →
  Forall (λ l, nextSection l = false) (body ++ blanks) →
  head rest = None ∨ (∃ l, head rest = Some l ∧ nextSection l = true) →
  Forall (λ l, truthy (trim l) = false) blanks →
  truthy (trim (default h (last body))) = true →
  insertLine test (pre ++ h :: body ++ blanks ++ rest) entry
  = pre ++ h :: body ++ entry :: blanks ++ rest.
Proof.
  intros Hpre Hh Hbody Hrest Hblanks Hlast.
  set (lines := pre ++ h :: body ++ blanks ++ rest).
  assert (∃ A l, pre ++ h :: body = A ++ [l] ∧ truthy (trim l) = true)
    as (A & l & HA & Hl).
  { destruct body as [|b body] using rev_ind.
    - exists pre, h. done.
    - rewrite last_snoc in Hlast. exists (pre ++ h :: body), b.
      split; [|done]. by rewrite <- app_assoc. }
  assert (lines = (A ++ [l]) ++ blanks ++ rest) as Hlines.
  { subst lines. rewrite <- HA. by rewrite <- !app_assoc. }
  assert (findInsertIndex test lines = length (A ++ [l]) + length blanks)
    as Hfind.
  { unfold findInsertIndex. subst lines.
    rewrite (findIndex_first test pre h) by done.
    rewrite (cons_middle h pre), app_assoc.
    rewrite (drop_app_length' (pre ++ [h]))
      by (rewrite length_app; simpl; lia).
    rewrite <- HA.
    destruct Hrest as [Hnone|(r & Hr & Hnext)].
    - destruct rest as [|? ?]; [|done].
      rewrite app_nil_r, (findIndex_none _ (body ++ blanks)) by done.
      rewrite !length_app. simpl. lia.
    - destruct rest as [|r' rest']; [done|]. simpl in Hr. simplify_eq.
      rewrite app_assoc.
      rewrite (findIndex_first _ (body ++ blanks) r rest') by done.
      rewrite !length_app. simpl. lia. }
  unfold insertLine. rewrite Hfind, Hlines.
  rewrite skipBlankBack_blanks by done.
  rewrite <- (app_assoc A [l]). cbn [app].
  replace (length (A ++ [l])) with (Datatypes.S (length A))
    by (rewrite length_app; simpl; lia).
  rewrite skipBlankBack_solid by done.
  unfold splice.
  rewrite (cons_middle l A), app_assoc.
  rewrite (take_app_length' (A ++ [l])) by (rewrite length_app; simpl; lia).
  rewrite (drop_app_length' (A ++ [l])) by (rewrite length_app; simpl; lia).
  rewrite <- HA. by rewrite <- !app_assoc.
Qed.

Section ForSection.

Variable S : str.
Local Abbreviation test := (RegExp.sectionPattern_test true S).

(** The entry [addEntry] writes. *)
Lemma entry_line timestamp content :
  let entry := lit "- [" ++ timestamp ++ lit "] " ++ content in
  nextSection entry = false ∧ truthy (trim entry) = true
  ∧ (LF ∉ timestamp → LF ∉ content → LF ∉ entry).
Proof.
  intros entry. subst entry.
  change (lit "- [" ++ timestamp ++ lit "] " ++ content)
    with (45%N :: 32%N :: 91%N :: timestamp ++ 93%N :: 32%N :: content).
  split; [done|]. split; [by apply truthy_trim_solid|].
  intros Ht Hc. rewrite !not_elem_of_cons, not_elem_of_app, !not_elem_of_cons.
  done.
Qed.

Lemma insertEntry_section fileContent pre h body blanks rest entry :
  split fileContent = pre ++ h :: body ++ blanks ++ rest →
  Forall (λ l, test l = false) pre →
  test h = true →
  Forall (λ l, nextSection l = false) (body ++ blanks) →
  head rest = None ∨ (∃ l, head rest = Some l ∧ nextSection l = true) →
  Forall (λ l, truthy (trim l) = false) blanks →
  truthy (trim (default h (last body))) = true →
  insertEntry entry S fileContent
  = join (pre ++ h :: body ++ entry :: blanks ++ rest).
Proof.
  intros Hsplit Hpre Hh Hbody Hrest Hblanks Hlast. unfold insertEntry.
  assert (test fileContent = true) as ->.
  { rewrite <- (join_split fileContent), Hsplit. by apply test_join_line. }
  rewrite Hsplit. by rewrite insertLine_section.
Qed.

End ForSection.

(** X11. [addEntry] on a day whose file has the section: the entry line
    is put after the last line of the section that is not blank (after the
    heading when the section has none), before the blank lines that end
    the section; every other line stays where it is, and no other file
    changes. The section is the first heading line the pattern matches,
    and it ends at the next line that starts with [## ] or at the end of
    the file. *)
Theorem addEntry_appends_to_section dir today timestamp content S
    fileContent pre h body blanks rest :
  dir !! fileName today = Some fileContent →
  split fileContent = pre ++ h :: body ++ blanks ++ rest →
  Forall (λ l, sectionPattern_test true S l = false) pre →
  sectionPattern_test true S h = true →
  Forall (λ l, nextSection l = false) (body ++ blanks) →
  head rest = None ∨ (∃ l, head rest = Some l ∧ nextSection l = true) →
  Forall (λ l, truthy (trim l) = false) blanks →
  truthy (trim (default h (last body))) = true →
  let entry := lit "- [" ++ timestamp ++ lit "] " ++ content in
  let dir' := addEntry content S today timestamp dir in
  dir' !! fileName today
    = Some (join (pre ++ h :: body ++ entry :: blanks ++ rest))
  ∧ (∀ f, f ≠ fileName today → dir' !! f = dir !! f).
Proof.
  intros Hfile Hsplit Hpre Hh Hbody Hrest Hblanks Hlast entry dir'.
  subst dir'. unfold addEntry, ensureToday. rewrite Hfile. split.
  - rewrite lookup_insert_eq. f_equal.
    by apply (insertEntry_section S fileContent pre h body blanks rest).
  - intros f Hf. by rewrite lookup_insert_ne.
Qed.

(** X12. On a day whose file has a heading line for S (the first line
    the heading pattern matches; the section runs to the next line that
    starts with [## ] or to the end of the file), two calls of [addEntry]
    for S leave their entries next to each other in the order of the
    calls, after the last line of that section that is not blank and
    before the blank lines that end it, when the first timestamp and
    content hold no line feed. *)
Theorem addEntry_keeps_call_order dir today S t1 c1 t2 c2
    fileContent pre h body blanks rest :
  dir !! fileName today = Some fileContent →
  split fileContent = pre ++ h :: body ++ blanks ++ rest →
  Forall (λ l, sectionPattern_test true S l = false) pre →
  sectionPattern_test true S h = true →
  Forall (λ l, nextSection l = false) (body ++ blanks) →
  head rest = None ∨ (∃ l, head rest = Some l ∧ nextSection l = true) →
  Forall (λ l, truthy (trim l) = false) blanks →
  truthy (trim (default h (last body))) = true →
  LF ∉ t1 → LF ∉ c1 →
  let e1 := lit "- [" ++ t1 ++ lit "] " ++ c1 in
  let e2 := lit "- [" ++ t2 ++ lit "] " ++ c2 in
  addEntry c2 S today t2 (addEntry c1 S today t1 dir) !! fileName today
    = Some (join (pre ++ h :: body ++ e1 :: e2 :: blanks ++ rest)).
Proof.
  intros Hfile Hsplit Hpre Hh Hbody Hrest Hblanks Hlast Ht1 Hc1 e1 e2.
  destruct (entry_line t1 c1) as (Hn1 & Hs1 & Hlf1). fold e1 in Hn1, Hs1, Hlf1.
  set (dir1 := addEntry c1 S today t1 dir).
  assert (dir1 !! fileName today
          = Some (join (pre ++ h :: (body ++ [e1]) ++ blanks ++ rest)))
    as Hfile1.
  { subst dir1. unfold addEntry, ensureToday. rewrite Hfile.
    rewrite lookup_insert_eq. f_equal. rewrite <- (app_assoc body [e1]).
    by apply (insertEntry_section S fileContent pre h body blanks rest). }
  unfold addEntry at 1. unfold ensureToday. rewrite Hfile1.
  rewrite lookup_insert_eq. f_equal.
  rewrite (insertEntry_section S _ pre h (body ++ [e1]) blanks rest).
  - by rewrite <- (app_assoc body [e1]).
  - apply split_join; [by destruct pre|].
    pose proof (split_lines_no_LF fileContent) as Hlines.
    rewrite Hsplit in Hlines.
    apply Forall_app in Hlines as [Hl1 Hl2].
    apply Forall_cons in Hl2 as [Hl2 Hl3].
    apply Forall_app in Hl3 as [Hl3 Hl4].
    apply Forall_app. split; [done|]. constructor; [done|].
    rewrite <- (app_assoc body [e1]). apply Forall_app. split; [done|].
    constructor; [by apply Hlf1|done].
  - done.
  - done.
  - apply Forall_app in Hbody as [Hb1 Hb2].
    rewrite <- (app_assoc body [e1]). apply Forall_app. split; [done|].
    by constructor.
  - done.
  - done.
  - by rewrite last_snoc.
Qed.

End AddEntryExisting.

Section SearchNotes.
Import RegExp DailyNotes.

Context (compile_i : str → str → nat → option nat).
Context (dateOf : str → str).

Local Abbreviation searchDates := (DailyNotes.searchDates dateOf).
Local Abbreviation search := (DailyNotes.search compile_i dateOf).

Lemma test_keeps_pattern r s :
  global r = true →
  exec (test r s).2 = exec r ∧ global (test r s).2 = true
  ∧ ((test r s).1 = true → ∃ i, is_Some (exec r s i)).
Proof.
  intros Hg. unfold test. rewrite Hg.
  destruct (length s <? lastIndex r); [done|].
  destruct (exec r s (lastIndex r)) as [e|] eqn:He; [|done].
  simpl. split; [done|]. split; [done|]. eauto.
Qed.

Lemma searchLines_sound r d lines :
  global r = true →
  exec (searchLines r d lines).2 = exec r
  ∧ global (searchLines r d lines).2 = true
  ∧ Forall (λ x, x.1 = d ∧ x.2 ∈ lines ∧ ∃ i, is_Some (exec r x.2 i))
      (searchLines r d lines).1.
Proof.
  revert r. induction lines as [|l lines IH]; intros r Hg; simpl.
  - split; [done|]. split; [done|]. constructor.
  - destruct (test_keeps_pattern r l Hg) as (He & Hg1 & Hfound).
    destruct (test r l) as [found r1]. simpl in *.
    destruct (IH r1 Hg1) as (He2 & Hg2 & Hall).
    destruct (searchLines r1 d lines) as [more r2]. simpl in *.
    rewrite He in He2. split; [done|]. split; [done|].
    assert (Forall (λ x : str * str,
              x.1 = d ∧ x.2 ∈ l :: lines ∧ ∃ i, is_Some (exec r x.2 i)) more)
      as Hmore.
    { eapply Forall_impl; [exact Hall|]. intros x (H1 & H2 & H3).
      rewrite He in H3. split; [done|]. split; [by right|done]. }
    destruct found; [|done]. constructor; [|done].
    simpl. split; [done|]. split; [by left|]. by apply Hfound.
Qed.

Lemma searchDates_sound r dates dir :
  global r = true →
  Forall (λ x, x.1 ∈ dates ∧ x.2 ∈ split (readDate (dateOf x.1) dir)
               ∧ ∃ i, is_Some (exec r x.2 i))
    (searchDates r dates dir).
Proof.
  revert r. induction dates as [|d dates IH]; intros r Hg; simpl;
    [constructor|].
  destruct (searchLines_sound r d (split (readDate (dateOf d) dir)) Hg)
    as (He & Hg1 & Hall).
  destruct (searchLines r d _) as [results r1]. simpl in *.
  apply Forall_app. split.
  - eapply Forall_impl; [exact Hall|]. intros x (-> & H2 & H3).
    split; [by left|done].
  - eapply Forall_impl; [exact (IH r1 Hg1)|]. intros x (H1 & H2 & H3).
    rewrite He in H3. split; [by right|done].
Qed.

(** X21. Every result of [search] names a date that [listDates] lists,
    and its line is a line of the file read for that date in which the
    pattern matches somewhere. *)
Theorem search_results_are_lines (pattern : str) (dir : Directory) :
  Forall (λ x, x.1 ∈ listDates dir
               ∧ x.2 ∈ split (readDate (dateOf x.1) dir)
               ∧ ∃ i, is_Some (compile_i pattern x.2 i))
    (search pattern dir).
Proof.
  unfold DailyNotes.search.
  exact (searchDates_sound
           {| exec := compile_i pattern; global := true; lastIndex := 0 |}
           (listDates dir) dir eq_refl).
Qed.

End SearchNotes.

Section AddEntryMissing.
Import RegExp DailyNotes.

Variable S : str.

Local Abbreviation spacesThenEnd := (RegExp.spacesThenEnd true).
Local Abbreviation spacesThenName := (RegExp.spacesThenName true S).
Local Abbreviation headingHere := (RegExp.headingHere true S).
Local Abbreviation testFrom := (RegExp.testFrom true S).
Local Abbreviation test := (RegExp.sectionPattern_test true S).

Lemma trimEnd_rest s : ∃ ws, s = trimEnd s ++ ws ∧ isBlank ws = true.
Proof.
  induction s as [|c r (ws & Hr & Hws)]; [by exists []|]. simpl.
  destruct (trimEnd r) as [|d r'] eqn:E.
  - simpl in Hr. subst ws. destruct (isSpace c) eqn:Hc.
    + exists (c :: r). simpl. by rewrite Hc.
    + by exists r.
  - exists ws. split; [|done]. simpl. by rewrite Hr at 1.
Qed.

Lemma spacesThenEnd_blank w : isBlank w = true → spacesThenEnd w = true.
Proof.
  induction w as [|c w IH]; [done|]. simpl.
  intros [Hc Hw]%andb_prop. rewrite Hc, IH by done. apply orb_true_r.
Qed.

(** What matches up to the end of the text still matches when text
    follows that [\s*$] matches. *)
Lemma spacesThenEnd_app x y :
  spacesThenEnd x = true → spacesThenEnd y = true →
  spacesThenEnd (x ++ y) = true.
Proof.
  intros Hx Hy. induction x as [|c x IH]; [done|].
  revert Hx. cbn [app RegExp.spacesThenEnd RegExp.atLineEnd].
  destruct (true && isLineTerminator c); [done|]. cbn [orb].
  intros [Hc Hx]%andb_prop. by rewrite Hc, IH.
Qed.

Lemma spacesThenName_app x y :
  spacesThenName x = true → spacesThenEnd y = true →
  spacesThenName (x ++ y) = true.
Proof.
  intros Hx Hy. induction x as [|c x IH]; [done|].
  revert Hx. cbn [app RegExp.spacesThenName].
  intros [Hc Hx]%andb_prop. rewrite Hc. cbn [andb].
  apply orb_prop in Hx as [[Hs He]%andb_prop|Hx].
  - rewrite (startsWith_app _ _ _ Hs). cbn [andb].
    apply startsWith_prefix in Hs as [q ->].
    rewrite <- app_assoc, drop_app_length.
    rewrite drop_app_length in He. by rewrite spacesThenEnd_app.
  - rewrite IH by done. apply orb_true_r.
Qed.

Lemma headingHere_app x y :
  headingHere x = true → spacesThenEnd y = true →
  headingHere (x ++ y) = true.
Proof.
  destruct x as [|a [|b x]]; [done|done|]. cbn [app RegExp.headingHere].
  intros [Hab Hx]%andb_prop Hy. by rewrite Hab, spacesThenName_app.
Qed.

Lemma testFrom_app b x y :
  testFrom b x = true → spacesThenEnd y = true → testFrom b (x ++ y) = true.
Proof.
  intros Hx Hy. revert b Hx. induction x as [|c x IH]; intros b.
  - simpl. by rewrite andb_false_r.
  - cbn [app RegExp.testFrom].
    intros [[-> Hh]%andb_prop|Hx]%orb_prop.
    + pose proof (headingHere_app (c :: x) y Hh Hy) as H.
      cbn [app] in H. by rewrite H.
    + rewrite IH by done. apply orb_true_r.
Qed.

(** A line of the document without its trailing white space that the
    pattern matches makes the pattern match the document. *)
Lemma test_line_of_trimmed fileContent l :
  l ∈ split (trimEnd fileContent) → test l = true → test fileContent = true.
Proof.
  intros Hl Ht. destruct (trimEnd_rest fileContent) as (ws & Hc & Hws).
  rewrite Hc. apply testFrom_app; [|by apply spacesThenEnd_blank].
  apply list_elem_of_split in Hl as (pre & post & Hsplit).
  rewrite <- (join_split (trimEnd fileContent)), Hsplit.
  by apply test_join_line.
Qed.

(** The text [addEntry] computes for a document that lacks the section. *)
Lemma insertEntry_missing_section fileContent entry :
  LF ∉ S →
  test fileContent = false →
  insertEntry entry S fileContent =
    trimEnd fileContent ++ [LF; LF] ++ lit "## " ++ S ++ [LF] ++ entry ++ [LF].
Proof.
  intros HS Hno. unfold insertEntry. rewrite Hno.
  set (T := trimEnd fileContent). set (h := lit "## " ++ S).
  assert (LF ∉ h) as Hh.
  { subst h. change (lit "## " ++ S) with (35%N :: 35%N :: 32%N :: S).
    rewrite !not_elem_of_cons. done. }
  assert (split (T ++ [LF; LF] ++ lit "## " ++ S ++ [LF])
          = (split T ++ [[]]) ++ h :: [] ++ [[]] ++ []) as Hsplit.
  { change (T ++ [LF; LF] ++ lit "## " ++ S ++ [LF])
      with (T ++ LF :: ([] ++ LF :: (h ++ LF :: []))).
    rewrite !split_app_LF, (split_no_LF h) by done.
    by rewrite <- !app_assoc. }
  rewrite Hsplit.
  rewrite (insertLine_section test (split T ++ [[]]) h [] [[]] [] entry).
  - rewrite <- !app_assoc. cbn [app].
    rewrite join_app by (try apply split_nonempty; done).
    rewrite join_split. cbn [join]. subst h T.
    by rewrite <- !app_assoc.
  - apply Forall_app. split; [|by repeat constructor].
    apply Forall_forall. intros l Hl.
    destruct (test l) eqn:Hlt; [|done].
    by rewrite (test_line_of_trimmed fileContent l Hl Hlt) in Hno.
  - apply test_own_line.
  - by repeat constructor.
  - by left.
  - by repeat constructor.
  - by apply truthy_trim_solid.
Qed.

End AddEntryMissing.

(** X22. [addEntry(content, S)] on a day whose file exists and whose text
    the heading pattern of S does not match ([sectionPattern.test] of the
    whole text, under the [m] flag), S holding no line feed: the file
    becomes its text without trailing white space, an empty line, the
    heading [## S], the entry line, and a final line feed; no other file
    changes. Such a file has no line that the pattern matches; the
    converse fails, since [\s+] can run across the end of a line. *)
Theorem addEntry_adds_missing_section (dir : DailyNotes.Directory)
    (today timestamp content S fileContent : str) :
  dir !! DailyNotes.fileName today = Some fileContent →
  RegExp.sectionPattern_test true S fileContent = false →
  LF ∉ S →
  let entry := lit "- [" ++ timestamp ++ lit "] " ++ content in
  let dir' := DailyNotes.addEntry content S today timestamp dir in
  dir' !! DailyNotes.fileName today
    = Some (trimEnd fileContent ++ [LF; LF] ++ lit "## " ++ S ++ [LF]
            ++ entry ++ [LF])
  ∧ (∀ f, f ≠ DailyNotes.fileName today → dir' !! f = dir !! f)
  ∧ Forall (λ l, RegExp.sectionPattern_test true S l = false)
      (split fileContent).
Proof.
  intros Hfile Hno HS entry dir'. subst dir'.
  unfold DailyNotes.addEntry, DailyNotes.ensureToday. rewrite Hfile.
  split; [|split].
  - rewrite lookup_insert_eq. f_equal.
    by apply insertEntry_missing_section.
  - intros f Hf. by rewrite lookup_insert_ne.
  - apply Forall_forall. intros l Hl.
    destruct (RegExp.sectionPattern_test true S l) eqn:Hlt; [|done].
    apply list_elem_of_split in Hl as (pre & post & Hsplit).
    rewrite <- (join_split fileContent), Hsplit in Hno.
    by rewrite (test_join_line S pre l post Hlt) in Hno.
Qed.

(** ** The definitions at work *)

Section Examples.
Import Transcript Sample.

Ltac by_computation := apply (bool_decide_unpack _); vm_compute; exact I.

(** C5 does not hold of the code. [search] builds its pattern with the [g]
    flag and calls [test] with the one object on every line, so that a
    match leaves [lastIndex] behind for the next line: of two bullets in a
    row that hold [max], both [LongTermMemory.search] and
    [DailyNotes.search] return the first only, although [test] on a new
    object finds the pattern in the second as well. *)
Theorem search_omits_matching_lines :
  let regex :=
    {| RegExp.exec := RegExp.literal_i (lit "max"); RegExp.global := true;
       RegExp.lastIndex := 0 |} in
  split (LongTermMemory.read memoryMax).1 =
    [lit "## People"; lit "- Dog: Max"; lit "- max likes walks"; []] ∧
  (RegExp.test regex (lit "- Dog: Max")).1 = true ∧
  (RegExp.test regex (lit "- max likes walks")).1 = true ∧
  (LongTermMemory.search RegExp.literal_i (lit "max") memoryMax).1 =
    [lit "- Dog: Max"] ∧
  DailyNotes.listDates notesMax = [lit "2026-01-30"] ∧
  split (DailyNotes.readDate (lit "2026-01-30") notesMax) =
    [lit "# 2026-01-30"; []; lit "## Ideas"; lit "- [10:30] walk Max";
     lit "- [10:31] max likes walks"; []] ∧
  (RegExp.test regex (lit "- [10:30] walk Max")).1 = true ∧
  (RegExp.test regex (lit "- [10:31] max likes walks")).1 = true ∧
  DailyNotes.search RegExp.literal_i (λ d, d) (lit "max") notesMax =
    [(lit "2026-01-30", lit "- [10:30] walk Max")].
Proof. vm_compute. repeat split. Qed.

(** C2 as stated fails for a fact that spans two lines, and for a section
    name with a trailing space: the second [addFact] reports "added" again
    and writes the file a second time. It fails as well where the section
    holds the fact on a line without a bullet mark: [hasFact] compares
    every line, and the first [addFact] already reports "not added". *)
Lemma addFact_twice_counterexample :
  let lower := LongTermMemory.asciiLower in
  let twoLines := lit "a" ++ [LF] ++ lit "b" in
  let r1 := LongTermMemory.addFact lower (lit "Facts") twoLines true freshMemory in
  let r2 := LongTermMemory.addFact lower (lit "Facts") twoLines true r1.2 in
  let q1 := LongTermMemory.addFact lower (lit "People ") (lit "Dog: Max") true
              freshMemory in
  let q2 := LongTermMemory.addFact lower (lit "People ") (lit "Dog: Max") true
              q1.2 in
  (LongTermMemory.hasFact lower (lit "Facts") twoLines freshMemory).1 = false ∧
  r1.1 = true ∧ r2.1 = true ∧
  LongTermMemory.file r2.2 ≠ LongTermMemory.file r1.2 ∧
  (LongTermMemory.hasFact lower (lit "People ") (lit "Dog: Max") freshMemory).1
    = false ∧
  q1.1 = true ∧ q2.1 = true ∧
  LongTermMemory.file q2.2 ≠ LongTermMemory.file q1.2 ∧
  (LongTermMemory.getSection (lit "People") memoryPlainLine).1
    = Some (lit "Dog: Max") ∧
  (LongTermMemory.addFact lower (lit "People") (lit "Dog: Max") true
     memoryPlainLine).1 = false.
Proof. vm_compute. repeat split; discriminate. Qed.

(** C9 as stated fails for the section name [Ideas] followed by a line
    feed: the pattern matches across the end of the line [## Ideas], so no
    heading is appended, no single line matches, and the entry lands at the
    end of the document, under [## Tasks]. *)
Lemma addEntry_counterexample :
  let name := lit "Ideas" ++ [LF] in
  let dir' := DailyNotes.addEntry (lit "Shipped v1") name (lit "2026-01-30")
                (lit "10:30") ∅ in
  name ∉ DailyNotes.defaultSections ∧
  RegExp.sectionPattern_test true name
    (DailyNotes.createInitialContent (lit "2026-01-30")) = true ∧
  split <$> (dir' !! DailyNotes.fileName (lit "2026-01-30")) =
    Some [lit "# 2026-01-30"; []; lit "## Session Notes"; [];
          lit "## Decisions Made"; []; lit "## Ideas"; []; lit "## Tasks";
          lit "- [10:30] Shipped v1"; []; []].
Proof.
  split; [by_computation|]. vm_compute. by split.
Qed.

(** C8 as stated fails for a line that is JSON text but holds no entry
    record. The line [5] is not skipped: the number is pushed as an entry,
    and nothing is reported. The line [null] is reported, and [null] is
    held as an entry all the same. *)
Lemma load_keeps_foreign_line_counterexample :
  let parse := parseAny [entry1; entry2] in
  let r := UntypedTranscript.load parse (UntypedTranscript.new path)
             numberWorld in
  let q := UntypedTranscript.load parse (UntypedTranscript.new path)
             nullWorld in
  split (trim numberFile) = [stringify entry1; lit "5"; stringify entry2] ∧
  UntypedTranscript.entries r.1 =
    [UntypedTranscript.PRecord entry1; UntypedTranscript.POther (lit "5");
     UntypedTranscript.PRecord entry2] ∧
  console r.2 = [] ∧
  split (trim nullFile) = [stringify entry1; lit "null"; stringify entry2] ∧
  UntypedTranscript.entries q.1 =
    [UntypedTranscript.PRecord entry1; UntypedTranscript.PNull;
     UntypedTranscript.PRecord entry2] ∧
  console q.2 = [lit "null"].
Proof. vm_compute. repeat split. Qed.

(** The hypotheses of [load_skips_unparsable_line] hold of a file whose
    second line is cut short. *)
Lemma load_skips_unparsable_line_witness :
  let parse := parseAny [entry1; entry2] in
  let r := UntypedTranscript.load parse (UntypedTranscript.new path)
             damagedWorld in
  disk damagedWorld !! path = Some damagedFile ∧
  split (trim damagedFile) =
    [stringify entry1] ++ lit "{ broken" :: [stringify entry2] ∧
  truthy (trim (lit "{ broken")) = true ∧
  parse (lit "{ broken") = None ∧
  UntypedTranscript.entries r.1 =
    [UntypedTranscript.PRecord entry1; UntypedTranscript.PRecord entry2] ∧
  console r.2 = [lit "{ broken"].
Proof.
  intros parse r.
  assert (H1 : disk damagedWorld !! path = Some damagedFile) by by vm_compute.
  assert (H2 : split (trim damagedFile) =
               [stringify entry1] ++ lit "{ broken" :: [stringify entry2])
    by by vm_compute.
  assert (H3 : truthy (trim (lit "{ broken")) = true) by by vm_compute.
  assert (H4 : parse (lit "{ broken") = None) by by vm_compute.
  destruct (load_skips_unparsable_line parse path damagedWorld damagedFile
              [stringify entry1] (lit "{ broken") [stringify entry2]
              H1 H2 H3 H4) as (_ & He & _ & _ & Hc & _).
  split; [exact H1|]. split; [exact H2|]. split; [exact H3|].
  split; [exact H4|]. split.
  - etrans; [exact He|]. by vm_compute.
  - etrans; [exact Hc|]. by vm_compute.
Defined.

(** The hypotheses of [append_reload_roundtrip] hold of a first message
    appended to a transcript that has no file yet. *)
Lemma append_reload_roundtrip_witness :
  let uuid := lit "id-1" in
  let now := lit "2026-01-30T09:15:00.000Z" in
  let parse := Sample.parse [entry1] in
  let r := append countCodeUnits parse stringify hello uuid now (new path)
             emptyWorld in
  endsLines (disk emptyWorld !! filePath (new path)) ∧
  oneLineRecord (stringify r.1) ∧
  parse (stringify r.1) = Some entry1 ∧
  sameRecord r.1 entry1 ∧
  last (getEntries (reload parse r.2.1 r.2.2).1) = Some entry1.
Proof.
  intros uuid now parse r.
  assert (H1 : endsLines (disk emptyWorld !! filePath (new path))) by done.
  assert (H2 : oneLineRecord (stringify r.1)).
  { split; [by_computation|]. by vm_compute. }
  assert (H3 : parse (stringify r.1) = Some entry1) by by vm_compute.
  assert (H4 : sameRecord r.1 entry1) by (by vm_compute).
  pose proof (append_reload_roundtrip countCodeUnits parse stringify
                (new path) emptyWorld hello uuid now entry1 H1 H2 H3 H4)
    as (Hlast & _).
  split; [exact H1|]. split; [exact H2|]. split; [exact H3|].
  split; [exact H4|exact Hlast].
Defined.

(** The hypotheses of [getSection_first_match] hold of a document with
    two sections titled [A]; the body read is that of the first. *)
Lemma getSection_first_match_witness :
  split (LongTermMemory.read memoryTwiceA).1 =
    [] ++ lit "## A" :: [lit "first"]
    ++ [lit "## B"; lit "x"; lit "## A"; lit "second"] ∧
  Markdown.headingTitle (lit "## A") = Some (lit "A") ∧
  Forall (λ l, Markdown.isHeading l = false) [lit "first"] ∧
  (LongTermMemory.getSection (lit "A") memoryTwiceA).1 = Some (lit "first").
Proof.
  assert (H1 : split (LongTermMemory.read memoryTwiceA).1 =
               [] ++ lit "## A" :: [lit "first"]
               ++ [lit "## B"; lit "x"; lit "## A"; lit "second"])
    by by vm_compute.
  assert (H2 : Markdown.headingTitle (lit "## A") = Some (lit "A"))
    by by vm_compute.
  assert (H3 : Forall (λ l, Markdown.isHeading l = false) [lit "first"])
    by (by repeat constructor).
  pose proof (getSection_first_match memoryTwiceA (lit "A") [] (lit "## A")
                [lit "first"] [lit "## B"; lit "x"; lit "## A"; lit "second"]
                H1 (List.Forall_nil _) H2 H3
                (or_intror (ex_intro _ (lit "## B")
                   (ex_intro _ [lit "x"; lit "## A"; lit "second"]
                      (conj eq_refl eq_refl))))) as H.
  split; [exact H1|]. split; [exact H2|]. split; [exact H3|].
  rewrite H. by vm_compute.
Defined.

(** The hypotheses of [addFact_twice] hold of a new memory, the section
    [People], the fact [Dog: Max] and its variant in lower case with
    spaces around it. *)
Lemma addFact_twice_witness :
  let lower := LongTermMemory.asciiLower in
  let S := lit "People" in
  let F := lit "Dog: Max" in
  let F' := lit "  dog: max " in
  let r1 := LongTermMemory.addFact lower S F true freshMemory in
  let r2 := LongTermMemory.addFact lower S F' true r1.2 in
  Markdown.isTitle S ∧ LF ∉ F ∧
  LongTermMemory.normalize lower F' = LongTermMemory.normalize lower F ∧
  (LongTermMemory.hasFact lower S F freshMemory).1 = false ∧
  r1.1 = true ∧ r2.1 = false ∧ r2.2 = r1.2.
Proof.
  intros lower S F F' r1 r2.
  assert (H1 : Markdown.isTitle S).
  { split; [by_computation|]. by vm_compute. }
  assert (H2 : LF ∉ F) by by_computation.
  assert (H3 : LongTermMemory.normalize lower F'
               = LongTermMemory.normalize lower F) by by vm_compute.
  assert (H4 : (LongTermMemory.hasFact lower S F freshMemory).1 = false)
    by by vm_compute.
  pose proof (addFact_twice lower freshMemory S F F' H1 H2 H3 H4)
    as (Ha & Hb & Hc & _).
  split; [exact H1|]. split; [exact H2|]. split; [exact H3|].
  split; [exact H4|]. split; [exact Ha|]. split; [exact Hb|exact Hc].
Defined.

(** The hypotheses of [addEntry_new_day] hold of an empty directory and
    the section [Decisions Made]. *)
Lemma addEntry_new_day_witness :
  let today := lit "2026-01-30" in
  let S := lit "Decisions Made" in
  let dir' := DailyNotes.addEntry (lit "Shipped v1") S today (lit "10:30") ∅ in
  (∅ : gmap (list N) (list N)) !! DailyNotes.fileName today = None ∧
  RegExp.isDate today = true ∧ LF ∉ S ∧
  ∀ f, f ≠ DailyNotes.fileName today → dir' !! f = None.
Proof.
  intros today S dir'.
  assert (H1 : (∅ : gmap (list N) (list N)) !! DailyNotes.fileName today = None)
    by apply lookup_empty.
  assert (H2 : RegExp.isDate today = true) by by vm_compute.
  assert (H3 : LF ∉ S) by by_computation.
  pose proof (addEntry_new_day ∅ today (lit "10:30") (lit "Shipped v1") S
                H1 H2 H3) as (_ & Hother & _).
  split; [exact H1|]. split; [exact H2|]. split; [exact H3|].
  intros f Hf. etrans; [exact (Hother f Hf)|apply lookup_empty].
Defined.

(** The hypothesis of [returned_arrays_are_copies] holds of an instance
    whose array is in the store; the caller reverses what it was given. *)
Lemma returned_arrays_are_copies_witness :
  is_Some (Heap.arrays store2 !! Heap.entriesRef instance2) ∧
  Heap.readArray (Heap.entriesRef instance2)
    (Heap.mutate (Heap.getEntries instance2 store2).1 reverse
       (Heap.getEntries instance2 store2).2)
  = Heap.readArray (Heap.entriesRef instance2) store2.
Proof.
  assert (H1 : is_Some (Heap.arrays store2 !! Heap.entriesRef instance2)).
  { exists [10%positive; 11%positive]. by vm_compute. }
  pose proof (returned_arrays_are_copies instance2 store2 reverse H1)
    as ((_ & _ & Hkeep & _) & _).
  split; [done|exact Hkeep].
Defined.

End Examples.

(** ** The further properties on the sample data *)

Section MoreExamples.
Import Transcript Sample Cases.

Local Ltac by_computation := apply (bool_decide_unpack _); vm_compute; exact I.

(** Two messages added to an empty transcript: the second names the
    first as its parent. *)
Lemma messages_are_chained_witness :
  let t' :=
    (run countCodeUnits (parse [entry1; entry2]) stringify str stringifyCall
       (map (msgOp str) [msg1; msg2]) (loadedEmpty, emptyWorld)).1 in
  loaded loadedEmpty = true ∧
  Forall (λ m, m_parent m = None) [msg1; msg2] ∧
  ∃ news, getEntries t' = news ∧ linked None news.
Proof.
  intros t'.
  assert (H1 : loaded loadedEmpty = true) by done.
  assert (H2 : Forall (λ m, m_parent m = None) [msg1; msg2])
    by (constructor; [done|]; constructor; [done|]; constructor).
  destruct (messages_are_chained countCodeUnits (parse [entry1; entry2])
              stringify str stringifyCall loadedEmpty emptyWorld
              [msg1; msg2] H1 H2) as (news & Hn & _ & _ & _ & Hl).
  split; [exact H1|]. split; [exact H2|].
  exists news. split; [exact Hn|exact Hl].
Defined.

(** The conversation of two messages is read back whole. *)
Lemma reload_restores_transcript_witness :
  let parse := parse [entry1; entry2] in
  let s := run countCodeUnits parse stringify str stringifyCall chat
             (new path, emptyWorld) in
  disk emptyWorld !! path = None ∧
  Forall (λ o, isReloadOp str o = false) chat ∧
  Forall (roundTrips parse stringify) (getEntries s.1) ∧
  getEntries (reload parse s.1 s.2).1 = [entry1; entry2].
Proof.
  intros parse s.
  assert (H1 : disk emptyWorld !! path = None) by apply lookup_empty.
  assert (H2 : Forall (λ o, isReloadOp str o = false) chat)
    by (constructor; [done|]; constructor; [done|]; constructor; [done|];
        constructor).
  assert (He : getEntries s.1 = [entry1; entry2]) by (by vm_compute).
  assert (H3 : Forall (roundTrips parse stringify) (getEntries s.1)).
  { rewrite He.
    constructor; [|constructor; [|constructor]].
    - split; [split; [by_computation|by vm_compute]|by vm_compute].
    - split; [split; [by_computation|by vm_compute]|by vm_compute]. }
  pose proof (reload_restores_transcript countCodeUnits parse stringify str
                stringifyCall path emptyWorld chat H1 H2 H3) as (Hr & _).
  split; [exact H1|]. split; [exact H2|]. split; [exact H3|].
  etrans; [exact Hr|exact He].
Defined.

(** Init, two messages and a compaction: three entries, one compaction. *)
Lemma counts_follow_calls_witness :
  let t' := (run countCodeUnits (parse []) stringify str stringifyCall
               chatCompacted (new path, emptyWorld)).1 in
  disk emptyWorld !! path = None ∧
  Forall (λ o, isReloadOp str o = false) chatCompacted ∧
  getEntryCount t' = 3 ∧ getCompactionCount t' = 1.
Proof.
  intros t'.
  assert (H1 : disk emptyWorld !! path = None) by apply lookup_empty.
  assert (H2 : Forall (λ o, isReloadOp str o = false) chatCompacted)
    by (constructor; [done|]; constructor; [done|]; constructor; [done|];
        constructor; [done|]; constructor).
  pose proof (counts_follow_calls countCodeUnits (parse []) stringify str
                stringifyCall path emptyWorld chatCompacted H1 H2) as [Ha Hb].
  split; [exact H1|]. split; [exact H2|]. split.
  - etrans; [exact Ha|]. by vm_compute.
  - etrans; [exact Hb|]. by vm_compute.
Defined.

(** Replacing section [B] of a document with two sections [A]. *)
Lemma setSection_replaces_body_witness :
  let st' := LongTermMemory.setSection (lit "B") (lit "y") memoryTwiceA in
  split (LongTermMemory.read memoryTwiceA).1 =
    [lit "## A"; lit "first"] ++ lit "## B" :: [lit "x"]
    ++ [lit "## A"; lit "second"] ∧
  Forall (λ l, RegExp.sectionPattern_test false (lit "B") l = false)
    [lit "## A"; lit "first"] ∧
  RegExp.sectionPattern_test false (lit "B") (lit "## B") = true ∧
  Forall (λ l, RegExp.nextSection l = false) [lit "x"] ∧
  LongTermMemory.file st' =
    Some (join [lit "## A"; lit "first"; lit "## B"; lit "y"; [];
                lit "## A"; lit "second"]).
Proof.
  intros st'.
  assert (H1 : split (LongTermMemory.read memoryTwiceA).1 =
               [lit "## A"; lit "first"] ++ lit "## B" :: [lit "x"]
               ++ [lit "## A"; lit "second"]) by (by vm_compute).
  assert (H2 : Forall (λ l, RegExp.sectionPattern_test false (lit "B") l = false)
                 [lit "## A"; lit "first"])
    by (constructor; [by vm_compute|]; constructor; [by vm_compute|];
        constructor).
  assert (H3 : RegExp.sectionPattern_test false (lit "B") (lit "## B") = true)
    by (by vm_compute).
  assert (H4 : Forall (λ l, RegExp.nextSection l = false) [lit "x"])
    by (constructor; [by vm_compute|]; constructor).
  pose proof (setSection_replaces_body (lit "B") (lit "y") memoryTwiceA
                [lit "## A"; lit "first"] (lit "## B") [lit "x"]
                [lit "## A"; lit "second"] H1 H2 H3 H4
                (or_intror (ex_intro _ (lit "## A") (conj eq_refl eq_refl))))
    as (Hf & _).
  split; [exact H1|]. split; [exact H2|]. split; [exact H3|].
  split; [exact H4|exact Hf].
Defined.

(** An entry added to the section [Ideas] of a day that has two. *)
Lemma addEntry_appends_to_section_witness :
  let today := lit "2026-01-30" in
  let S := lit "Ideas" in
  let file :=
    join [lit "# 2026-01-30"; []; lit "## Ideas"; lit "- [10:30] walk Max";
          lit "- [10:31] max likes walks"; []] in
  let dir' := DailyNotes.addEntry (lit "nap") S today (lit "10:32") notesMax in
  notesMax !! DailyNotes.fileName today = Some file ∧
  split file =
    [lit "# 2026-01-30"; []] ++ lit "## Ideas"
    :: [lit "- [10:30] walk Max"; lit "- [10:31] max likes walks"]
    ++ [[]] ++ [] ∧
  RegExp.sectionPattern_test true S (lit "## Ideas") = true ∧
  dir' !! DailyNotes.fileName today =
    Some (join [lit "# 2026-01-30"; []; lit "## Ideas";
                lit "- [10:30] walk Max"; lit "- [10:31] max likes walks";
                lit "- [10:32] nap"; []]).
Proof.
  intros today S file dir'.
  assert (H1 : notesMax !! DailyNotes.fileName today = Some file)
    by (by vm_compute).
  assert (H2 : split file =
               [lit "# 2026-01-30"; []] ++ lit "## Ideas"
               :: [lit "- [10:30] walk Max"; lit "- [10:31] max likes walks"]
               ++ [[]] ++ []) by (by vm_compute).
  assert (H3 : Forall (λ l, RegExp.sectionPattern_test true S l = false)
                 [lit "# 2026-01-30"; []])
    by (constructor; [by vm_compute|]; constructor; [by vm_compute|];
        constructor).
  assert (H4 : RegExp.sectionPattern_test true S (lit "## Ideas") = true)
    by (by vm_compute).
  assert (H5 : Forall (λ l, RegExp.nextSection l = false)
                 ([lit "- [10:30] walk Max"; lit "- [10:31] max likes walks"]
                  ++ [[]]))
    by (constructor; [by vm_compute|]; constructor; [by vm_compute|];
        constructor; [by vm_compute|]; constructor).
  assert (H6 : Forall (λ l, truthy (trim l) = false) [[]])
    by (constructor; [by vm_compute|]; constructor).
  assert (H7 : truthy (trim (default (lit "## Ideas")
                 (last [lit "- [10:30] walk Max";
                        lit "- [10:31] max likes walks"]))) = true)
    by (by vm_compute).
  pose proof (addEntry_appends_to_section notesMax today (lit "10:32")
                (lit "nap") S file [lit "# 2026-01-30"; []] (lit "## Ideas")
                [lit "- [10:30] walk Max"; lit "- [10:31] max likes walks"]
                [[]] [] H1 H2 H3 H4 H5 (or_introl eq_refl) H6 H7) as (Hf & _).
  split; [exact H1|]. split; [exact H2|]. split; [exact H4|].
  etrans; [exact Hf|]. by vm_compute.
Defined.

(** Two entries added in a row to the section [Ideas]. *)
Lemma addEntry_keeps_call_order_witness :
  let today := lit "2026-01-30" in
  let S := lit "Ideas" in
  let file :=
    join [lit "# 2026-01-30"; []; lit "## Ideas"; lit "- [10:30] walk Max";
          lit "- [10:31] max likes walks"; []] in
  notesMax !! DailyNotes.fileName today = Some file ∧
  LF ∉ lit "10:32" ∧ LF ∉ lit "nap" ∧
  DailyNotes.addEntry (lit "tea") S today (lit "10:33")
    (DailyNotes.addEntry (lit "nap") S today (lit "10:32") notesMax)
  !! DailyNotes.fileName today =
    Some (join [lit "# 2026-01-30"; []; lit "## Ideas";
                lit "- [10:30] walk Max"; lit "- [10:31] max likes walks";
                lit "- [10:32] nap"; lit "- [10:33] tea"; []]).
Proof.
  intros today S file.
  assert (H1 : notesMax !! DailyNotes.fileName today = Some file)
    by (by vm_compute).
  assert (H2 : split file =
               [lit "# 2026-01-30"; []] ++ lit "## Ideas"
               :: [lit "- [10:30] walk Max"; lit "- [10:31] max likes walks"]
               ++ [[]] ++ []) by (by vm_compute).
  assert (H3 : Forall (λ l, RegExp.sectionPattern_test true S l = false)
                 [lit "# 2026-01-30"; []])
    by (constructor; [by vm_compute|]; constructor; [by vm_compute|];
        constructor).
  assert (H4 : RegExp.sectionPattern_test true S (lit "## Ideas") = true)
    by (by vm_compute).
  assert (H5 : Forall (λ l, RegExp.nextSection l = false)
                 ([lit "- [10:30] walk Max"; lit "- [10:31] max likes walks"]
                  ++ [[]]))
    by (constructor; [by vm_compute|]; constructor; [by vm_compute|];
        constructor; [by vm_compute|]; constructor).
  assert (H6 : Forall (λ l, truthy (trim l) = false) [[]])
    by (constructor; [by vm_compute|]; constructor).
  assert (H7 : truthy (trim (default (lit "## Ideas")
                 (last [lit "- [10:30] walk Max";
                        lit "- [10:31] max likes walks"]))) = true)
    by (by vm_compute).
  assert (H8 : LF ∉ lit "10:32") by by_computation.
  assert (H9 : LF ∉ lit "nap") by by_computation.
  pose proof (addEntry_keeps_call_order notesMax today S (lit "10:32")
                (lit "nap") (lit "10:33") (lit "tea") file
                [lit "# 2026-01-30"; []] (lit "## Ideas")
                [lit "- [10:30] walk Max"; lit "- [10:31] max likes walks"]
                [[]] [] H1 H2 H3 H4 H5 (or_introl eq_refl) H6 H7 H8 H9) as Hf.
  split; [exact H1|]. split; [exact H8|]. split; [exact H9|].
  etrans; [exact Hf|]. by vm_compute.
Defined.

(** An entry for a section the day does not have yet. *)
Lemma addEntry_adds_missing_section_witness :
  let today := lit "2026-01-30" in
  let S := lit "Tasks" in
  let file :=
    join [lit "# 2026-01-30"; []; lit "## Ideas"; lit "- [10:30] walk Max";
          lit "- [10:31] max likes walks"; []] in
  notesMax !! DailyNotes.fileName today = Some file ∧
  RegExp.sectionPattern_test true S file = false ∧
  LF ∉ S ∧
  DailyNotes.addEntry (lit "buy milk") S today (lit "10:32") notesMax
  !! DailyNotes.fileName today =
    Some (join [lit "# 2026-01-30"; []; lit "## Ideas";
                lit "- [10:30] walk Max"; lit "- [10:31] max likes walks";
                []; lit "## Tasks"; lit "- [10:32] buy milk"; []]).
Proof.
  intros today S file.
  assert (H1 : notesMax !! DailyNotes.fileName today = Some file)
    by (by vm_compute).
  assert (H2 : RegExp.sectionPattern_test true S file = false)
    by (by vm_compute).
  assert (H3 : LF ∉ S) by by_computation.
  pose proof (addEntry_adds_missing_section notesMax today (lit "10:32")
                (lit "buy milk") S file H1 H2 H3) as (Hf & _).
  split; [exact H1|]. split; [exact H2|]. split; [exact H3|].
  etrans; [exact Hf|]. by vm_compute.
Defined.

(** Session [s2] is brought up to date with a transcript of two messages. *)
Lemma syncFromTranscript_updates_first_witness :
  let parse := parseSessions [[session1; session2]] in
  let r := SessionStore.syncFromTranscript parse showSessions (lit "s2")
             twoMessages ts3 newStore storeWorld in
  SessionStore.sessions (SessionStore.load parse newStore storeWorld)
    = [session1] ++ session2 :: [] ∧
  Forall (λ x, SessionStore.sessionId x ≠ lit "s2") [session1] ∧
  SessionStore.sessions r.1 =
    [session1;
     {| SessionStore.sessionId := lit "s2"; SessionStore.agentId := lit "a1";
        SessionStore.createdAt := ts2; SessionStore.updatedAt := ts3;
        SessionStore.totalTokens := 8; SessionStore.entryCount := 2;
        SessionStore.compactionCount := 0 |}].
Proof.
  intros parse r.
  assert (H1 : SessionStore.sessions
                 (SessionStore.load parse newStore storeWorld)
               = [session1] ++ session2 :: []) by (by vm_compute).
  assert (H2 : Forall (λ x, SessionStore.sessionId x ≠ lit "s2") [session1])
    by (constructor; [by_computation|]; constructor).
  pose proof (syncFromTranscript_updates_first parse showSessions (lit "s2")
                twoMessages ts3 newStore storeWorld [session1] session2 []
                H1 H2 eq_refl) as (Hs & _).
  split; [exact H1|]. split; [exact H2|].
  etrans; [exact Hs|]. by vm_compute.
Defined.

(** Session [s1] is deleted; [s2] stays. *)
Lemma deleteSession_removes_first_witness :
  let parse := parseSessions [[session1; session2]] in
  let r := SessionStore.deleteSession parse showSessions (lit "s1")
             newStore storeWorld in
  SessionStore.sessions (SessionStore.load parse newStore storeWorld)
    = [] ++ session1 :: [session2] ∧
  r.1 = true ∧ SessionStore.sessions r.2.1 = [session2].
Proof.
  intros parse r.
  assert (H1 : SessionStore.sessions
                 (SessionStore.load parse newStore storeWorld)
               = [] ++ session1 :: [session2]) by (by vm_compute).
  pose proof (deleteSession_removes_first parse showSessions (lit "s1")
                newStore storeWorld [] session1 [session2]
                H1 (List.Forall_nil _) eq_refl) as (Ht & Hs & _).
  split; [exact H1|]. split; [exact Ht|exact Hs].
Defined.

(** The store lists no session [s9]. *)
Lemma unknown_session_untouched_witness :
  let parse := parseSessions [[session1; session2]] in
  Forall (λ x, SessionStore.sessionId x ≠ lit "s9")
    (SessionStore.sessions (SessionStore.load parse newStore storeWorld)) ∧
  SessionStore.deleteSession parse showSessions (lit "s9") newStore storeWorld
    = (false, (SessionStore.load parse newStore storeWorld, storeWorld)).
Proof.
  intros parse.
  assert (H1 : Forall (λ x, SessionStore.sessionId x ≠ lit "s9")
                 (SessionStore.sessions
                    (SessionStore.load parse newStore storeWorld))).
  { replace (SessionStore.sessions
               (SessionStore.load parse newStore storeWorld))
      with [session1; session2] by (by vm_compute).
    constructor; [by_computation|]. constructor; [by_computation|].
    constructor. }
  pose proof (unknown_session_untouched pathJoin parse showSessions
                (Sample.parse []) (lit "s9") newStore storeWorld
                {| SessionStore.u_updatedAt := None;
                   SessionStore.u_totalTokens := None;
                   SessionStore.u_entryCount := None;
                   SessionStore.u_compactionCount := None |}
                twoMessages ts3 H1) as (_ & _ & Hd & _).
  split; [exact H1|exact Hd].
Defined.

(** A third session is created. *)
Lemma createSession_starts_empty_witness :
  let parse := parseSessions [[session1; session2]] in
  let r := SessionStore.createSession pathJoin parse showSessions
             (Sample.parse []) (lit "s3") ts3 newStore storeWorld in
  disk storeWorld !! SessionStore.getTranscriptPath pathJoin newStore (lit "s3")
    = None ∧
  SessionStore.getTranscriptPath pathJoin newStore (lit "s3")
    ≠ SessionStore.sessionsFilePath newStore ∧
  SessionStore.sessionId r.1.1 = lit "s3" ∧
  getEntries r.1.2 = [].
Proof.
  intros parse r.
  assert (H1 : disk storeWorld
               !! SessionStore.getTranscriptPath pathJoin newStore (lit "s3")
               = None) by (by vm_compute).
  assert (H2 : SessionStore.getTranscriptPath pathJoin newStore (lit "s3")
               ≠ SessionStore.sessionsFilePath newStore) by by_computation.
  pose proof (createSession_starts_empty pathJoin parse showSessions
                (Sample.parse []) (lit "s3") ts3 newStore storeWorld H1 H2)
    as (Hm & _ & _ & _ & He & _).
  split; [exact H1|]. split; [exact H2|]. split.
  - etrans; [exact (f_equal SessionStore.sessionId Hm)|done].
  - exact He.
Defined.

(** After three calls, a store made anew lists the same two sessions. *)
Lemma sessions_survive_restart_witness :
  let parse := parseSessions [[session1; session2]; sessionsAfterCalls] in
  let s := SessionStore.run pathJoin parse showSessions (λ _, None)
             (Sample.parse []) storeCalls (newStore, storeWorld) in
  (∀ id, SessionStore.getTranscriptPath pathJoin newStore id
         ≠ SessionStore.sessionsFilePath newStore) ∧
  parse (showSessions (SessionStore.sessions s.1))
    = Some (SessionStore.sessions s.1) ∧
  SessionStore.afterRestart pathJoin parse s.1 s.2 = sessionsAfterCalls.
Proof.
  intros parse s.
  assert (H1 : ∀ id, SessionStore.getTranscriptPath pathJoin newStore id
                     ≠ SessionStore.sessionsFilePath newStore).
  { intros id H. vm_compute in H. discriminate H. }
  assert (He : (SessionStore.getSessions parse s.1 s.2).1 = sessionsAfterCalls)
    by (by vm_compute).
  assert (H2 : parse (showSessions (SessionStore.sessions s.1))
               = Some (SessionStore.sessions s.1)) by (by vm_compute).
  pose proof (sessions_survive_restart pathJoin parse showSessions
                (λ _, None) (Sample.parse []) (lit "base") (lit "a1")
                storeWorld storeCalls H1 H2) as Hr.
  split; [exact H1|]. split; [exact H2|].
  etrans; [exact Hr|exact He].
Defined.

End MoreExamples.
